(** * time-audit: timecard / break-sheet reconciliation

    A shallow embedding of [lib/name-matcher.ts] and [lib/csv-utils.ts],
    of the comparison and the exports of [app/page.tsx] and of the cards
    of [components/csv-compare], together with the properties of the
    reconciliation pipeline.

    Conventions of the embedding
    - a JavaScript string is a [string]: a sequence of code units in the
      range 0..255;
    - a minute count, a match score and a [Date] (milliseconds since the
      epoch, always a valid date) are integers in [Z]; an integer stands
      for a JavaScript number, which every integer below 2^53 in
      magnitude is, and a number that is read or written goes through
      [toNumber], the rounding to binary64;
    - [null] / [undefined] are [None];
    - hours are IEEE-754 binary64 numbers ([float]), as in the source;
    - [fuzzball.token_sort_ratio], [date-fns.parse] and [parseFloat] are
      parameters of the definitions that call them; [differenceInMinutes]
      is the truncated quotient that date-fns documents;
    - a function that can throw returns an [option] or an outcome with a
      case for the exception. *)

From Stdlib Require Import ZArith List String Ascii Bool Arith Lia.
From Stdlib Require Import Permutation Sorting.Sorted.
From Stdlib Require Import PrimFloat DecimalString DecimalPos.
Import ListNotations.

Local Open Scope string_scope.
Local Open Scope list_scope.
Local Open Scope Z_scope.

(* ================================================================== *)
(** ** JavaScript string primitives *)
(* ================================================================== *)

Module Js.

Definition code (c : ascii) : N := N_of_ascii c.

(** [\s] of a regular expression and the characters removed by
    [String.prototype.trim], restricted to code units below 256:
    TAB, LF, VT, FF, CR, SPACE and NO-BREAK SPACE. *)
Definition isSpace (c : ascii) : bool :=
  let n := code c in
  ((9 <=? n) && (n <=? 13) || (n =? 32) || (n =? 160))%N.

(** [\w] of a regular expression: [A-Za-z0-9_]. *)
Definition isWord (c : ascii) : bool :=
  let n := code c in
  ((65 <=? n) && (n <=? 90) || (97 <=? n) && (n <=? 122)
   || (48 <=? n) && (n <=? 57) || (n =? 95))%N.

(** [toLowerCase] on one code unit: A-Z and the Latin-1 capitals
    (U+00C0..U+00DE except the multiplication sign U+00D7). *)
Definition lowerChar (c : ascii) : ascii :=
  let n := code c in
  if ((65 <=? n) && (n <=? 90)
      || (192 <=? n) && (n <=? 222) && negb (n =? 215))%N
  then ascii_of_N (n + 32) else c.

Fixpoint toLowerCase (s : string) : string :=
  match s with
  | EmptyString => EmptyString
  | String c s' => String (lowerChar c) (toLowerCase s')
  end.

(** [s.replace(/re/g, "")] for a single-character class: keep the
    characters that satisfy [keep]. *)
Fixpoint filterChars (keep : ascii -> bool) (s : string) : string :=
  match s with
  | EmptyString => EmptyString
  | String c s' =>
      if keep c then String c (filterChars keep s') else filterChars keep s'
  end.

Definition isQuote (c : ascii) : bool := (code c =? 34)%N.
Definition isComma (c : ascii) : bool := (code c =? 44)%N.

Fixpoint trimStart (s : string) : string :=
  match s with
  | EmptyString => EmptyString
  | String c s' => if isSpace c then trimStart s' else s
  end.

Fixpoint trimEnd (s : string) : string :=
  match s with
  | EmptyString => EmptyString
  | String c s' =>
      match trimEnd s' with
      | EmptyString => if isSpace c then EmptyString else String c EmptyString
      | t => String c t
      end
  end.

Definition trim (s : string) : string := trimEnd (trimStart s).

(** [s.split(",")]: the pieces between commas; an empty string yields
    one empty piece. *)
Fixpoint splitComma (s : string) : list string :=
  match s with
  | EmptyString => [EmptyString]
  | String c s' =>
      if isComma c then EmptyString :: splitComma s'
      else match splitComma s' with
           | p :: ps => String c p :: ps
           | [] => [String c EmptyString]
           end
  end.

(** [s.split(/\s+/)]: the pieces between maximal runs of white space;
    a leading or trailing run leaves an empty piece at that end. *)
Fixpoint splitSpaces (s : string) : list string :=
  match s with
  | EmptyString => [EmptyString]
  | String c s' =>
      if isSpace c then
        match s' with
        | String c' _ =>
            if isSpace c' then splitSpaces s' else EmptyString :: splitSpaces s'
        | EmptyString => EmptyString :: splitSpaces s'
        end
      else match splitSpaces s' with
           | p :: ps => String c p :: ps
           | [] => [String c EmptyString]
           end
  end.

Definition isEmpty (s : string) : bool :=
  match s with EmptyString => true | _ => false end.

(** A string used as a condition: [""] is falsy. *)
Definition truthy (s : string) : bool := negb (isEmpty s).

(** [Array.prototype.sort()] without a comparator orders strings by code
    units; the sort is stable.  Insertion from the right keeps an element
    in front of the equal ones that followed it. *)
Section Sort.
Context {A : Type} (le : A -> A -> bool).

Fixpoint insert (x : A) (l : list A) : list A :=
  match l with
  | [] => [x]
  | y :: l' => if le x y then x :: l else y :: insert x l'
  end.

Fixpoint sortBy (l : list A) : list A :=
  match l with
  | [] => []
  | x :: l' => insert x (sortBy l')
  end.
End Sort.

Definition sortStrings : list string -> list string := sortBy String.leb.

(** [arr.join(" ")]. *)
Definition joinSpace (l : list string) : string := String.concat " " l.

(** *** Numbers

    [toNumber] is the number that a non-negative integer becomes when it
    is stored: the integer itself below 2^53, and from there on the
    nearest binary64 value, ties to even.  [infinity], 2^1024, stands for
    [Infinity], which is what the integers from 2^1024 - 2^970 on
    become. *)
Definition safeLimit : Z := 9007199254740992.

Definition infinity : Z := 2 ^ 1024.

Definition roundBinary64 (z : Z) : Z :=
  let e := Z.log2 z - 52 in
  let q := Z.shiftr z e in
  let r := Z.land z (Z.ones e) in
  let half := Z.shiftl 1 (e - 1) in
  Z.shiftl (if (half <? r) || ((r =? half) && Z.odd q) then q + 1 else q) e.

Definition toNumber (z : Z) : Z :=
  if z <? safeLimit then z
  else if infinity <=? roundBinary64 z then infinity
  else roundBinary64 z.

(** The decimal digits of an integer. *)
Definition decimal (z : Z) : string :=
  DecimalString.NilZero.string_of_int (Z.to_int z).

Definition digitCount (z : Z) : Z := Z.of_nat (String.length (decimal z)).

(** [Number::toString] on a number [x] from 2^53 on picks the decimal
    with the fewest significant digits that is [x] as a number, the
    closest to [x] among those, and the even one of two equally close.
    The search tries [k] significant digits, from 1 on; with as many
    digits as [x] has, [x] itself is found. *)
Fixpoint shortest (x nd : Z) (k : nat) (fuel : nat) : Z :=
  match fuel with
  | O => x
  | S fuel' =>
      let p := 10 ^ (nd - Z.of_nat k) in
      let lo := x / p * p in
      let hi := lo + p in
      match toNumber lo =? x, toNumber hi =? x with
      | true, true =>
          if x - lo <? hi - x then lo
          else if hi - x <? x - lo then hi
          else if Z.even (x / p) then lo else hi
      | true, false => lo
      | false, true => hi
      | false, false => shortest x nd (S k) fuel'
      end
  end.

(** The digits without the zeros at the end. *)
Fixpoint dropZeros (digits : string) : string :=
  match digits with
  | EmptyString => EmptyString
  | String c rest =>
      match dropZeros rest with
      | EmptyString =>
          if (code c =? 48)%N then EmptyString else String c EmptyString
      | kept => String c kept
      end
  end.

(** The form [d.ddde+n] of a number from 10^21 on. *)
Definition exponentForm (significant : string) (e : Z) : string :=
  match significant with
  | EmptyString => EmptyString
  | String d EmptyString => String d ("e+" ++ decimal e)
  | String d rest => String d ("." ++ rest ++ "e+" ++ decimal e)
  end.

(** [Number::toString] on a non-negative number: the decimal digits
    below 2^53; from there on the shortest decimal, written out with its
    zeros when it has at most 21 digits and in exponent form otherwise. *)
Definition numberToString (x : Z) : string :=
  if x <? safeLimit then decimal x
  else if infinity <=? x then "Infinity"
  else
    let nd := digitCount x in
    let v := shortest x nd 1 (Z.to_nat nd) in
    let n := digitCount v in
    if n <=? 21 then decimal v
    else exponentForm (dropZeros (decimal v)) (n - 1).

(** A number inside a template literal, or joined into a string. *)
Definition showZ (z : Z) : string :=
  if z <? 0 then String "-" (numberToString (toNumber (- z)))
  else numberToString (toNumber z).

End Js.

(* ================================================================== *)
(** ** lib/name-matcher.ts *)
(* ================================================================== *)

Module NameMatcher.
Import Js.

Record NameMatchResult := mkNameMatch {
  nm_match : option string;
  nm_score : Z
}.

(** The token list of [normalizeEmployeeName] before cleaning: the
    comma branch flattens the trimmed parts, the other branch splits the
    cleaned string; both then drop the empty tokens. *)
Definition rawTokens (cleaned : string) : list string :=
  let parts := map trim (splitComma cleaned) in
  let tokens :=
    if (1 <? Z.of_nat (List.length parts)) then flat_map splitSpaces parts
    else splitSpaces cleaned in
  filter (fun t => negb (isEmpty t)) tokens.

Definition cleanToken (t : string) : string :=
  filterChars isWord (toLowerCase t).

Definition normalizeEmployeeName (name : string) : string :=
  if isEmpty name then ""
  else
    let cleaned := filterChars (fun c => negb (isQuote c)) (trim name) in
    let normalizedTokens := map cleanToken (rawTokens cleaned) in
    joinSpace (sortStrings normalizedTokens).

Definition defaultThreshold : Z := 80.

Section Matcher.
(** [fuzzball.token_sort_ratio]. *)
Variable token_sort_ratio : string -> string -> Z.

(** One iteration of the [for ... of] loop over the pool. *)
Definition matchStep (normalized : string)
    (best : option string * Z) (breakSheetName : string)
  : option string * Z :=
  let targetNormalized := normalizeEmployeeName breakSheetName in
  let score := token_sort_ratio normalized targetNormalized in
  if snd best <? score then (Some breakSheetName, score) else best.

Definition matchEmployeeByName (timecardName : string)
    (breakSheetNames : list string) (threshold : Z) : NameMatchResult :=
  let normalized := normalizeEmployeeName timecardName in
  let '(bestMatch, bestScore) :=
    fold_left (matchStep normalized) breakSheetNames (None, 0) in
  if threshold <=? bestScore then mkNameMatch bestMatch bestScore
  else mkNameMatch None bestScore.
End Matcher.

End NameMatcher.

(* ================================================================== *)
(** ** lib/utils.ts *)
(* ================================================================== *)

(** [DiffStatus]: the closed enumeration of classification outcomes. *)
Inductive DiffStatus : Type :=
  | match_
  | mismatch
  | addition
  | deletion
  | warning.

Definition DiffStatus_eqb (a b : DiffStatus) : bool :=
  match a, b with
  | match_, match_ | mismatch, mismatch | addition, addition
  | deletion, deletion | warning, warning => true
  | _, _ => false
  end.

(* ================================================================== *)
(** ** lib/csv-utils.ts *)
(* ================================================================== *)

Module CsvUtils.
Import Js NameMatcher.

(** A [Date] is its time value in milliseconds. *)
Definition Date : Type := Z.

Record TimecardEntry := mkTimecardEntry {
  payrollName : string;
  fileNumber : string;
  payDate : string;
  timeIn : option Date;
  timeOut : option Date;
  hours : float
}.

Record TimeRange := mkTimeRange {
  range_start : option Date;
  range_end : option Date;
  actualMinutes : option Z
}.

Record BreakSheetEntry := mkBreakSheetEntry {
  driverName : string;
  breakDuration : option Z;
  breakTimeRange : option TimeRange;
  hasRemarks : bool
}.

Record TimecardGap := mkTimecardGap {
  employeeName : string;
  gap_fileNumber : string;
  gapStart : Date;
  gapEnd : Date;
  gapMinutes : Z
}.

Record EmployeeComparisonResult := mkResult {
  res_employeeName : string;
  res_fileNumber : string;
  matchedBreakSheetName : option string;
  matchScore : Z;
  timecardGap : option TimecardGap;
  totalShiftHours : float;
  breakSheetDuration : option Z;
  breakSheetTimeRange : option TimeRange;
  status : DiffStatus;
  discrepancyMinutes : option Z;
  message : string
}.

Record Summary := mkSummary {
  totalEmployees : nat;
  matches : nat;
  mismatches : nat;
  missingBreakLog : nat;
  missingGap : nat;
  noBreakRequired : nat
}.

Record DiscrepancyReport := mkReport {
  targetDate : string;
  generatedAt : Date;
  summary : Summary;
  results : list EmployeeComparisonResult
}.

(** *** Ingestion of the timecard rows *)

(** What [date-fns.parse] can do: return a valid date, return an
    [Invalid Date], or throw. *)
Inductive ParseOutcome : Type :=
  | Parsed (t : Date)
  | InvalidDate
  | Thrown.

(** A parsed CSV row, [Record<string, string>]: the cells by header. *)
Definition Row : Type := list (string * string).

Fixpoint field (row : Row) (key : string) : option string :=
  match row with
  | [] => None
  | (k, v) :: row' => if String.eqb k key then Some v else field row' key
  end.

(** [!row[key]]: the cell is missing or the empty string. *)
Definition blank (cell : option string) : bool :=
  match cell with
  | None => true
  | Some v => isEmpty v
  end.

Section Ingestion.
(** [parse(text, format, referenceDate)] of date-fns. *)
Variable parse : string -> string -> Date -> ParseOutcome.
(** The global [parseFloat], applied to a cell that may be missing. *)
Variable parseFloat : option string -> float.

Definition parseTimeString (timeStr : option string) (referenceDate : Date)
  : option Date :=
  match timeStr with
  | None => None
  | Some s =>
      if isEmpty s || isEmpty (trim s) then None
      else
        match parse s "hh:mm a" referenceDate with
        | Parsed t => Some t
        | Thrown => None
        | InvalidDate =>
            match parse s "h:mma" referenceDate with
            | Parsed t => Some t
            | Thrown => None
            | InvalidDate =>
                match parse s "h:mmaa" referenceDate with
                | Parsed t => Some t
                | Thrown => None
                | InvalidDate => None
                end
            end
        end
  end.

(** [x || 0] on a number: NaN and both zeros are falsy. *)
Definition orZero (x : float) : float :=
  if (PrimFloat.is_nan x || PrimFloat.is_zero x)%bool then 0%float else x.

(** What the body of the loop over [results.data] does with one row:
    [continue], [entries.push(e)], or a [TypeError] from calling [trim] on a
    missing cell. *)
Inductive RowOutcome : Type :=
  | Skipped
  | Kept (e : TimecardEntry)
  | Raised.

(** [now] is the [new Date()] that [parseTimeString] takes as its default
    reference date. *)
Definition timecardRow (now : Date) (row : Row) : RowOutcome :=
  if blank (field row "Payroll Name") || blank (field row "File Number")
     || blank (field row "Pay Date")
  then Skipped
  else if blank (field row "Time In") && blank (field row "Time Out")
  then Skipped
  else
    let timeIn := parseTimeString (field row "Time In") now in
    let timeOut := parseTimeString (field row "Time Out") now in
    match field row "Payroll Name", field row "File Number",
          field row "Pay Date" with
    | Some name, Some number, Some date =>
        Kept {| payrollName := trim name;
                fileNumber := trim number;
                payDate := trim date;
                timeIn := timeIn;
                timeOut := timeOut;
                hours := orZero (parseFloat (field row "Hours")) |}
    | _, _, _ => Raised
    end.

(** The [complete] callback of [parseTimecardCSV]: the entries pushed
    while walking the rows in order; [None] when a row raised. *)
Definition parseTimecardRows (now : Date) (rows : list Row)
  : option (list TimecardEntry) :=
  fold_left
    (fun acc row =>
       match acc with
       | None => None
       | Some entries =>
           match timecardRow now row with
           | Skipped => Some entries
           | Kept e => Some (entries ++ [e])
           | Raised => None
           end
       end)
    rows (Some []).
End Ingestion.

(** *** Gap detection *)

(** [differenceInMinutes(later, earlier)] of date-fns: the number of
    full minutes between the two dates, truncated towards zero. *)
Definition differenceInMinutes (dateLeft dateRight : Date) : Z :=
  Z.quot (dateLeft - dateRight) 60000.

(** [Map<string, TimecardEntry[]>], in insertion order of its keys. *)
Definition EmployeeMap : Type := list (string * list TimecardEntry).

Fixpoint mapGet (m : EmployeeMap) (k : string) : option (list TimecardEntry) :=
  match m with
  | [] => None
  | (k', v) :: m' => if String.eqb k' k then Some v else mapGet m' k
  end.

Fixpoint mapSet (m : EmployeeMap) (k : string) (v : list TimecardEntry)
  : EmployeeMap :=
  match m with
  | [] => [(k, v)]
  | (k', v') :: m' =>
      if String.eqb k' k then (k', v) :: m' else (k', v') :: mapSet m' k v
  end.

Definition groupStep (employeeMap : EmployeeMap) (entry : TimecardEntry)
  : EmployeeMap :=
  let existing :=
    match mapGet employeeMap (fileNumber entry) with
    | Some a => a
    | None => []
    end in
  mapSet employeeMap (fileNumber entry) (existing ++ [entry]).

Definition groupByFileNumber (dateEntries : list TimecardEntry) : EmployeeMap :=
  fold_left groupStep dateEntries [].

Definition onDate (targetDate : string) (entries : list TimecardEntry)
  : list TimecardEntry :=
  filter (fun e => String.eqb (payDate e) targetDate) entries.

Definition hasTimeIn (e : TimecardEntry) : bool :=
  match timeIn e with Some _ => true | None => false end.

(** The comparator [a.timeIn.getTime() - b.timeIn.getTime()] read as
    "a is not after b"; it is only applied to entries with a clock-in. *)
Definition timeInLe (a b : TimecardEntry) : bool :=
  match timeIn a, timeIn b with
  | Some x, Some y => x <=? y
  | _, _ => true
  end.

Definition sortedEntries (employeeEntries : list TimecardEntry)
  : list TimecardEntry :=
  sortBy timeInLe (filter hasTimeIn employeeEntries).

(** The gap pushed for one adjacent pair, if any. *)
Definition gapOfPair (fileNumber : string)
    (currentEntry nextEntry : TimecardEntry) : list TimecardGap :=
  match timeOut currentEntry, timeIn nextEntry with
  | Some out, Some next_in =>
      let gapMinutes := differenceInMinutes next_in out in
      if 10 <? gapMinutes then
        [ {| employeeName := payrollName currentEntry;
             gap_fileNumber := fileNumber;
             gapStart := out;
             gapEnd := next_in;
             gapMinutes := gapMinutes |} ]
      else []
  | _, _ => []
  end.

(** The loop [for (i = 0; i < sorted.length - 1; i++)]. *)
Fixpoint gapsOfSorted (fileNumber : string) (sorted : list TimecardEntry)
  : list TimecardGap :=
  match sorted with
  | currentEntry :: ((nextEntry :: _) as rest) =>
      gapOfPair fileNumber currentEntry nextEntry
        ++ gapsOfSorted fileNumber rest
  | _ => []
  end.

Definition detectTimecardGaps (entries : list TimecardEntry)
    (targetDate : string) : list TimecardGap :=
  let dateEntries := onDate targetDate entries in
  let employeeMap := groupByFileNumber dateEntries in
  fold_left
    (fun gaps '(fileNumber, employeeEntries) =>
       gaps ++ gapsOfSorted fileNumber (sortedEntries employeeEntries))
    employeeMap [].

(** *** Classification *)

Record Comparison := mkComparison {
  cmp_status : DiffStatus;
  cmp_discrepancyMinutes : option Z;
  cmp_message : string
}.

Definition defaultTolerance : Z := 5.

(** [breakEntry.breakTimeRange?.actualMinutes ?? breakEntry.breakDuration] *)
Definition loggedMinutesOf (breakEntry : BreakSheetEntry) : option Z :=
  match breakTimeRange breakEntry with
  | Some range =>
      match actualMinutes range with
      | Some m => Some m
      | None => breakDuration breakEntry
      end
  | None => breakDuration breakEntry
  end.

(** A nullable number inside a template literal. *)
Definition showNullable (n : option Z) : string :=
  match n with Some z => showZ z | None => "null" end.

(** [n ? -n : null]: zero is falsy. *)
Definition negatedIfTruthy (n : option Z) : option Z :=
  match n with
  | Some z => if z =? 0 then None else Some (- z)
  | None => None
  end.

Definition compareBreakRecords (gap : option TimecardGap)
    (breakEntry : option BreakSheetEntry) (toleranceMinutes : Z)
  : Comparison :=
  match gap, breakEntry with
  | Some g, Some b =>
      let gapMinutes := gapMinutes g in
      match loggedMinutesOf b with
      | None =>
          {| cmp_status := warning;
             cmp_discrepancyMinutes := None;
             cmp_message :=
               ("Gap detected (" ++ showZ gapMinutes
                ++ "min) but break duration not specified in sheet")%string |}
      | Some loggedMinutes =>
          let difference := Z.abs (gapMinutes - loggedMinutes) in
          if difference <=? toleranceMinutes then
            {| cmp_status := match_;
               cmp_discrepancyMinutes := Some 0;
               cmp_message :=
                 ("Break properly logged (Gap: " ++ showZ gapMinutes
                  ++ "min, Logged: " ++ showZ loggedMinutes ++ "min)")%string |}
          else
            {| cmp_status := mismatch;
               cmp_discrepancyMinutes := Some (gapMinutes - loggedMinutes);
               cmp_message :=
                 ("Duration mismatch (Gap: " ++ showZ gapMinutes
                  ++ "min, Logged: " ++ showZ loggedMinutes
                  ++ "min, Difference: " ++ showZ difference ++ "min)")%string |}
      end
  | Some g, None =>
      {| cmp_status := deletion;
         cmp_discrepancyMinutes := Some (gapMinutes g);
         cmp_message :=
           ("Gap detected (" ++ showZ (gapMinutes g)
            ++ "min) but no break logged in sheet")%string |}
  | None, Some b =>
      let loggedMinutes := loggedMinutesOf b in
      {| cmp_status := warning;
         cmp_discrepancyMinutes := negatedIfTruthy loggedMinutes;
         cmp_message :=
           ("Break logged (" ++ showNullable loggedMinutes
            ++ "min) but no gap found in timecard")%string |}
  | None, None =>
      {| cmp_status := match_;
         cmp_discrepancyMinutes := None;
         cmp_message := "No break required" |}
  end.

(** *** The report *)

(** [gaps.find((g) => g.fileNumber === fileNumber) || null] *)
Definition findGap (gaps : list TimecardGap) (fileNumber : string)
  : option TimecardGap :=
  find (fun g => String.eqb (gap_fileNumber g) fileNumber) gaps.

(** The break-sheet entry looked up when [nameMatch.match] is truthy. *)
Definition findBreakEntry (breakSheetEntries : list BreakSheetEntry)
    (matched : option string) : option BreakSheetEntry :=
  match matched with
  | Some name =>
      if truthy name then
        find (fun e => String.eqb (driverName e) name) breakSheetEntries
      else None
  | None => None
  end.

(** [breakEntry?.breakDuration || null]: zero is falsy. *)
Definition durationOrNull (breakEntry : option BreakSheetEntry) : option Z :=
  match breakEntry with
  | Some b =>
      match breakDuration b with
      | Some d => if d =? 0 then None else Some d
      | None => None
      end
  | None => None
  end.

Definition rangeOrNull (breakEntry : option BreakSheetEntry)
  : option TimeRange :=
  match breakEntry with
  | Some b => breakTimeRange b
  | None => None
  end.

Definition sumHours (entries : list TimecardEntry) : float :=
  fold_left (fun sum e => (sum + hours e)%float) entries 0%float.

Definition countStatus (s : DiffStatus)
    (results : list EmployeeComparisonResult) : nat :=
  List.length (filter (fun r => DiffStatus_eqb (status r) s) results).

Definition summarize (results : list EmployeeComparisonResult) : Summary :=
  {| totalEmployees := List.length results;
     matches := countStatus match_ results;
     mismatches := countStatus mismatch results;
     missingBreakLog := countStatus deletion results;
     missingGap := countStatus warning results;
     noBreakRequired := countStatus addition results |}.

(** The object literal pushed onto [results]. *)
Definition makeResult (employeeName fileNumber : string)
    (totalShiftHours : float) (employeeGap : option TimecardGap)
    (nameMatch : NameMatchResult) (breakEntry : option BreakSheetEntry)
    (comparison : Comparison) : EmployeeComparisonResult :=
  {| res_employeeName := employeeName;
     res_fileNumber := fileNumber;
     matchedBreakSheetName := nm_match nameMatch;
     matchScore := nm_score nameMatch;
     timecardGap := employeeGap;
     totalShiftHours := totalShiftHours;
     breakSheetDuration := durationOrNull breakEntry;
     breakSheetTimeRange := rangeOrNull breakEntry;
     status := cmp_status comparison;
     discrepancyMinutes := cmp_discrepancyMinutes comparison;
     message := cmp_message comparison |}.

Section Report.
(** [fuzzball.token_sort_ratio]. *)
Variable token_sort_ratio : string -> string -> Z.

(** The body of the loop over [employeeMap]; [None] is the
    [TypeError] of reading [entries[0].payrollName] on an empty
    array. *)
Definition employeeResult (gaps : list TimecardGap)
    (breakSheetEntries : list BreakSheetEntry)
    (breakSheetNames : list string) (toleranceMinutes : Z)
    (fileNumber : string) (entries : list TimecardEntry)
  : option EmployeeComparisonResult :=
  match entries with
  | [] => None
  | first :: _ =>
      let employeeName := payrollName first in
      let totalShiftHours := sumHours entries in
      let employeeGap := findGap gaps fileNumber in
      let nameMatch :=
        matchEmployeeByName token_sort_ratio employeeName breakSheetNames
          defaultThreshold in
      let breakEntry := findBreakEntry breakSheetEntries (nm_match nameMatch) in
      let comparison :=
        compareBreakRecords employeeGap breakEntry toleranceMinutes in
      Some (makeResult employeeName fileNumber totalShiftHours employeeGap
              nameMatch breakEntry comparison)
  end.

Definition buildResults (gaps : list TimecardGap)
    (breakSheetEntries : list BreakSheetEntry)
    (breakSheetNames : list string) (toleranceMinutes : Z)
    (employeeMap : EmployeeMap)
  : option (list EmployeeComparisonResult) :=
  fold_left
    (fun acc '(fileNumber, entries) =>
       match acc with
       | None => None
       | Some results =>
           match employeeResult gaps breakSheetEntries breakSheetNames
                   toleranceMinutes fileNumber entries with
           | None => None
           | Some r => Some (results ++ [r])
           end
       end)
    employeeMap (Some []).

(** [now] is the [new Date()] stored in [generatedAt]. *)
Definition generateDiscrepancyReport (now : Date)
    (timecardEntries : list TimecardEntry)
    (breakSheetEntries : list BreakSheetEntry)
    (targetDate : string) (toleranceMinutes : Z)
  : option DiscrepancyReport :=
  let gaps := detectTimecardGaps timecardEntries targetDate in
  let dateEntries := onDate targetDate timecardEntries in
  let employeeMap := groupByFileNumber dateEntries in
  let breakSheetNames := map driverName breakSheetEntries in
  match buildResults gaps breakSheetEntries breakSheetNames
          toleranceMinutes employeeMap with
  | None => None
  | Some results =>
      Some {| targetDate := targetDate;
              generatedAt := now;
              summary := summarize results;
              results := results |}
  end.
End Report.

End CsvUtils.

(* ================================================================== *)
(** ** The arrays as mutable objects *)
(* ================================================================== *)

(** The same functions over a store of arrays.  The arrays whose elements
    have the type of an input ([TimecardEntry[]], [BreakSheetEntry[]],
    [string[]]) are cells of a heap and are passed by location, so that
    [push] and the in-place [sort] are writes that could reach an input.
    The entries themselves are values: the source never assigns to a field
    of an entry.  The arrays of gaps and results are built and returned by
    the function that creates them and are kept as values. *)
Module Store.
Import Js NameMatcher CsvUtils.

Inductive Cell : Type :=
  | TimecardArray (a : list TimecardEntry)
  | BreakSheetArray (a : list BreakSheetEntry)
  | StringArray (a : list string).

Definition Loc : Type := nat.
Definition Heap : Type := list Cell.

(** A computation on the heap; [None] is a thrown exception (or a loop
    that outruns its fuel). *)
Definition M (A : Type) : Type := Heap -> option (A * Heap).

Definition ret {A} (a : A) : M A := fun h => Some (a, h).

Definition bind {A B} (m : M A) (f : A -> M B) : M B :=
  fun h => match m h with
           | Some (a, h') => f a h'
           | None => None
           end.

Definition fail {A} : M A := fun _ => None.

Notation "x <- m ;; k" := (bind m (fun x => k))
  (at level 61, m at next level, right associativity).

Definition update (l : Loc) (c : Cell) (h : Heap) : Heap :=
  firstn l h ++ c :: skipn (S l) h.

(** A new array. *)
Definition alloc (c : Cell) : M Loc :=
  fun h => Some (List.length h, h ++ [c]).

Definition load (l : Loc) : M Cell :=
  fun h => match nth_error h l with
           | Some c => Some (c, h)
           | None => None
           end.

Definition store (l : Loc) (c : Cell) : M unit :=
  fun h => match nth_error h l with
           | Some _ => Some (tt, update l c h)
           | None => None
           end.

Definition timecards (l : Loc) : M (list TimecardEntry) :=
  c <- load l ;;
  match c with TimecardArray a => ret a | _ => fail end.

Definition breaks (l : Loc) : M (list BreakSheetEntry) :=
  c <- load l ;;
  match c with BreakSheetArray a => ret a | _ => fail end.

Definition strings (l : Loc) : M (list string) :=
  c <- load l ;;
  match c with StringArray a => ret a | _ => fail end.

(** [arr.push(e)]: a write to the array itself. *)
Definition push (l : Loc) (e : TimecardEntry) : M unit :=
  a <- timecards l ;;
  store l (TimecardArray (a ++ [e])).

(** [arr.filter(p)]: a new array. *)
Definition filterNew (l : Loc) (p : TimecardEntry -> bool) : M Loc :=
  a <- timecards l ;;
  alloc (TimecardArray (filter p a)).

(** [arr.sort(cmp)]: sorts the array in place. *)
Definition sortInPlace (l : Loc) (le : TimecardEntry -> TimecardEntry -> bool)
  : M unit :=
  a <- timecards l ;;
  store l (TimecardArray (sortBy le a)).

(** [for (const x of arr) body]: the array is read again at every step,
    so a body that wrote to [arr] would be seen by the loop. *)
Fixpoint forOf {A S : Type} (rd : Loc -> M (list A)) (fuel : nat)
    (l : Loc) (i : nat) (body : S -> A -> M S) (acc : S) : M S :=
  match fuel with
  | O => fail
  | Datatypes.S fuel' =>
      a <- rd l ;;
      match nth_error a i with
      | None => ret acc
      | Some x =>
          acc' <- body acc x ;;
          forOf rd fuel' l (Datatypes.S i) body acc'
      end
  end.

(** Iteration over the entries of a [Map]. *)
Fixpoint forEntries {A S : Type} (body : S -> A -> M S) (l : list A)
    (acc : S) : M S :=
  match l with
  | [] => ret acc
  | x :: l' => acc' <- body acc x ;; forEntries body l' acc'
  end.

(** [Map<string, TimecardEntry[]>]: the values are references. *)
Definition LocMap : Type := list (string * Loc).

Fixpoint locGet (m : LocMap) (k : string) : option Loc :=
  match m with
  | [] => None
  | (k', l) :: m' => if String.eqb k' k then Some l else locGet m' k
  end.

Fixpoint locSet (m : LocMap) (k : string) (l : Loc) : LocMap :=
  match m with
  | [] => [(k, l)]
  | (k', l') :: m' =>
      if String.eqb k' k then (k', l) :: m' else (k', l') :: locSet m' k l
  end.

Definition groupStepM (employeeMap : LocMap) (entry : TimecardEntry)
  : M LocMap :=
  existing <- match locGet employeeMap (fileNumber entry) with
              | Some l => ret l
              | None => alloc (TimecardArray [])
              end ;;
  _ <- push existing entry ;;
  ret (locSet employeeMap (fileNumber entry) existing).

Definition gapsStepM (gaps : list TimecardGap) (kv : string * Loc)
  : M (list TimecardGap) :=
  let '(fileNumber, employeeEntries) := kv in
  filtered <- filterNew employeeEntries hasTimeIn ;;
  _ <- sortInPlace filtered timeInLe ;;
  sorted <- timecards filtered ;;
  ret (gaps ++ gapsOfSorted fileNumber sorted).

Definition detectTimecardGapsM (fuel : nat) (entries : Loc)
    (targetDate : string) : M (list TimecardGap) :=
  dateEntries <- filterNew entries (fun e => String.eqb (payDate e) targetDate) ;;
  employeeMap <- forOf timecards fuel dateEntries 0%nat groupStepM [] ;;
  forEntries gapsStepM employeeMap [].

Section Report.
Variable token_sort_ratio : string -> string -> Z.

Definition matchEmployeeByNameM (fuel : nat) (timecardName : string)
    (breakSheetNames : Loc) (threshold : Z) : M NameMatchResult :=
  let normalized := normalizeEmployeeName timecardName in
  best <- forOf strings fuel breakSheetNames 0%nat
            (fun best name => ret (matchStep token_sort_ratio normalized best name))
            (None, 0) ;;
  ret (if threshold <=? snd best then mkNameMatch (fst best) (snd best)
       else mkNameMatch None (snd best)).

Definition findBreakEntryM (breakSheetEntries : Loc) (matched : option string)
  : M (option BreakSheetEntry) :=
  match matched with
  | Some name =>
      if truthy name then
        a <- breaks breakSheetEntries ;;
        ret (find (fun e => String.eqb (driverName e) name) a)
      else ret None
  | None => ret None
  end.

Definition employeeResultM (fuel : nat) (gaps : list TimecardGap)
    (breakSheetEntries breakSheetNames : Loc) (toleranceMinutes : Z)
    (results : list EmployeeComparisonResult) (kv : string * Loc)
  : M (list EmployeeComparisonResult) :=
  let '(fileNumber, entriesLoc) := kv in
  entries <- timecards entriesLoc ;;
  match entries with
  | [] => fail
  | first :: _ =>
      let employeeName := payrollName first in
      let totalShiftHours := sumHours entries in
      let employeeGap := findGap gaps fileNumber in
      nameMatch <- matchEmployeeByNameM fuel employeeName breakSheetNames
                     defaultThreshold ;;
      breakEntry <- findBreakEntryM breakSheetEntries (nm_match nameMatch) ;;
      let comparison :=
        compareBreakRecords employeeGap breakEntry toleranceMinutes in
      ret (results ++ [makeResult employeeName fileNumber totalShiftHours
                         employeeGap nameMatch breakEntry comparison])
  end.

Definition generateDiscrepancyReportM (fuel : nat) (now : Date)
    (timecardEntries breakSheetEntries : Loc) (targetDate : string)
    (toleranceMinutes : Z) : M DiscrepancyReport :=
  gaps <- detectTimecardGapsM fuel timecardEntries targetDate ;;
  dateEntries <- filterNew timecardEntries
                   (fun e => String.eqb (payDate e) targetDate) ;;
  employeeMap <- forOf timecards fuel dateEntries 0%nat groupStepM [] ;;
  sheet <- breaks breakSheetEntries ;;
  breakSheetNames <- alloc (StringArray (map driverName sheet)) ;;
  results <- forEntries
               (employeeResultM fuel gaps breakSheetEntries breakSheetNames
                  toleranceMinutes)
               employeeMap [] ;;
  ret {| targetDate := targetDate;
         generatedAt := now;
         summary := summarize results;
         results := results |}.
End Report.

End Store.

(* ================================================================== *)
(** ** lib/name-matcher.ts: batch matching *)
(* ================================================================== *)

Module Batch.
Import Js NameMatcher.

(** [Map<string, NameMatchResult>], in insertion order of its keys. *)
Definition MatchMap : Type := list (string * NameMatchResult).

Fixpoint matchGet (m : MatchMap) (k : string) : option NameMatchResult :=
  match m with
  | [] => None
  | (k', v) :: m' => if String.eqb k' k then Some v else matchGet m' k
  end.

Fixpoint matchSet (m : MatchMap) (k : string) (v : NameMatchResult)
  : MatchMap :=
  match m with
  | [] => [(k, v)]
  | (k', v') :: m' =>
      if String.eqb k' k then (k', v) :: m' else (k', v') :: matchSet m' k v
  end.

Section BatchMatcher.
Variable token_sort_ratio : string -> string -> Z.

Definition batchMatchEmployees (timecardNames breakSheetNames : list string)
    (threshold : Z) : MatchMap :=
  fold_left
    (fun matchMap timecardName =>
       let result :=
         matchEmployeeByName token_sort_ratio timecardName breakSheetNames
           threshold in
       matchSet matchMap timecardName result)
    timecardNames [].
End BatchMatcher.

End Batch.

(* ================================================================== *)
(** ** lib/csv-utils.ts: the break sheet *)
(* ================================================================== *)

(** The three regular expressions of the break-sheet parsers, written as
    the matchers they denote.  [text.match(re)] without the [g] flag tries
    the start positions from left to right and returns the first match. *)
Module Regex.
Import Js.

(** [\d] *)
Definition isDigit (c : ascii) : bool :=
  let n := code c in ((48 <=? n) && (n <=? 57))%N.

(** A letter of the pattern under the [i] flag: the lower-case letter [p]
    matches itself and its capital. *)
Definition matchesLetter (p c : ascii) : bool :=
  ((code c =? code p) || (code c + 32 =? code p))%N.

(** The greedy [\d*]: the digits in front and what follows them. *)
Fixpoint takeDigits (s : string) : string * string :=
  match s with
  | EmptyString => (EmptyString, EmptyString)
  | String c s' =>
      if isDigit c then
        let '(digits, rest) := takeDigits s' in (String c digits, rest)
      else (EmptyString, s)
  end.

(** The greedy [\s*]: what follows the white space in front. *)
Fixpoint skipSpaces (s : string) : string :=
  match s with
  | EmptyString => EmptyString
  | String c s' => if isSpace c then skipSpaces s' else s
  end.

(** A literal word of the pattern under the [i] flag, at the start. *)
Fixpoint startsWithLetters (pattern s : string) : bool :=
  match pattern, s with
  | EmptyString, _ => true
  | String p pattern', String c s' =>
      matchesLetter p c && startsWithLetters pattern' s'
  | String _ _, EmptyString => false
  end.

(** The integer that a string of digits writes in decimal. *)
Fixpoint digitsValue (acc : Z) (digits : string) : Z :=
  match digits with
  | EmptyString => acc
  | String c digits' => digitsValue (acc * 10 + Z.of_N (code c - 48)) digits'
  end.

(** [parseInt(digits, 10)] on a string of digits: the number for the
    integer that the digits write. *)
Definition parseInt10 (digits : string) : Z := toNumber (digitsValue 0 digits).

(** [text.startsWith(pattern)] *)
Fixpoint startsWith (pattern s : string) : bool :=
  match pattern, s with
  | EmptyString, _ => true
  | String p pattern', String c s' => Ascii.eqb p c && startsWith pattern' s'
  | String _ _, EmptyString => false
  end.

(** [text.includes(pattern)] *)
Fixpoint includes (pattern text : string) : bool :=
  startsWith pattern text
  || match text with
     | EmptyString => false
     | String _ text' => includes pattern text'
     end.

Definition orElse {A : Type} (first second : option A) : option A :=
  match first with
  | Some x => Some x
  | None => second
  end.

(** *** [/(\d+)\s*(minutes?|mins?)/i]

    A shorter run of digits or of white space is never followed by what
    the pattern asks for next, so the greedy runs are the only ones to
    try.  The result is group 1. *)

(** [(minutes?|mins?)]: the optional [s] matches the empty string. *)
Definition unitAt (s : string) : bool :=
  startsWithLetters "minute" s || startsWithLetters "min" s.

Definition durationAt (s : string) : option string :=
  let '(digits, rest) := takeDigits s in
  if isEmpty digits then None
  else if unitAt (skipSpaces rest) then Some digits
  else None.

Fixpoint durationSearch (text : string) : option string :=
  orElse (durationAt text)
    match text with
    | EmptyString => None
    | String _ text' => durationSearch text'
    end.

(** *** [/(\d{1,2}:\d{2}[ap]m)\s*-\s*(\d{1,2}:\d{2}[ap]m)/i]

    [\d{1,2}] tries two digits first and one digit when the rest of the
    pattern fails after two.  The result is groups 1 and 2. *)

(** [[ap]m] *)
Definition meridiemAt (s : string) : option (string * string) :=
  match s with
  | String a (String m rest) =>
      if (matchesLetter "a" a || matchesLetter "p" a) && matchesLetter "m" m
      then Some (String a (String m EmptyString), rest)
      else None
  | _ => None
  end.

(** [:\d{2}[ap]m] *)
Definition clockTailAt (s : string) : option (string * string) :=
  match s with
  | String colon (String d1 (String d2 rest)) =>
      if (code colon =? 58)%N && isDigit d1 && isDigit d2 then
        match meridiemAt rest with
        | Some (meridiem, rest') =>
            Some (String colon (String d1 (String d2 meridiem)), rest')
        | None => None
        end
      else None
  | _ => None
  end.

(** [\d\d:\d{2}[ap]m] *)
Definition clockAt2 (s : string) : option (string * string) :=
  match s with
  | String h1 (String h2 rest) =>
      if isDigit h1 && isDigit h2 then
        match clockTailAt rest with
        | Some (tail, rest') => Some (String h1 (String h2 tail), rest')
        | None => None
        end
      else None
  | _ => None
  end.

(** [\d:\d{2}[ap]m] *)
Definition clockAt1 (s : string) : option (string * string) :=
  match s with
  | String h1 rest =>
      if isDigit h1 then
        match clockTailAt rest with
        | Some (tail, rest') => Some (String h1 tail, rest')
        | None => None
        end
      else None
  | _ => None
  end.

(** [(\d{1,2}:\d{2}[ap]m)] followed by the rest of the pattern [k]. *)
Definition clockThen {A : Type} (s : string)
    (k : string -> string -> option A) : option A :=
  orElse
    match clockAt2 s with
    | Some (clock, rest) => k clock rest
    | None => None
    end
    match clockAt1 s with
    | Some (clock, rest) => k clock rest
    | None => None
    end.

(** [\s*-\s*] *)
Definition dashAt (s : string) : option string :=
  match skipSpaces s with
  | String c rest => if (code c =? 45)%N then Some (skipSpaces rest) else None
  | EmptyString => None
  end.

Definition rangeAt (s : string) : option (string * string) :=
  clockThen s
    (fun first rest =>
       match dashAt rest with
       | Some rest' => clockThen rest' (fun second _ => Some (first, second))
       | None => None
       end).

Fixpoint rangeSearch (text : string) : option (string * string) :=
  orElse (rangeAt text)
    match text with
    | EmptyString => None
    | String _ text' => rangeSearch text'
    end.

(** *** [/\((\d+)m\)/] *)

Definition annotationAt (s : string) : option string :=
  match s with
  | String open rest =>
      if (code open =? 40)%N then
        let '(digits, rest') := takeDigits rest in
        if isEmpty digits then None
        else
          match rest' with
          | String m (String close _) =>
              if (code m =? 109)%N && (code close =? 41)%N then Some digits
              else None
          | _ => None
          end
      else None
  | EmptyString => None
  end.

Fixpoint annotationSearch (text : string) : option string :=
  orElse (annotationAt text)
    match text with
    | EmptyString => None
    | String _ text' => annotationSearch text'
    end.

End Regex.

Module BreakSheet.
Import Js CsvUtils Regex.

(** [parseBreakDuration] *)
Definition parseBreakDuration (text : string) : option Z :=
  if isEmpty text || isEmpty (trim text) then None
  else if includes "30 and 15" text then Some 45
  else
    match durationSearch text with
    | Some digits => Some (parseInt10 digits)
    | None => None
    end.

Section Ingestion.
Variable parse : string -> string -> Date -> ParseOutcome.

(** [parseTimeRange] *)
Definition parseTimeRange (rangeStr : string) (referenceDate : Date)
  : option TimeRange :=
  if isEmpty rangeStr || isEmpty (trim rangeStr) then None
  else
    let rangeMatch := rangeSearch rangeStr in
    let durationMatch := annotationSearch rangeStr in
    match rangeMatch with
    | None => None
    | Some (first, second) =>
        let start := parseTimeString parse (Some first) referenceDate in
        let end_ := parseTimeString parse (Some second) referenceDate in
        let actualMinutes :=
          match durationMatch with
          | Some digits => Some (parseInt10 digits)
          | None => None
          end in
        Some {| range_start := start;
                range_end := end_;
                actualMinutes := actualMinutes |}
    end.

(** [row[i]?.trim() || ""] *)
Definition trimmedCell (row : list string) (i : nat) : string :=
  match nth_error row i with
  | Some v => trim v
  | None => ""
  end.

(** [row[i] || ""] *)
Definition cellOrEmpty (row : list string) (i : nat) : string :=
  match nth_error row i with
  | Some v => v
  | None => ""
  end.

(** The body of the loop over [dataRows]: [None] is [continue].  [now] is
    the [new Date()] that [parseTimeRange] takes as its default reference
    date. *)
Definition breakSheetRow (now : Date) (row : list string)
  : option BreakSheetEntry :=
  let driverName := trimmedCell row 0 in
  if isEmpty driverName then None
  else
    let breakDuration := parseBreakDuration (cellOrEmpty row 1) in
    let hasRemarks := negb (isEmpty (trimmedCell row 3)) in
    let timeRangeStr := trimmedCell row 5 in
    let breakTimeRange := parseTimeRange timeRangeStr now in
    Some {| driverName := driverName;
            breakDuration := breakDuration;
            breakTimeRange := breakTimeRange;
            hasRemarks := hasRemarks |}.

(** The [complete] callback of [parseBreakSheetCSV]. *)
Definition parseBreakSheetRows (now : Date) (rows : list (list string))
  : list BreakSheetEntry :=
  let dataRows := skipn 2 rows in
  fold_left
    (fun entries row =>
       match breakSheetRow now row with
       | None => entries
       | Some e => entries ++ [e]
       end)
    dataRows [].
End Ingestion.

End BreakSheet.

(* ================================================================== *)
(** ** app/page.tsx and components/csv-compare *)
(* ================================================================== *)

Module Page.
Import Js CsvUtils.

(** [/^[=+\-@|%]/] *)
Definition isFormulaChar (c : ascii) : bool :=
  let n := code c in
  ((n =? 61) || (n =? 43) || (n =? 45) || (n =? 64) || (n =? 124)
   || (n =? 37))%N.

Definition startsFormula (str : string) : bool :=
  match str with
  | String c _ => isFormulaChar c
  | EmptyString => false
  end.

(** [sanitizeCSVField]; a [null] or [undefined] field is [None]. *)
Definition sanitizeCSVField (field : option string) : string :=
  match field with
  | None => ""
  | Some str =>
      if isEmpty str then ""
      else if startsFormula str then String "'" str
      else str
  end.

(** [targetDate.replace(/\//g, "-")], the sheet and file name of an
    export. *)
Fixpoint dashedDate (targetDate : string) : string :=
  match targetDate with
  | EmptyString => EmptyString
  | String c rest =>
      String (if (code c =? 47)%N then "-"%char else c) (dashedDate rest)
  end.

(** Three cells of a row of [exportToExcel], which depend on the break
    duration of the result only: "Break Taken", "Break Duration" and
    "Lunch Break (30min)".  A duration of 0 is falsy. *)
Definition breakTakenCell (breakSheetDuration : option Z) : string :=
  match breakSheetDuration with
  | Some d => if d =? 0 then "No" else "Yes"
  | None => "No"
  end.

Definition breakDurationCell (breakSheetDuration : option Z) : string :=
  match breakSheetDuration with
  | Some d => if d =? 0 then "" else (showZ d ++ " mins")%string
  | None => ""
  end.

Definition lunchBreakCell (breakSheetDuration : option Z) : string :=
  match breakSheetDuration with
  | Some d => if d =? 0 then "No" else if 30 <=? d then "Yes" else "No"
  | None => "No"
  end.

(** The cards of [SummaryStats]: label and value, in display order. *)
Definition summaryCards (summary : Summary) : list (string * nat) :=
  [ ("Total", totalEmployees summary);
    ("Matches", matches summary);
    ("Mismatches", mismatches summary);
    ("Missing Logs", missingBreakLog summary);
    ("Missing Gaps", missingGap summary) ].

(** The string that a status is. *)
Definition statusText (s : DiffStatus) : string :=
  match s with
  | match_ => "match"
  | mismatch => "mismatch"
  | addition => "addition"
  | deletion => "deletion"
  | warning => "warning"
  end.

(** [exportToCSV], of the version of the page that has it: the header
    line and one line per result, every line the cells joined by commas
    and the lines joined by line feeds.  A number is written in decimal,
    and [?? ""] writes the empty text for an absent one. *)
Definition csvHeaders : list string :=
  [ "Employee"; "File Number"; "Gap (min)"; "Logged (min)"; "Status";
    "Message" ].

Definition csvRow (r : EmployeeComparisonResult) : list string :=
  [ res_employeeName r;
    res_fileNumber r;
    match timecardGap r with
    | Some g => showZ (gapMinutes g)
    | None => ""
    end;
    match breakSheetDuration r with
    | Some d => showZ d
    | None => ""
    end;
    statusText (status r);
    message r ].

Definition csvLine (row : list string) : string := String.concat "," row.

Definition exportToCSV (report : DiscrepancyReport) : string :=
  String.concat (String (ascii_of_N 10) EmptyString)
    (map csvLine (csvHeaders :: map csvRow (results report))).

(** The [try] block of [handleCompare], from the rows that Papa Parse
    hands to the two [complete] callbacks; [None] is the [catch] branch.
    [now1], [now2] and [now3] are the [new Date()] of the three calls. *)
Section Compare.
Variable parse : string -> string -> Date -> ParseOutcome.
Variable parseFloat : option string -> float.
Variable token_sort_ratio : string -> string -> Z.

Definition handleCompare (now1 now2 now3 : Date) (timecardRows : list Row)
    (breakSheetRows : list (list string)) : option DiscrepancyReport :=
  match parseTimecardRows parse parseFloat now1 timecardRows with
  | None => None
  | Some timecardEntries =>
      let breakSheetEntries :=
        BreakSheet.parseBreakSheetRows parse now2 breakSheetRows in
      generateDiscrepancyReport token_sort_ratio now3 timecardEntries
        breakSheetEntries "12/24/2025" defaultTolerance
  end.
End Compare.

End Page.

(* ================================================================== *)
(** ** A concrete scorer *)
(* ================================================================== *)

(** The similarity ratio used to run the matcher on concrete names:
    [100 * (|s| + |t| - d) / (|s| + |t|)] rounded to the nearest integer,
    where [d] is the edit distance in which an insertion or a deletion
    costs 1 and a substitution 2, that is [|s| + |t| - 2 * lcs s t]; the
    ratio is 0 when either string is empty.  Two names without a common
    character score 0. *)
Module Scorer.

Fixpoint lcsRow (c : ascii) (t : string) (prev : list nat)
    (diag left : nat) : list nat :=
  match t, prev with
  | String d t', up :: prev' =>
      let cell := if Ascii.eqb c d then S diag else Nat.max up left in
      cell :: lcsRow c t' prev' up cell
  | _, _ => []
  end.

Fixpoint lcsRows (s t : string) (prev : list nat) : list nat :=
  match s with
  | EmptyString => prev
  | String c s' => lcsRows s' t (lcsRow c t prev 0%nat 0%nat)
  end.

Definition lcs (s t : string) : nat :=
  last (lcsRows s t (repeat 0%nat (String.length t))) 0%nat.

Definition ratio (s t : string) : Z :=
  let total := Z.of_nat (String.length s + String.length t) in
  if (total =? 0) || Js.isEmpty s || Js.isEmpty t then 0
  else (400 * Z.of_nat (lcs s t) + total) / (2 * total).

End Scorer.

(* ================================================================== *)
(** ** Sample data *)
(* ================================================================== *)

(** One workday: an employee with a 28-minute gap and a break declared as
    15 minutes, one with a 10-minute gap and a break logged with its
    range, and one with a single punch pair and no break-sheet row. *)
Module Examples.
Import CsvUtils.

Definition at_ (hour minute : Z) : Date := (hour * 60 + minute) * 60000.

Definition timecard : list TimecardEntry :=
  [ mkTimecardEntry "Acosta, Geovanny" "17" "12/24/2025"
      (Some (at_ 9 0)) (Some (at_ 12 45)) 3.75%float;
    mkTimecardEntry "Doe, Jane" "18" "12/24/2025"
      (Some (at_ 12 10)) (Some (at_ 17 0)) 4.75%float;
    mkTimecardEntry "Acosta, Geovanny" "17" "12/24/2025"
      (Some (at_ 13 13)) (Some (at_ 17 0)) 3.75%float;
    mkTimecardEntry "Doe, Jane" "18" "12/24/2025"
      (Some (at_ 9 0)) (Some (at_ 12 0)) 3%float;
    mkTimecardEntry "Zed, Quinn" "19" "12/24/2025"
      (Some (at_ 9 0)) (Some (at_ 17 0)) 8%float;
    mkTimecardEntry "Acosta, Geovanny" "17" "12/23/2025"
      (Some (at_ 9 0)) (Some (at_ 17 0)) 8%float ].

Definition sheet : list BreakSheetEntry :=
  [ mkBreakSheetEntry "Geovanny,Acosta" (Some 15) None false;
    mkBreakSheetEntry "Jane Doe" (Some 30)
      (Some (mkTimeRange (Some (at_ 12 0)) (Some (at_ 12 10)) (Some 10))) true ].

End Examples.

(* ================================================================== *)
(** ** Invariants used in the proofs *)
(* ================================================================== *)

Module Invariants.
Import Js NameMatcher CsvUtils Store.

(** Every group of the employee map has at least one entry. *)
Definition nonEmptyGroups (m : EmployeeMap) : Prop :=
  Forall (fun kv => snd kv <> []) m.

(** A result row is classified by [compareBreakRecords] on the gap and the
    break entry that the row records. *)
Definition classifiedBy (sheet : list BreakSheetEntry) (tolerance : Z)
    (r : EmployeeComparisonResult) : Prop :=
  let c := compareBreakRecords (timecardGap r)
             (findBreakEntry sheet (matchedBreakSheetName r)) tolerance in
  status r = cmp_status c
  /\ discrepancyMinutes r = cmp_discrepancyMinutes c
  /\ message r = cmp_message c.

(** Every group of the employee map holds entries of the input that carry
    the group's file number. *)
Definition groupsOf (l : list TimecardEntry) (m : EmployeeMap) : Prop :=
  Forall (fun kv => Forall (fun e => In e l /\ fileNumber e = fst kv) (snd kv)) m.

(** The formats that [parseTimeString] tries, in order. *)
Definition timeFormats : list string := ["hh:mm a"; "h:mma"; "h:mmaa"].

(** A text that none of the three formats parses. *)
Definition unparseable (parse : string -> string -> Date -> ParseOutcome)
    (now : Date) (s : string) : Prop :=
  forall fmt t, In fmt timeFormats -> parse s fmt now <> Parsed t.

(** The employee map of references stands for the employee map of arrays:
    same keys in the same order, and each reference leads to the array. *)
Definition pointsTo (h : Heap) (kl : string * Loc)
    (kv : string * list TimecardEntry) : Prop :=
  fst kl = fst kv /\ nth_error h (snd kl) = Some (TimecardArray (snd kv)).

Definition represents (h : Heap) (m : LocMap) (pm : EmployeeMap) : Prop :=
  Forall2 (pointsTo h) m pm.

(** The state of the grouping loop: the heap extends the base heap [hb],
    and the map refers to distinct arrays allocated after [hb]. *)
Definition groupInv (hb : Heap) (pm : EmployeeMap) (m : LocMap) (h : Heap)
  : Prop :=
  (exists ext, h = hb ++ ext)
  /\ represents h m pm
  /\ NoDup (map snd m)
  /\ Forall (fun kl => (List.length hb <= snd kl)%nat) m.

(** The entries that one row contributes. *)
Definition keptOf (o : RowOutcome) : list TimecardEntry :=
  match o with
  | Kept e => [e]
  | _ => []
  end.

(** Two entries with a clock-in, the first not after the second. *)
Definition clockInOrder (a b : TimecardEntry) : Prop :=
  exists x y, timeIn a = Some x /\ timeIn b = Some y /\ x <= y.

End Invariants.

(* ================================================================== *)
(** ** Statements taken from the specification *)
(* ================================================================== *)

Module Spec.
Import Js NameMatcher CsvUtils.

(** The tokens of a name as [normalizeEmployeeName] sees them, before they
    are cleaned and sorted. *)
Definition nameTokens (name : string) : list string :=
  rawTokens (filterChars (fun c => negb (isQuote c)) (trim name)).

(** The pieces of a string between single separator characters. *)
Fixpoint splitBy (sep : ascii -> bool) (s : string) : list string :=
  match s with
  | EmptyString => [EmptyString]
  | String c s' =>
      if sep c then EmptyString :: splitBy sep s'
      else match splitBy sep s' with
           | p :: ps => String c p :: ps
           | [] => [String c EmptyString]
           end
  end.

(** The specification's reading of the tokens: commas and white space
    separate alike, and only the non-empty pieces count. *)
Definition isSeparator (c : ascii) : bool := isComma c || isSpace c.

Definition nonEmpty (t : string) : bool := negb (isEmpty t).

Definition words (s : string) : list string :=
  filter nonEmpty (splitBy isSeparator s).

Fixpoint allChars (p : ascii -> bool) (s : string) : bool :=
  match s with
  | EmptyString => true
  | String c s' => p c && allChars p s'
  end.

(** A character of a cleaned token: a lower-case letter, a digit or the
    underscore. *)
Definition isCleanChar (c : ascii) : bool :=
  let n := code c in
  ((97 <=? n) && (n <=? 122) || (48 <=? n) && (n <=? 57) || (n =? 95))%N.

(** A token that cleaning leaves as it is and that is not empty. *)
Definition cleanWord (t : string) : bool :=
  nonEmpty t && allChars isCleanChar t.

(** A character of a normal form: a character of a cleaned token or the
    space that joins the tokens. *)
Definition isNormalChar (c : ascii) : bool :=
  isCleanChar c || (code c =? 32)%N.

(** Some suffix of the text satisfies [p]: the text mentions what [p]
    recognises. *)
Fixpoint anySuffix (p : string -> bool) (text : string) : bool :=
  p text
  || match text with
     | EmptyString => false
     | String _ text' => anySuffix p text'
     end.

(** A clock time as the break sheet writes it: one or two digits, a
    colon, two digits and am or pm in either case, and nothing else. *)
Definition clockText (clock : string) : Prop :=
  Regex.clockAt2 clock = Some (clock, EmptyString)
  \/ Regex.clockAt1 clock = Some (clock, EmptyString).

(** A character that is neither white space, nor a hyphen, nor an opening
    parenthesis: the characters of a clock time. *)
Definition isClockChar (c : ascii) : bool :=
  negb (isSpace c) && negb (code c =? 45)%N && negb (code c =? 40)%N.

(** The specification's blank field: a cell that is missing, empty, or
    made of white space only. *)
Definition isBlank (cell : option string) : bool :=
  match cell with
  | None => true
  | Some v => isEmpty (trim v)
  end.

(** The specification's rule for a skipped timecard row: the payroll
    name, the file number or the pay date is blank, or both the time-in
    and the time-out are blank. *)
Definition rowIsSkipped (row : Row) : bool :=
  isBlank (field row "Payroll Name") || isBlank (field row "File Number")
  || isBlank (field row "Pay Date")
  || (isBlank (field row "Time In") && isBlank (field row "Time Out")).

(** The specification's contract of the matcher at one pool entry [x]:
    when [x] is the first entry of the pool that reaches the maximal
    score, the result is [x] with its score if the score reaches the
    threshold, and no match with that score otherwise. *)
Definition matcherContract (score : string -> string -> Z)
    (candidate : string) (pool : list string) (threshold : Z) : Prop :=
  let sc := fun x =>
    score (normalizeEmployeeName candidate) (normalizeEmployeeName x) in
  forall pre x post,
    pool = pre ++ x :: post ->
    Forall (fun y => sc y < sc x) pre ->
    Forall (fun y => sc y <= sc x) post ->
    matchEmployeeByName score candidate pool threshold
    = if threshold <=? sc x then mkNameMatch (Some x) (sc x)
      else mkNameMatch None (sc x).

(** The number of characters of a text that satisfy [p]. *)
Fixpoint countChar (p : ascii -> bool) (s : string) : nat :=
  match s with
  | EmptyString => 0
  | String c s' => (if p c then 1 else 0) + countChar p s'
  end.

End Spec.

(* ================================================================== *)
(** ** Properties *)
(* ================================================================== *)

Import Js NameMatcher CsvUtils Invariants.

(** *** Classification ([compareBreakRecords]) *)

Lemma loggedMinutesOf_range (b : BreakSheetEntry) (r : TimeRange) (m : Z) :
  breakTimeRange b = Some r -> actualMinutes r = Some m ->
  loggedMinutesOf b = Some m.
Proof.
  intros Hr Hm. unfold loggedMinutesOf. rewrite Hr, Hm. reflexivity.
Qed.

Lemma loggedMinutesOf_fallback (b : BreakSheetEntry) :
  (breakTimeRange b = None
   \/ exists r, breakTimeRange b = Some r /\ actualMinutes r = None) ->
  loggedMinutesOf b = breakDuration b.
Proof.
  unfold loggedMinutesOf.
  intros [H | [r [Hr Hm]]].
  - rewrite H. reflexivity.
  - rewrite Hr, Hm. reflexivity.
Qed.



(** The second scenario of the specification: a gap of 28 minutes against
    a declared 15 minutes. *)
Example compareBreakRecords_28_against_15 :
  let g := mkTimecardGap "Acosta, Geovanny" "17" 45900000 47580000 28 in
  let b := mkBreakSheetEntry "Geovanny,Acosta" (Some 15) None false in
  compareBreakRecords (Some g) (Some b) 5
  = mkComparison mismatch (Some 13)
      "Duration mismatch (Gap: 28min, Logged: 15min, Difference: 13min)".
Proof. reflexivity. Qed.

(** With no gap and a break entry whose logged minutes are known and not
    zero, the result is [warning] with the negated logged minutes. *)
Lemma compareBreakRecords_break_only_nonzero
    (b : BreakSheetEntry) (tolerance logged : Z) :
  loggedMinutesOf b = Some logged -> logged <> 0 ->
  let r := compareBreakRecords None (Some b) tolerance in
  cmp_status r = warning /\ cmp_discrepancyMinutes r = Some (- logged).
Proof.
  intros Hl Hnz r. subst r. unfold compareBreakRecords. rewrite Hl. simpl.
  destruct (Z.eqb_spec logged 0); [contradiction | split; reflexivity].
Qed.

(** C3: with no gap and a break entry that logs 0 minutes (the logged
    minutes are known), the status is [warning] but the discrepancy is
    absent rather than the negation of the logged minutes. *)
Theorem compareBreakRecords_break_only_zero_logged :
  let b := mkBreakSheetEntry "Jane Doe" (Some 0) None false in
  let r := compareBreakRecords None (Some b) 5 in
  loggedMinutesOf b = Some 0
  /\ cmp_status r = warning
  /\ cmp_discrepancyMinutes r = None
  /\ cmp_discrepancyMinutes r <> Some (- 0).
Proof.
  repeat split; simpl; discriminate.
Qed.

(** C4: with a gap and no break entry the status is [deletion] and the
    discrepancy is the gap's minute count. *)
Theorem compareBreakRecords_gap_only (g : TimecardGap) (tolerance : Z) :
  let r := compareBreakRecords (Some g) None tolerance in
  cmp_status r = deletion /\ cmp_discrepancyMinutes r = Some (gapMinutes g).
Proof.
  split; reflexivity.
Qed.

Lemma compareBreakRecords_never_addition
    (gap : option TimecardGap) (b : option BreakSheetEntry) (tolerance : Z) :
  cmp_status (compareBreakRecords gap b tolerance) <> addition.
Proof.
  unfold compareBreakRecords.
  destruct gap as [g |], b as [e |]; simpl; try discriminate.
  destruct (loggedMinutesOf e) as [m |]; simpl; try discriminate.
  destruct (Z.abs (gapMinutes g - m) <=? tolerance); simpl; discriminate.
Qed.

Lemma compareBreakRecords_neither (tolerance : Z) :
  compareBreakRecords None None tolerance
  = mkComparison match_ None "No break required".
Proof. reflexivity. Qed.

(** *** Grouping by employee *)

Lemma mapSet_nonEmpty (m : EmployeeMap) (k : string) (v : list TimecardEntry) :
  nonEmptyGroups m -> v <> [] -> nonEmptyGroups (mapSet m k v).
Proof.
  unfold nonEmptyGroups. intros Hm Hv.
  induction m as [| [k' v'] m IH]; simpl.
  - constructor; [exact Hv | constructor].
  - inversion Hm as [| ? ? Hhd Htl]; subst.
    destruct (String.eqb k' k); constructor; auto.
Qed.

Lemma groupStep_nonEmpty (m : EmployeeMap) (e : TimecardEntry) :
  nonEmptyGroups m -> nonEmptyGroups (groupStep m e).
Proof.
  intros Hm. unfold groupStep. apply mapSet_nonEmpty; [exact Hm |].
  intros H. apply app_eq_nil in H. destruct H as [_ H]. discriminate.
Qed.

Lemma fold_groupStep_nonEmpty (l : list TimecardEntry) (m : EmployeeMap) :
  nonEmptyGroups m -> nonEmptyGroups (fold_left groupStep l m).
Proof.
  revert m. induction l as [| e l IH]; intros m Hm; simpl.
  - exact Hm.
  - apply IH, groupStep_nonEmpty, Hm.
Qed.

Lemma groupByFileNumber_nonEmpty (l : list TimecardEntry) :
  nonEmptyGroups (groupByFileNumber l).
Proof.
  apply fold_groupStep_nonEmpty. constructor.
Qed.

(** *** The report ([generateDiscrepancyReport]) *)

Section ReportFacts.
Variable score : string -> string -> Z.

Lemma employeeResult_classified gaps sheet names tolerance fileNumber entries r :
  employeeResult score gaps sheet names tolerance fileNumber entries = Some r ->
  classifiedBy sheet tolerance r /\ res_fileNumber r = fileNumber.
Proof.
  unfold employeeResult. destruct entries as [| first rest]; [discriminate |].
  intros H. injection H as <-. unfold classifiedBy. simpl. auto.
Qed.

Lemma employeeResult_total gaps sheet names tolerance fileNumber entries :
  entries <> [] ->
  exists r,
    employeeResult score gaps sheet names tolerance fileNumber entries = Some r.
Proof.
  destruct entries as [| first rest]; [contradiction |].
  intros _. eexists. reflexivity.
Qed.

Lemma buildResults_from gaps sheet names tolerance (m : EmployeeMap) :
  nonEmptyGroups m ->
  forall acc,
  exists rs,
    fold_left
      (fun acc '(fileNumber, entries) =>
         match acc with
         | None => None
         | Some results =>
             match employeeResult score gaps sheet names tolerance
                     fileNumber entries with
             | None => None
             | Some r => Some (results ++ [r])
             end
         end) m (Some acc) = Some (acc ++ rs)
    /\ Forall2
         (fun kv r =>
            employeeResult score gaps sheet names tolerance (fst kv) (snd kv)
            = Some r) m rs.
Proof.
  induction m as [| [k v] m IH]; intros Hm acc.
  - exists []. rewrite app_nil_r. split; [reflexivity | constructor].
  - inversion Hm as [| ? ? Hv Hm']; subst. simpl in Hv.
    destruct (employeeResult_total gaps sheet names tolerance k v Hv) as [r Hr].
    destruct (IH Hm' (acc ++ [r])) as [rs [Hfold Hall]].
    exists (r :: rs). split.
    + simpl. rewrite Hr. rewrite Hfold. rewrite <- app_assoc. reflexivity.
    + constructor; [exact Hr | exact Hall].
Qed.

Lemma buildResults_total gaps sheet names tolerance (m : EmployeeMap) :
  nonEmptyGroups m ->
  exists rs,
    buildResults score gaps sheet names tolerance m = Some rs
    /\ Forall2
         (fun kv r =>
            employeeResult score gaps sheet names tolerance (fst kv) (snd kv)
            = Some r) m rs.
Proof.
  intros Hm.
  destruct (buildResults_from gaps sheet names tolerance m Hm []) as [rs [H1 H2]].
  exists rs. split; [exact H1 | exact H2].
Qed.

Lemma Forall2_In_right {A B} (R : A -> B -> Prop) (l : list A) (l' : list B) (b : B) :
  Forall2 R l l' -> In b l' -> exists a, In a l /\ R a b.
Proof.
  induction 1 as [| x y l l' Hxy Hrest IH]; intros Hin; [destruct Hin |].
  destruct Hin as [<- | Hin].
  - exists x. split; [left; reflexivity | exact Hxy].
  - destruct (IH Hin) as [a [Ha HR]]. exists a. split; [right; exact Ha | exact HR].
Qed.

Lemma Forall2_impl_In_left {A B} (R R' : A -> B -> Prop) (l : list A)
    (l' : list B) :
  (forall a b, In a l -> R a b -> R' a b) -> Forall2 R l l' -> Forall2 R' l l'.
Proof.
  intros Himp H. induction H as [| x y l l' Hxy Hrest IH]; constructor.
  - apply Himp; [left; reflexivity | exact Hxy].
  - apply IH. intros a b Hin. apply Himp. right. exact Hin.
Qed.

(** The driver never throws, whatever the input. *)
Lemma generateDiscrepancyReport_total now timecard sheet date tolerance :
  exists rs,
    generateDiscrepancyReport score now timecard sheet date tolerance
    = Some (mkReport date now (summarize rs) rs)
    /\ Forall (classifiedBy sheet tolerance) rs
    /\ List.length rs = List.length (groupByFileNumber (onDate date timecard)).
Proof.
  unfold generateDiscrepancyReport.
  destruct (buildResults_total (detectTimecardGaps timecard date) sheet
              (map driverName sheet) tolerance
              (groupByFileNumber (onDate date timecard))
              (groupByFileNumber_nonEmpty _)) as [rs [Hrs Hall]].
  exists rs. rewrite Hrs. split; [reflexivity | split].
  - apply Forall_forall. intros r Hin.
    destruct (Forall2_In_right _ _ _ _ Hall Hin) as [[k v] [_ Hr]].
    apply employeeResult_classified in Hr. apply Hr.
  - symmetry. eapply Forall2_length. exact Hall.
Qed.

End ReportFacts.

Lemma countStatus_cons (s : DiffStatus) (r : EmployeeComparisonResult)
    (rs : list EmployeeComparisonResult) :
  countStatus s (r :: rs)
  = ((if DiffStatus_eqb (status r) s then 1 else 0) + countStatus s rs)%nat.
Proof.
  unfold countStatus. simpl. destruct (DiffStatus_eqb (status r) s); reflexivity.
Qed.

Lemma countStatus_partition (rs : list EmployeeComparisonResult) :
  (countStatus match_ rs + countStatus mismatch rs + countStatus deletion rs
   + countStatus warning rs + countStatus addition rs = List.length rs)%nat.
Proof.
  induction rs as [| r rs IH]; [reflexivity |].
  rewrite !countStatus_cons. simpl List.length.
  destruct (status r); simpl; lia.
Qed.

Lemma countStatus_absent (s : DiffStatus) (rs : list EmployeeComparisonResult) :
  Forall (fun r => status r <> s) rs -> countStatus s rs = 0%nat.
Proof.
  induction 1 as [| r rs Hr _ IH]; [reflexivity |].
  rewrite countStatus_cons, IH.
  destruct (status r), s; simpl; try reflexivity; contradiction Hr; reflexivity.
Qed.

(** C1: the driver always produces a report, and in it the five summary
    counts add up to [totalEmployees], which is the length of [results]. *)
Theorem summary_counts_add_up
    (score : string -> string -> Z) (now : Date)
    (timecard : list TimecardEntry) (sheet : list BreakSheetEntry)
    (date : string) (tolerance : Z) :
  exists report,
    generateDiscrepancyReport score now timecard sheet date tolerance
    = Some report
    /\ (matches (summary report) + mismatches (summary report)
        + missingBreakLog (summary report) + missingGap (summary report)
        + noBreakRequired (summary report)
        = totalEmployees (summary report))%nat
    /\ totalEmployees (summary report) = List.length (results report).
Proof.
  destruct (generateDiscrepancyReport_total score now timecard sheet date tolerance)
    as [rs [Hgen _]].
  eexists. split; [exact Hgen |]. simpl. split; [| reflexivity].
  apply countStatus_partition.
Qed.

(** C9: no result row has status [addition], so [noBreakRequired] is 0;
    a row with neither a gap nor a matched break entry has status [match]
    and is one of the rows counted by [matches]. *)
Theorem addition_never_produced
    (score : string -> string -> Z) (now : Date)
    (timecard : list TimecardEntry) (sheet : list BreakSheetEntry)
    (date : string) (tolerance : Z) :
  exists report,
    generateDiscrepancyReport score now timecard sheet date tolerance
    = Some report
    /\ Forall (fun r => status r <> addition) (results report)
    /\ noBreakRequired (summary report) = 0%nat
    /\ Forall (fun r =>
                 timecardGap r = None ->
                 findBreakEntry sheet (matchedBreakSheetName r) = None ->
                 status r = match_ /\ discrepancyMinutes r = None)
              (results report)
    /\ matches (summary report)
       = List.length (filter (fun r => DiffStatus_eqb (status r) match_)
                        (results report)).
Proof.
  destruct (generateDiscrepancyReport_total score now timecard sheet date tolerance)
    as [rs [Hgen [Hcls _]]].
  assert (Hno : Forall (fun r => status r <> addition) rs).
  { eapply Forall_impl; [| exact Hcls].
    intros r [Hs _]. rewrite Hs. apply compareBreakRecords_never_addition. }
  eexists. split; [exact Hgen |]. simpl.
  split; [exact Hno |]. split; [apply countStatus_absent, Hno |].
  split; [| reflexivity].
  eapply Forall_impl; [| exact Hcls].
  intros r [Hs [Hd _]] Hgap Hbreak.
  rewrite Hs, Hd, Hgap, Hbreak. split; reflexivity.
Qed.

(** The report of the specification's scenario, computed. *)
Example report_of_the_scenario :
  option_map summary
    (generateDiscrepancyReport Scorer.ratio 0 Examples.timecard Examples.sheet
       "12/24/2025" 5)
  = Some (mkSummary 3 1 1 0 1 0).
Proof. vm_compute. reflexivity. Qed.

(** *** Gap detection ([detectTimecardGaps]) *)

Lemma fold_left_app_flat_map {A B} (f : A -> list B) (l : list A) (acc : list B) :
  fold_left (fun acc x => acc ++ f x) l acc = acc ++ flat_map f l.
Proof.
  revert acc. induction l as [| x l IH]; intros acc; simpl.
  - rewrite app_nil_r. reflexivity.
  - rewrite IH, app_assoc. reflexivity.
Qed.

Lemma detectTimecardGaps_flat_map (entries : list TimecardEntry) (date : string) :
  detectTimecardGaps entries date
  = flat_map (fun kv => gapsOfSorted (fst kv) (sortedEntries (snd kv)))
      (groupByFileNumber (onDate date entries)).
Proof.
  unfold detectTimecardGaps.
  rewrite <- (app_nil_l (flat_map _ _)).
  rewrite <- fold_left_app_flat_map.
  generalize (@nil TimecardGap).
  induction (groupByFileNumber (onDate date entries)) as [| [fn grp] m IH];
    intros acc; simpl; [reflexivity | apply IH].
Qed.

Lemma gapOfPair_In (fn : string) (cur next : TimecardEntry) (g : TimecardGap) :
  In g (gapOfPair fn cur next) <->
  exists out next_in,
    timeOut cur = Some out /\ timeIn next = Some next_in
    /\ 10 < differenceInMinutes next_in out
    /\ g = mkTimecardGap (payrollName cur) fn out next_in
             (differenceInMinutes next_in out).
Proof.
  unfold gapOfPair.
  destruct (timeOut cur) as [out |], (timeIn next) as [nin |]; simpl;
    try (split; [intros [] | intros [? [? [H1 [H2 _]]]]; discriminate]).
  destruct (Z.ltb_spec 10 (differenceInMinutes nin out)) as [Hlt | Hge]; simpl.
  - split.
    + intros [<- | []]. exists out, nin. auto.
    + intros [o [n [Ho [Hn [_ ->]]]]]. injection Ho as <-. injection Hn as <-.
      left. reflexivity.
  - split; [intros [] |].
    intros [o [n [Ho [Hn [Hlt _]]]]]. injection Ho as <-. injection Hn as <-. lia.
Qed.

Lemma gapsOfSorted_In (fn : string) (sorted : list TimecardEntry) (g : TimecardGap) :
  In g (gapsOfSorted fn sorted) <->
  exists pre cur next post,
    sorted = pre ++ cur :: next :: post /\ In g (gapOfPair fn cur next).
Proof.
  induction sorted as [| cur rest IH].
  - simpl. split; [intros [] |].
    intros [pre [c [n [post [H _]]]]]. destruct pre; discriminate.
  - destruct rest as [| next rest'].
    + simpl. split; [intros [] |].
      intros [pre [c [n [post [H _]]]]].
      destruct pre as [| ? [| ? ?]]; discriminate.
    + change (gapsOfSorted fn (cur :: next :: rest'))
        with (gapOfPair fn cur next ++ gapsOfSorted fn (next :: rest')).
      rewrite in_app_iff, IH. split.
      * intros [H | [pre [c [n [post [Heq Hin]]]]]].
        -- exists [], cur, next, rest'. split; [reflexivity | exact H].
        -- exists (cur :: pre), c, n, post. split; [| exact Hin].
           simpl. rewrite Heq. reflexivity.
      * intros [pre [c [n [post [Heq Hin]]]]].
        destruct pre as [| p pre].
        -- simpl in Heq. injection Heq as <- <- <-. left. exact Hin.
        -- simpl in Heq. injection Heq as <- Heq. right.
           exists pre, c, n, post. split; [exact Heq | exact Hin].
Qed.

Lemma detectTimecardGaps_In (entries : list TimecardEntry) (date : string)
    (g : TimecardGap) :
  In g (detectTimecardGaps entries date) <->
  exists fn grp pre cur next post,
    In (fn, grp) (groupByFileNumber (onDate date entries))
    /\ sortedEntries grp = pre ++ cur :: next :: post
    /\ In g (gapOfPair fn cur next).
Proof.
  rewrite detectTimecardGaps_flat_map, in_flat_map. split.
  - intros [[fn grp] [Hin Hg]]. simpl in Hg.
    apply gapsOfSorted_In in Hg. destruct Hg as [pre [c [n [post [Heq Hp]]]]].
    exists fn, grp, pre, c, n, post. auto.
  - intros [fn [grp [pre [c [n [post [Hin [Heq Hp]]]]]]]].
    exists (fn, grp). split; [exact Hin |]. simpl.
    apply gapsOfSorted_In. exists pre, c, n, post. auto.
Qed.

(** C7: every emitted gap comes from an adjacent pair of an employee's
    sorted entries and is strictly longer than 10 minutes; an adjacent pair
    yields its gap exactly when the difference exceeds 10, so a difference
    of 10 minutes is not emitted and one of 11 minutes is. *)
Theorem gaps_only_over_ten_minutes (entries : list TimecardEntry) (date : string) :
  (forall g, In g (detectTimecardGaps entries date) ->
     10 < gapMinutes g
     /\ exists fn grp pre cur next post,
          In (fn, grp) (groupByFileNumber (onDate date entries))
          /\ sortedEntries grp = pre ++ cur :: next :: post
          /\ timeOut cur = Some (gapStart g)
          /\ timeIn next = Some (gapEnd g)
          /\ gapMinutes g = differenceInMinutes (gapEnd g) (gapStart g))
  /\ (forall fn grp pre cur next post out next_in,
        In (fn, grp) (groupByFileNumber (onDate date entries)) ->
        sortedEntries grp = pre ++ cur :: next :: post ->
        timeOut cur = Some out ->
        timeIn next = Some next_in ->
        let m := differenceInMinutes next_in out in
        let gap := mkTimecardGap (payrollName cur) fn out next_in m in
        (10 < m <-> In gap (detectTimecardGaps entries date))
        /\ (m = 10 -> ~ In gap (detectTimecardGaps entries date))
        /\ (m = 11 -> In gap (detectTimecardGaps entries date))).
Proof.
  assert (Hover : forall g, In g (detectTimecardGaps entries date) ->
            10 < gapMinutes g
            /\ exists fn grp pre cur next post,
                 In (fn, grp) (groupByFileNumber (onDate date entries))
                 /\ sortedEntries grp = pre ++ cur :: next :: post
                 /\ timeOut cur = Some (gapStart g)
                 /\ timeIn next = Some (gapEnd g)
                 /\ gapMinutes g = differenceInMinutes (gapEnd g) (gapStart g)).
  { intros g Hg. apply detectTimecardGaps_In in Hg.
    destruct Hg as [fn [grp [pre [c [n [post [Hin [Heq Hp]]]]]]]].
    apply gapOfPair_In in Hp. destruct Hp as [out [nin [Ho [Hn [Hlt ->]]]]].
    simpl. split; [exact Hlt |].
    exists fn, grp, pre, c, n, post. auto. }
  split; [exact Hover |].
  intros fn grp pre cur next post out nin Hin Heq Ho Hn m gap.
  assert (Hyes : 10 < m -> In gap (detectTimecardGaps entries date)).
  { intros Hlt. apply detectTimecardGaps_In.
    exists fn, grp, pre, cur, next, post. split; [exact Hin |].
    split; [exact Heq |]. apply gapOfPair_In. exists out, nin. auto. }
  assert (Hno : In gap (detectTimecardGaps entries date) -> 10 < m).
  { intros Hg. apply Hover in Hg. destruct Hg as [Hlt _]. exact Hlt. }
  split; [split; assumption |]. split.
  - intros Hm Hg. apply Hno in Hg. lia.
  - intros Hm. apply Hyes. lia.
Qed.

Lemma gaps_only_over_ten_minutes_witness :
  In (mkTimecardGap "Doe, Jane" "18" 43200000 43860000 11)
     (detectTimecardGaps
        [ mkTimecardEntry "Doe, Jane" "18" "12/24/2025"
            (Some 43860000) (Some 61200000) 4.5%float;
          mkTimecardEntry "Doe, Jane" "18" "12/24/2025"
            (Some 32400000) (Some 43200000) 3%float ]
        "12/24/2025").
Proof.
  refine (proj2 (proj2 (proj2 (gaps_only_over_ten_minutes _ _)
                          "18"
                          [ mkTimecardEntry "Doe, Jane" "18" "12/24/2025"
                              (Some 43860000) (Some 61200000) 4.5%float;
                            mkTimecardEntry "Doe, Jane" "18" "12/24/2025"
                              (Some 32400000) (Some 43200000) 3%float ]
                          []
                          (mkTimecardEntry "Doe, Jane" "18" "12/24/2025"
                             (Some 32400000) (Some 43200000) 3%float)
                          (mkTimecardEntry "Doe, Jane" "18" "12/24/2025"
                             (Some 43860000) (Some 61200000) 4.5%float)
                          [] 43200000 43860000 _ _ _ _)) _).
  - left. reflexivity.
  - reflexivity.
  - reflexivity.
  - reflexivity.
  - reflexivity.
Defined.

(** The boundary on concrete punches: out at 12:00, back in at 12:10 or
    at 12:11. *)
Example detectTimecardGaps_ten_minutes :
  detectTimecardGaps
    [ mkTimecardEntry "Doe, Jane" "18" "12/24/2025"
        (Some 32400000) (Some 43200000) 3%float;
      mkTimecardEntry "Doe, Jane" "18" "12/24/2025"
        (Some 43800000) (Some 61200000) 4.5%float ]
    "12/24/2025" = [].
Proof. reflexivity. Qed.

Example detectTimecardGaps_eleven_minutes :
  detectTimecardGaps
    [ mkTimecardEntry "Doe, Jane" "18" "12/24/2025"
        (Some 43860000) (Some 61200000) 4.5%float;
      mkTimecardEntry "Doe, Jane" "18" "12/24/2025"
        (Some 32400000) (Some 43200000) 3%float ]
    "12/24/2025"
  = [ mkTimecardGap "Doe, Jane" "18" 43200000 43860000 11 ].
Proof. reflexivity. Qed.

(** *** Sorting *)

Section SortFacts.
Context {A : Type} (le : A -> A -> bool).

Let R (a b : A) : Prop := le a b = true.

Lemma insert_Permutation (x : A) (l : list A) :
  Permutation (x :: l) (insert le x l).
Proof.
  induction l as [| y l IH]; simpl.
  - apply Permutation_refl.
  - destruct (le x y).
    + apply Permutation_refl.
    + eapply Permutation_trans; [apply perm_swap |].
      apply perm_skip. exact IH.
Qed.

Lemma sortBy_Permutation (l : list A) : Permutation l (sortBy le l).
Proof.
  induction l as [| x l IH]; simpl.
  - apply Permutation_refl.
  - eapply Permutation_trans; [apply perm_skip; exact IH |].
    apply insert_Permutation.
Qed.

Lemma sortBy_In (l : list A) (x : A) : In x (sortBy le l) <-> In x l.
Proof.
  split; apply Permutation_in;
    [apply Permutation_sym |]; apply sortBy_Permutation.
Qed.

Hypothesis le_total : forall a b, le a b = true \/ le b a = true.

Lemma insert_Sorted (x : A) (l : list A) :
  Sorted R l -> Sorted R (insert le x l).
Proof.
  induction l as [| y l IH]; intros Hs; simpl.
  - repeat constructor.
  - destruct (le x y) eqn:Hxy.
    + constructor; [exact Hs |]. constructor. exact Hxy.
    + apply Sorted_inv in Hs. destruct Hs as [Hs Hhd].
      constructor; [apply IH; exact Hs |].
      assert (Hyx : R y x).
      { destruct (le_total x y) as [H | H]; [congruence | exact H]. }
      destruct l as [| z l]; simpl.
      * constructor. exact Hyx.
      * destruct (le x z); constructor; [exact Hyx |].
        apply HdRel_inv in Hhd. exact Hhd.
Qed.

Lemma sortBy_Sorted (l : list A) : Sorted R (sortBy le l).
Proof.
  induction l as [| x l IH]; simpl.
  - constructor.
  - apply insert_Sorted. exact IH.
Qed.

Lemma insert_head (x : A) (l : list A) :
  HdRel R x l -> insert le x l = x :: l.
Proof.
  destruct l as [| y l]; intros H; simpl; [reflexivity |].
  apply HdRel_inv in H. unfold R in H. rewrite H. reflexivity.
Qed.

(** Sorting a sorted list leaves it as it is. *)
Lemma sortBy_sorted_id (l : list A) : Sorted R l -> sortBy le l = l.
Proof.
  induction l as [| x l IH]; intros Hs; simpl; [reflexivity |].
  apply Sorted_inv in Hs. destruct Hs as [Hs Hhd].
  rewrite IH by exact Hs. apply insert_head. exact Hhd.
Qed.

Hypothesis le_trans : forall a b c, le a b = true -> le b c = true -> le a c = true.
Hypothesis le_antisym : forall a b, le a b = true -> le b a = true -> a = b.

Lemma sortBy_StronglySorted (l : list A) : StronglySorted R (sortBy le l).
Proof.
  apply Sorted_StronglySorted; [| apply sortBy_Sorted].
  intros a b c. apply le_trans.
Qed.

(** Two sorted lists with the same elements are the same list. *)
Lemma StronglySorted_unique (l1 l2 : list A) :
  StronglySorted R l1 -> StronglySorted R l2 -> Permutation l1 l2 -> l1 = l2.
Proof.
  revert l2. induction l1 as [| x l1 IH]; intros l2 H1 H2 Hp.
  - apply Permutation_nil in Hp. symmetry. exact Hp.
  - destruct l2 as [| y l2].
    + apply Permutation_sym, Permutation_nil in Hp. discriminate.
    + apply StronglySorted_inv in H1. destruct H1 as [H1 Hx].
      apply StronglySorted_inv in H2. destruct H2 as [H2 Hy].
      assert (Hxy : x = y).
      { assert (Hin1 : In x (y :: l2))
          by (eapply Permutation_in; [exact Hp | left; reflexivity]).
        assert (Hin2 : In y (x :: l1))
          by (eapply Permutation_in;
              [apply Permutation_sym; exact Hp | left; reflexivity]).
        destruct Hin1 as [E | Hin1]; [symmetry; exact E |].
        destruct Hin2 as [E | Hin2]; [exact E |].
        rewrite Forall_forall in Hx, Hy.
        apply le_antisym; [apply Hx, Hin2 | apply Hy, Hin1]. }
      subst y. f_equal. apply IH; [exact H1 | exact H2 |].
      eapply Permutation_cons_inv. exact Hp.
Qed.

(** The sorted list depends on the elements only, not on their order. *)
Lemma sortBy_Permutation_eq (l1 l2 : list A) :
  Permutation l1 l2 -> sortBy le l1 = sortBy le l2.
Proof.
  intros Hp. apply StronglySorted_unique; try apply sortBy_StronglySorted.
  eapply Permutation_trans; [apply Permutation_sym, sortBy_Permutation |].
  eapply Permutation_trans; [exact Hp | apply sortBy_Permutation].
Qed.

End SortFacts.

Lemma timeInLe_total (a b : TimecardEntry) :
  timeInLe a b = true \/ timeInLe b a = true.
Proof.
  unfold timeInLe. destruct (timeIn a) as [x |], (timeIn b) as [y |]; auto.
  destruct (Z.leb_spec x y); [left; reflexivity | right; apply Z.leb_le; lia].
Qed.

(** The entries compared for gaps are those of the group that have a
    clock-in, in ascending order of clock-in. *)
Lemma sortedEntries_ascending (grp : list TimecardEntry) :
  Sorted (fun a b => timeInLe a b = true) (sortedEntries grp)
  /\ Permutation (filter hasTimeIn grp) (sortedEntries grp).
Proof.
  split.
  - apply sortBy_Sorted, timeInLe_total.
  - apply sortBy_Permutation.
Qed.

Lemma sortedEntries_In (grp : list TimecardEntry) (e : TimecardEntry) :
  In e (sortedEntries grp) <-> In e grp /\ exists t, timeIn e = Some t.
Proof.
  unfold sortedEntries. rewrite sortBy_In, filter_In. unfold hasTimeIn.
  split; intros [Hin Ht]; split; try exact Hin.
  - destruct (timeIn e) as [t |]; [exists t; reflexivity | discriminate].
  - destruct Ht as [t ->]. reflexivity.
Qed.

Lemma mapGet_In (m : EmployeeMap) (k : string) (v : list TimecardEntry) :
  mapGet m k = Some v -> In (k, v) m.
Proof.
  induction m as [| [k' v'] m IH]; simpl; [discriminate |].
  destruct (String.eqb_spec k' k) as [-> | Hne].
  - intros H. injection H as <-. left. reflexivity.
  - intros H. right. apply IH, H.
Qed.

Lemma mapSet_groupsOf (l : list TimecardEntry) (m : EmployeeMap) (k : string)
    (v : list TimecardEntry) :
  groupsOf l m -> Forall (fun e => In e l /\ fileNumber e = k) v ->
  groupsOf l (mapSet m k v).
Proof.
  unfold groupsOf. intros Hm Hv.
  induction m as [| [k' v'] m IH]; simpl.
  - constructor; [exact Hv | constructor].
  - inversion Hm as [| ? ? Hhd Htl]; subst.
    destruct (String.eqb_spec k' k) as [-> | Hne]; constructor; auto.
Qed.

Lemma fold_groupStep_groupsOf (l rest : list TimecardEntry) (m : EmployeeMap) :
  incl rest l -> groupsOf l m -> groupsOf l (fold_left groupStep rest m).
Proof.
  revert m. induction rest as [| e rest IH]; intros m Hincl Hm; simpl.
  - exact Hm.
  - apply IH; [intros x Hx; apply Hincl; right; exact Hx |].
    unfold groupStep. apply mapSet_groupsOf; [exact Hm |].
    apply Forall_app. split.
    + destruct (mapGet m (fileNumber e)) as [v |] eqn:Hget; [| constructor].
      apply mapGet_In in Hget. unfold groupsOf in Hm.
      rewrite Forall_forall in Hm. apply (Hm _ Hget).
    + constructor; [| constructor].
      split; [apply Hincl; left; reflexivity | reflexivity].
Qed.

Lemma groupByFileNumber_members (entries : list TimecardEntry) (date : string)
    (fn : string) (grp : list TimecardEntry) (e : TimecardEntry) :
  In (fn, grp) (groupByFileNumber (onDate date entries)) -> In e grp ->
  In e entries /\ payDate e = date /\ fileNumber e = fn.
Proof.
  intros Hin He.
  assert (H : groupsOf (onDate date entries)
                (groupByFileNumber (onDate date entries))).
  { apply fold_groupStep_groupsOf; [apply incl_refl | constructor]. }
  unfold groupsOf in H. rewrite Forall_forall in H.
  specialize (H _ Hin). simpl in H. rewrite Forall_forall in H.
  destruct (H _ He) as [Hmem Hfn].
  unfold onDate in Hmem. apply filter_In in Hmem. destruct Hmem as [Hmem Hd].
  apply String.eqb_eq in Hd. auto.
Qed.

(** *** Timecard ingestion ([parseTimecardCSV]) *)

Section IngestionFacts.
Variable parse : string -> string -> Date -> ParseOutcome.
Variable parseFloat : option string -> float.

Lemma parseTimeString_unparseable (now : Date) (s : string) :
  unparseable parse now s -> parseTimeString parse (Some s) now = None.
Proof.
  intros Hu. unfold parseTimeString.
  destruct (isEmpty s || isEmpty (trim s)); [reflexivity |].
  destruct (parse s "hh:mm a" now) eqn:H1; try reflexivity;
    [exfalso; apply (Hu "hh:mm a" t); [left; reflexivity | exact H1] |].
  destruct (parse s "h:mma" now) eqn:H2; try reflexivity;
    [exfalso; apply (Hu "h:mma" t); [right; left; reflexivity | exact H2] |].
  destruct (parse s "h:mmaa" now) eqn:H3; try reflexivity.
  exfalso; apply (Hu "h:mmaa" t); [right; right; left; reflexivity | exact H3].
Qed.

Lemma parseTimeString_missing (now : Date) :
  parseTimeString parse None now = None
  /\ parseTimeString parse (Some "") now = None.
Proof. split; reflexivity. Qed.

Lemma orZero_nan (x : float) : PrimFloat.is_nan x = true -> orZero x = 0%float.
Proof.
  intros H. unfold orZero. rewrite H. reflexivity.
Qed.

Lemma blank_false (cell : option string) :
  blank cell = false -> exists v, cell = Some v /\ isEmpty v = false.
Proof.
  destruct cell as [v |]; simpl; [| discriminate].
  intros H. exists v. auto.
Qed.

(** A cell that the code takes for blank is blank. *)
Lemma blank_isBlank (cell : option string) :
  blank cell = true -> Spec.isBlank cell = true.
Proof.
  destruct cell as [v |]; simpl; [| reflexivity].
  destruct v; [reflexivity | discriminate].
Qed.

Lemma isBlank_false (cell : option string) :
  Spec.isBlank cell = false -> blank cell = false.
Proof.
  intros H. destruct (blank cell) eqn:Hb; [| reflexivity].
  apply blank_isBlank in Hb. congruence.
Qed.

Lemma timecardRow_never_raises (now : Date) (row : Row) :
  timecardRow parse parseFloat now row <> Raised.
Proof.
  unfold timecardRow.
  destruct (blank (field row "Payroll Name")) eqn:H1; simpl; [discriminate |].
  destruct (blank (field row "File Number")) eqn:H2; simpl; [discriminate |].
  destruct (blank (field row "Pay Date")) eqn:H3; simpl; [discriminate |].
  destruct (blank (field row "Time In") && blank (field row "Time Out"));
    [discriminate |].
  destruct (blank_false _ H1) as [v1 [-> _]].
  destruct (blank_false _ H2) as [v2 [-> _]].
  destruct (blank_false _ H3) as [v3 [-> _]].
  discriminate.
Qed.

(** A row that is skipped is blank as the rule says. *)
Lemma timecardRow_skipped_is_blank (now : Date) (row : Row) :
  timecardRow parse parseFloat now row = Skipped ->
  Spec.rowIsSkipped row = true.
Proof.
  unfold timecardRow, Spec.rowIsSkipped.
  destruct (blank (field row "Payroll Name")) eqn:H1; simpl.
  { intros _. rewrite (blank_isBlank _ H1). reflexivity. }
  destruct (blank (field row "File Number")) eqn:H2; simpl.
  { intros _. rewrite (blank_isBlank _ H2). apply orb_true_iff. left.
    apply orb_true_iff. left. apply orb_true_r. }
  destruct (blank (field row "Pay Date")) eqn:H3; simpl.
  { intros _. rewrite (blank_isBlank _ H3). apply orb_true_iff. left.
    apply orb_true_r. }
  destruct (blank (field row "Time In")) eqn:H4; simpl.
  - destruct (blank (field row "Time Out")) eqn:H5.
    + intros _. rewrite (blank_isBlank _ H4), (blank_isBlank _ H5).
      apply orb_true_r.
    + destruct (blank_false _ H1) as [v1 [-> _]].
      destruct (blank_false _ H2) as [v2 [-> _]].
      destruct (blank_false _ H3) as [v3 [-> _]].
      discriminate.
  - destruct (blank_false _ H1) as [v1 [-> _]].
    destruct (blank_false _ H2) as [v2 [-> _]].
    destruct (blank_false _ H3) as [v3 [-> _]].
    discriminate.
Qed.

(** A row that is not blank is kept. *)
Lemma timecardRow_not_blank_kept (now : Date) (row : Row) :
  Spec.rowIsSkipped row = false ->
  exists e, timecardRow parse parseFloat now row = Kept e.
Proof.
  intros Hkeep.
  pose proof (timecardRow_never_raises now row) as Hr.
  pose proof (timecardRow_skipped_is_blank now row) as Hs.
  destruct (timecardRow parse parseFloat now row) as [| e |].
  - rewrite (Hs eq_refl) in Hkeep. discriminate.
  - exists e. reflexivity.
  - contradiction.
Qed.

(** A kept row has hours 0 when the hours cell does not parse as a
    number, and an absent time-in or time-out when none of the three
    formats parses that cell. *)
Lemma timecardRow_kept_fields (now : Date) (row : Row) (e : TimecardEntry) :
  timecardRow parse parseFloat now row = Kept e ->
  (PrimFloat.is_nan (parseFloat (field row "Hours")) = true ->
     hours e = 0%float)
  /\ (forall s, field row "Time In" = Some s -> unparseable parse now s ->
        timeIn e = None)
  /\ (forall s, field row "Time Out" = Some s -> unparseable parse now s ->
        timeOut e = None).
Proof.
  intros He. unfold timecardRow in He.
  destruct (blank (field row "Payroll Name") || blank (field row "File Number")
            || blank (field row "Pay Date")); [discriminate |].
  destruct (blank (field row "Time In") && blank (field row "Time Out"));
    [discriminate |].
  destruct (field row "Payroll Name") as [name |]; [| discriminate].
  destruct (field row "File Number") as [number |]; [| discriminate].
  destruct (field row "Pay Date") as [day |]; [| discriminate].
  injection He as <-. simpl. split; [apply orZero_nan |].
  split; intros s Hs Hu; rewrite Hs; apply parseTimeString_unparseable, Hu.
Qed.

Lemma parseTimecardRows_from (now : Date) (rows : list Row)
    (acc : list TimecardEntry) :
  fold_left
    (fun acc row =>
       match acc with
       | None => None
       | Some entries =>
           match timecardRow parse parseFloat now row with
           | Skipped => Some entries
           | Kept e => Some (entries ++ [e])
           | Raised => None
           end
       end) rows (Some acc)
  = Some (acc ++ flat_map
                   (fun row => keptOf (timecardRow parse parseFloat now row))
                   rows).
Proof.
  revert acc. induction rows as [| row rows IH]; intros acc; simpl.
  - rewrite app_nil_r. reflexivity.
  - pose proof (timecardRow_never_raises now row) as Hr.
    destruct (timecardRow parse parseFloat now row) as [| e |];
      [| | contradiction]; rewrite IH; simpl.
    + reflexivity.
    + rewrite <- app_assoc. reflexivity.
Qed.

(** C8: a row whose payroll name is white space only is blank in its
    name and is not skipped: it is kept, as an entry with the empty name;
    and a row whose time-in and time-out are both white space only is
    kept, with both times absent.  Apart from cells of white space only
    the rule holds: no row raises, a row that is skipped is blank as the
    rule says, and a row that is not blank is kept. *)
Theorem timecard_blank_rows_are_kept (now : Date) :
  let blankName :=
    [("Payroll Name", "  "); ("File Number", "18");
     ("Pay Date", "12/24/2025"); ("Time In", "09:00 AM");
     ("Time Out", "05:00 PM"); ("Hours", "8")] in
  let blankTimes :=
    [("Payroll Name", "Doe, Jane"); ("File Number", "18");
     ("Pay Date", "12/24/2025"); ("Time In", " "); ("Time Out", " ");
     ("Hours", "8")] in
  (Spec.rowIsSkipped blankName = true
   /\ exists e,
        timecardRow parse parseFloat now blankName = Kept e
        /\ payrollName e = ""
        /\ parseTimecardRows parse parseFloat now [blankName] = Some [e])
  /\ (Spec.rowIsSkipped blankTimes = true
      /\ exists e,
           timecardRow parse parseFloat now blankTimes = Kept e
           /\ timeIn e = None /\ timeOut e = None
           /\ parseTimecardRows parse parseFloat now [blankTimes] = Some [e])
  /\ (forall row, timecardRow parse parseFloat now row <> Raised)
  /\ (forall row,
        timecardRow parse parseFloat now row = Skipped ->
        Spec.rowIsSkipped row = true)
  /\ (forall row,
        Spec.rowIsSkipped row = false ->
        exists e, timecardRow parse parseFloat now row = Kept e).
Proof.
  cbv zeta. split; [| split; [| split; [| split]]].
  - split; [reflexivity |]. eexists. split; [reflexivity |].
    split; reflexivity.
  - split; [reflexivity |]. eexists. split; [reflexivity |].
    split; [reflexivity |]. split; reflexivity.
  - apply timecardRow_never_raises.
  - apply timecardRow_skipped_is_blank.
  - apply timecardRow_not_blank_kept.
Qed.

End IngestionFacts.

(** A time that only a 24-hour format would read is none of the three
    formats' and becomes absent; the row is kept. *)
Example timecardRow_unparseable_time :
  let parse := fun s fmt (_ : Date) =>
    if String.eqb s "13:45" && String.eqb fmt "HH:mm" then Parsed 49500000
    else InvalidDate in
  unparseable parse 0 "13:45"
  /\ timecardRow parse (fun _ => nan) 0
       [("Payroll Name", "Doe, Jane"); ("File Number", "18");
        ("Pay Date", "12/24/2025"); ("Time In", "13:45"); ("Time Out", "later");
        ("Hours", "n/a")]
     = Kept (mkTimecardEntry "Doe, Jane" "18" "12/24/2025" None None 0%float).
Proof.
  split; [| reflexivity].
  intros fmt t [<- | [<- | [<- | []]]]; discriminate.
Qed.

(** A cell of white space only is not blank for the code: the row is
    kept, with an empty name. *)
Example timecardRow_whitespace_name :
  timecardRow (fun _ _ _ => InvalidDate) (fun _ => nan) 0
    [("Payroll Name", "  "); ("File Number", "18"); ("Pay Date", "12/24/2025");
     ("Time In", "soon"); ("Time Out", ""); ("Hours", "n/a")]
  = Kept (mkTimecardEntry "" "18" "12/24/2025" None None 0%float).
Proof. reflexivity. Qed.

(** *** Name matching ([matchEmployeeByName]) *)

Section MatcherFacts.
Variable score : string -> string -> Z.
Variable candidate : string.

Let sc (x : string) : Z :=
  score (normalizeEmployeeName candidate) (normalizeEmployeeName x).

Let step := matchStep score (normalizeEmployeeName candidate).

Lemma matchStep_keeps (best : option string * Z) (pool : list string) :
  Forall (fun y => sc y <= snd best) pool -> fold_left step pool best = best.
Proof.
  revert best. induction pool as [| y pool IH]; intros best Hall; simpl.
  - reflexivity.
  - inversion Hall as [| ? ? Hy Hrest]; subst.
    unfold step at 2, matchStep. fold (sc y).
    destruct (Z.ltb_spec (snd best) (sc y)) as [Hlt | Hge]; [lia |].
    apply IH. exact Hrest.
Qed.

Lemma matchStep_below (best : option string * Z) (pool : list string) (v : Z) :
  snd best < v -> Forall (fun y => sc y < v) pool ->
  snd (fold_left step pool best) < v.
Proof.
  revert best. induction pool as [| y pool IH]; intros best Hb Hall; simpl.
  - exact Hb.
  - inversion Hall as [| ? ? Hy Hrest]; subst.
    apply IH; [| exact Hrest].
    unfold step, matchStep. fold (sc y).
    destruct (snd best <? sc y); simpl; assumption.
Qed.

Lemma matchStep_first_best (pre post : list string) (x : string) :
  0 < sc x ->
  Forall (fun y => sc y < sc x) pre ->
  Forall (fun y => sc y <= sc x) post ->
  fold_left step (pre ++ x :: post) (None, 0) = (Some x, sc x).
Proof.
  intros Hpos Hpre Hpost.
  rewrite fold_left_app. simpl.
  assert (Hlt : snd (fold_left step pre (None, 0)) < sc x)
    by (apply matchStep_below; [exact Hpos | exact Hpre]).
  unfold step at 2, matchStep. fold (sc x). fold step.
  destruct (Z.ltb_spec (snd (fold_left step pre (None, 0))) (sc x)); [| lia].
  apply matchStep_keeps. exact Hpost.
Qed.

(** C5 (amended): when no pool entry scores above 0 (in particular when
    the pool is empty) the result is no match with score 0; otherwise the
    first pool entry that reaches the maximal score is returned unchanged
    with its score if the score reaches the threshold, and no match with
    that score is returned if it does not. *)
Theorem matchEmployeeByName_first_best (pool : list string) (threshold : Z) :
  (Forall (fun y => sc y <= 0) pool ->
     matchEmployeeByName score candidate pool threshold = mkNameMatch None 0)
  /\ (forall pre x post,
        pool = pre ++ x :: post ->
        0 < sc x ->
        Forall (fun y => sc y < sc x) pre ->
        Forall (fun y => sc y <= sc x) post ->
        matchEmployeeByName score candidate pool threshold
        = if threshold <=? sc x then mkNameMatch (Some x) (sc x)
          else mkNameMatch None (sc x)).
Proof.
  split.
  - intros Hall. unfold matchEmployeeByName.
    change (fold_left _ pool (None, 0)) with (fold_left step pool (None, 0)).
    rewrite matchStep_keeps by exact Hall.
    destruct (threshold <=? 0); reflexivity.
  - intros pre x post -> Hpos Hpre Hpost. unfold matchEmployeeByName.
    change (fold_left _ (pre ++ x :: post) (None, 0))
      with (fold_left step (pre ++ x :: post) (None, 0)).
    rewrite matchStep_first_best by assumption.
    reflexivity.
Qed.

(** One of the two cases always applies. *)
Lemma pool_best_exists (pool : list string) :
  Forall (fun y => sc y <= 0) pool
  \/ exists pre x post,
       pool = pre ++ x :: post /\ 0 < sc x
       /\ Forall (fun y => sc y < sc x) pre
       /\ Forall (fun y => sc y <= sc x) post.
Proof.
  induction pool as [| y pool IH].
  - left. constructor.
  - destruct IH as [Hall | [pre [x [post [-> [Hpos [Hpre Hpost]]]]]]].
    + destruct (Z.ltb_spec 0 (sc y)) as [Hlt | Hge].
      * right. exists [], y, pool. repeat split; try assumption; [constructor |].
        eapply Forall_impl; [| exact Hall]. simpl. intros; lia.
      * left. constructor; assumption.
    + right. destruct (Z.ltb_spec (sc y) (sc x)) as [Hlt | Hge].
      * exists (y :: pre), x, post. repeat split; try assumption.
        constructor; assumption.
      * exists [], y, (pre ++ x :: post).
        repeat split; try (constructor; fail); [lia |].
        apply Forall_app. split.
        -- eapply Forall_impl; [| exact Hpre]. simpl. intros; lia.
        -- constructor; [exact Hge |].
           eapply Forall_impl; [| exact Hpost]. simpl. intros; lia.
Qed.

End MatcherFacts.

Lemma matchEmployeeByName_first_best_witness :
  matchEmployeeByName Scorer.ratio "Acosta, Geovanny"
    ["Bob Jones"; "Geovanny,Acosta"; "Geovanny Acosta"] 80
  = mkNameMatch (Some "Geovanny,Acosta") 100.
Proof.
  apply (proj2 (matchEmployeeByName_first_best Scorer.ratio "Acosta, Geovanny"
                  ["Bob Jones"; "Geovanny,Acosta"; "Geovanny Acosta"] 80)
           ["Bob Jones"] "Geovanny,Acosta" ["Geovanny Acosta"] eq_refl).
  - vm_compute. reflexivity.
  - repeat constructor.
  - repeat constructor. vm_compute. discriminate.
Defined.

(** C5 as stated fails when the best score is 0 and the threshold is not
    above it: the only pool entry reaches the maximal score 0, which is at
    least the threshold 0, yet no entry is returned. *)
Lemma matcherContract_fails_at_zero_score :
  Scorer.ratio (normalizeEmployeeName "abc") (normalizeEmployeeName "xyz") = 0
  /\ matchEmployeeByName Scorer.ratio "abc" ["xyz"] 0 = mkNameMatch None 0
  /\ ~ Spec.matcherContract Scorer.ratio "abc" ["xyz"] 0.
Proof.
  split; [reflexivity |]. split; [reflexivity |].
  intros H.
  specialize (H [] "xyz" [] eq_refl (Forall_nil _) (Forall_nil _)).
  vm_compute in H. discriminate.
Qed.

(** *** Name normalisation ([normalizeEmployeeName]) *)

Example normalizeEmployeeName_last_first :
  normalizeEmployeeName "Acosta, Geovanny" = "acosta geovanny"
  /\ normalizeEmployeeName "Geovanny Acosta" = "acosta geovanny"
  /\ normalizeEmployeeName "Geovanny,Acosta" = "acosta geovanny".
Proof. repeat split. Qed.

(** C6: on a name with a token made of punctuation only the normal form
    keeps an empty token, and normalising again removes it: the function
    is not idempotent there. *)
Theorem normalizeEmployeeName_not_idempotent_on_punctuation :
  normalizeEmployeeName "Smith - Jones" = " jones smith"
  /\ normalizeEmployeeName (normalizeEmployeeName "Smith - Jones") = "jones smith"
  /\ normalizeEmployeeName (normalizeEmployeeName "Smith - Jones")
     <> normalizeEmployeeName "Smith - Jones".
Proof.
  split; [reflexivity |]. split; [reflexivity |].
  vm_compute. discriminate.
Qed.

(** *** Order of the tokens of a name *)

Lemma string_leb_trans (s1 s2 s3 : string) :
  String.leb s1 s2 = true -> String.leb s2 s3 = true -> String.leb s1 s3 = true.
Proof.
  unfold String.leb. revert s2 s3.
  induction s1 as [| a s1 IH]; intros [| b s2] [| c s3]; simpl;
    try reflexivity; try discriminate.
  unfold Ascii.compare.
  destruct (N.compare_spec (N_of_ascii a) (N_of_ascii b)) as [Hab | Hab | Hab];
    destruct (N.compare_spec (N_of_ascii b) (N_of_ascii c)) as [Hbc | Hbc | Hbc];
    destruct (N.compare_spec (N_of_ascii a) (N_of_ascii c)) as [Hac | Hac | Hac];
    try reflexivity; try discriminate; try lia.
  apply IH.
Qed.

Lemma sortStrings_Permutation_eq (l1 l2 : list string) :
  Permutation l1 l2 -> sortStrings l1 = sortStrings l2.
Proof.
  apply sortBy_Permutation_eq.
  - apply String.leb_total.
  - apply string_leb_trans.
  - apply String.leb_antisym.
Qed.

Lemma normalizeEmployeeName_tokens (name : string) :
  isEmpty name = false ->
  normalizeEmployeeName name
  = joinSpace (sortStrings (map cleanToken (Spec.nameTokens name))).
Proof.
  intros H. unfold normalizeEmployeeName. rewrite H. reflexivity.
Qed.

(** Two names with the same tokens, in whatever order, have the same
    normal form. *)
Lemma normalizeEmployeeName_order_invariant (n1 n2 : string) :
  isEmpty n1 = false -> isEmpty n2 = false ->
  Permutation (Spec.nameTokens n1) (Spec.nameTokens n2) ->
  normalizeEmployeeName n1 = normalizeEmployeeName n2.
Proof.
  intros H1 H2 Hp.
  rewrite !normalizeEmployeeName_tokens by assumption.
  f_equal. apply sortStrings_Permutation_eq, Permutation_map, Hp.
Qed.

(** *** Commas and white space separate alike *)

Lemma splitBy_cons (sep : ascii -> bool) (s : string) :
  exists p ps, Spec.splitBy sep s = p :: ps.
Proof.
  destruct s as [| c s]; simpl.
  - eexists. eexists. reflexivity.
  - destruct (sep c); [eexists; eexists; reflexivity |].
    destruct (Spec.splitBy sep s); eexists; eexists; reflexivity.
Qed.

Lemma splitComma_splitBy (s : string) : splitComma s = Spec.splitBy isComma s.
Proof.
  induction s as [| c s IH]; simpl; [reflexivity |].
  rewrite IH. reflexivity.
Qed.

Lemma splitSpaces_head_space (c : ascii) (s : string) :
  isSpace c = true -> exists ps, splitSpaces (String c s) = EmptyString :: ps.
Proof.
  revert c. induction s as [| c' s IH]; intros c Hc; simpl; rewrite Hc.
  - eexists. reflexivity.
  - destruct (isSpace c') eqn:Hc'.
    + destruct (IH c' Hc') as [ps Hps]. simpl in Hps. rewrite Hc' in Hps.
      exists ps. exact Hps.
    + eexists. reflexivity.
Qed.

(** The two ways of splitting at white space agree on the first piece and
    on the non-empty pieces that follow. *)
Lemma splitSpaces_splitBy (s : string) :
  exists p ps qs,
    splitSpaces s = p :: ps
    /\ Spec.splitBy isSpace s = p :: qs
    /\ filter Spec.nonEmpty ps = filter Spec.nonEmpty qs.
Proof.
  induction s as [| c s IH].
  - exists EmptyString, [], []. auto.
  - destruct IH as [p [ps [qs [H1 [H2 H3]]]]].
    destruct (isSpace c) eqn:Hc.
    + destruct s as [| c' s'].
      * simpl. rewrite Hc. exists EmptyString, [EmptyString], [EmptyString]. auto.
      * destruct (isSpace c') eqn:Hc'.
        -- destruct (splitSpaces_head_space c' s' Hc') as [ps' Hps'].
           rewrite Hps' in H1. injection H1 as <- <-.
           exists EmptyString, ps', (EmptyString :: qs).
           split; [| split].
           ++ change (splitSpaces (String c (String c' s')))
                with (if isSpace c
                      then if isSpace c' then splitSpaces (String c' s')
                           else EmptyString :: splitSpaces (String c' s')
                      else match splitSpaces (String c' s') with
                           | p :: ps => String c p :: ps
                           | [] => [String c EmptyString]
                           end).
              rewrite Hc, Hc'. exact Hps'.
           ++ change (Spec.splitBy isSpace (String c (String c' s')))
                with (if isSpace c
                      then EmptyString :: Spec.splitBy isSpace (String c' s')
                      else match Spec.splitBy isSpace (String c' s') with
                           | p :: ps => String c p :: ps
                           | [] => [String c EmptyString]
                           end).
              rewrite Hc, H2. reflexivity.
           ++ simpl. exact H3.
        -- exists EmptyString, (p :: ps), (p :: qs).
           split; [| split].
           ++ change (splitSpaces (String c (String c' s')))
                with (if isSpace c
                      then if isSpace c' then splitSpaces (String c' s')
                           else EmptyString :: splitSpaces (String c' s')
                      else match splitSpaces (String c' s') with
                           | p :: ps => String c p :: ps
                           | [] => [String c EmptyString]
                           end).
              rewrite Hc, Hc', H1. reflexivity.
           ++ change (Spec.splitBy isSpace (String c (String c' s')))
                with (if isSpace c
                      then EmptyString :: Spec.splitBy isSpace (String c' s')
                      else match Spec.splitBy isSpace (String c' s') with
                           | p :: ps => String c p :: ps
                           | [] => [String c EmptyString]
                           end).
              rewrite Hc, H2. reflexivity.
           ++ simpl. rewrite H3. reflexivity.
    + exists (String c p), ps, qs. split; [| split].
      * simpl. rewrite Hc, H1. reflexivity.
      * simpl. rewrite Hc, H2. reflexivity.
      * exact H3.
Qed.

Lemma splitSpaces_words (s : string) :
  filter Spec.nonEmpty (splitSpaces s)
  = filter Spec.nonEmpty (Spec.splitBy isSpace s).
Proof.
  destruct (splitSpaces_splitBy s) as [p [ps [qs [H1 [H2 H3]]]]].
  rewrite H1, H2. simpl. rewrite H3. reflexivity.
Qed.

Lemma trimStart_words (s : string) :
  filter Spec.nonEmpty (Spec.splitBy isSpace (trimStart s))
  = filter Spec.nonEmpty (Spec.splitBy isSpace s).
Proof.
  induction s as [| c s IH]; [reflexivity |].
  simpl trimStart. destruct (isSpace c) eqn:Hc; [| reflexivity].
  rewrite IH. simpl. rewrite Hc. reflexivity.
Qed.

Lemma trimEnd_splitBy (s : string) :
  exists p ps qs,
    Spec.splitBy isSpace (trimEnd s) = p :: ps
    /\ Spec.splitBy isSpace s = p :: qs
    /\ filter Spec.nonEmpty ps = filter Spec.nonEmpty qs.
Proof.
  induction s as [| c s IH].
  - exists EmptyString, [], []. auto.
  - destruct IH as [p [ps [qs [H1 [H2 H3]]]]]. simpl trimEnd.
    destruct (trimEnd s) as [| c' t] eqn:Ht.
    + simpl in H1. injection H1 as <- <-.
      destruct (isSpace c) eqn:Hc.
      * exists EmptyString, [], (EmptyString :: qs). simpl. rewrite Hc, H2.
        auto.
      * exists (String c EmptyString), [], qs. simpl. rewrite Hc, H2. auto.
    + destruct (isSpace c) eqn:Hc.
      * exists EmptyString, (p :: ps), (p :: qs).
        split; [| split].
        -- change (Spec.splitBy isSpace (String c (String c' t)))
             with (if isSpace c
                   then EmptyString :: Spec.splitBy isSpace (String c' t)
                   else match Spec.splitBy isSpace (String c' t) with
                        | p :: ps => String c p :: ps
                        | [] => [String c EmptyString]
                        end).
           rewrite Hc, H1. reflexivity.
        -- simpl. rewrite Hc, H2. reflexivity.
        -- simpl. rewrite H3. reflexivity.
      * exists (String c p), ps, qs.
        split; [| split].
        -- change (Spec.splitBy isSpace (String c (String c' t)))
             with (if isSpace c
                   then EmptyString :: Spec.splitBy isSpace (String c' t)
                   else match Spec.splitBy isSpace (String c' t) with
                        | p :: ps => String c p :: ps
                        | [] => [String c EmptyString]
                        end).
           rewrite Hc, H1. reflexivity.
        -- simpl. rewrite Hc, H2. reflexivity.
        -- exact H3.
Qed.

Lemma trim_words (s : string) :
  filter Spec.nonEmpty (Spec.splitBy isSpace (trim s))
  = filter Spec.nonEmpty (Spec.splitBy isSpace s).
Proof.
  unfold trim.
  destruct (trimEnd_splitBy (trimStart s)) as [p [ps [qs [H1 [H2 H3]]]]].
  rewrite <- (trimStart_words s). rewrite H1, H2. simpl. rewrite H3. reflexivity.
Qed.

(** Splitting at commas and then at white space is splitting at both. *)
Lemma splitBy_comma_then_space (s : string) :
  flat_map (Spec.splitBy isSpace) (Spec.splitBy isComma s)
  = Spec.splitBy Spec.isSeparator s.
Proof.
  induction s as [| c s IH]; [reflexivity |].
  simpl Spec.splitBy. unfold Spec.isSeparator at 1.
  destruct (isComma c) eqn:Hcomma; simpl orb.
  - simpl. rewrite IH. reflexivity.
  - destruct (splitBy_cons isComma s) as [p [ps Hp]].
    rewrite Hp in IH |- *. simpl flat_map in IH |- *.
    simpl Spec.splitBy.
    destruct (isSpace c) eqn:Hspace.
    + simpl. rewrite IH. reflexivity.
    + destruct (splitBy_cons isSpace p) as [a [rest Ha]].
      rewrite Ha in IH |- *. rewrite <- IH. reflexivity.
Qed.

Lemma splitBy_singleton (sep : ascii -> bool) (s p : string) :
  Spec.splitBy sep s = [p] -> p = s.
Proof.
  revert p. induction s as [| c s IH]; intros p H; simpl in H.
  - injection H as <-. reflexivity.
  - destruct (sep c).
    + destruct (splitBy_cons sep s) as [q [qs Hq]]. rewrite Hq in H.
      discriminate.
    + destruct (Spec.splitBy sep s) as [| q qs] eqn:Hq.
      * destruct (splitBy_cons sep s) as [q' [qs' Hq']]. congruence.
      * injection H as <- ->. f_equal. apply IH. reflexivity.
Qed.

Lemma words_of_parts (parts : list string) (pieces : string -> list string) :
  flat_map (fun part => filter Spec.nonEmpty (pieces part)) parts
  = filter Spec.nonEmpty (flat_map pieces parts).
Proof.
  induction parts as [| part rest IH]; simpl; [reflexivity |].
  rewrite filter_app. f_equal. exact IH.
Qed.

(** The tokens of [normalizeEmployeeName] are the words of the cleaned
    name: the comma branch and the plain branch yield the same tokens, and
    a comma counts as white space. *)
Lemma rawTokens_words (cleaned : string) :
  rawTokens cleaned = Spec.words cleaned.
Proof.
  unfold rawTokens, Spec.words.
  change (fun t => negb (isEmpty t)) with Spec.nonEmpty.
  rewrite <- splitBy_comma_then_space, splitComma_splitBy.
  destruct (1 <? Z.of_nat (List.length
                              (map trim (Spec.splitBy isComma cleaned))))
    eqn:Hlen.
  - rewrite flat_map_concat_map, map_map, <- flat_map_concat_map.
    rewrite <- !words_of_parts.
    apply flat_map_ext. intros part.
    rewrite splitSpaces_words. apply trim_words.
  - rewrite length_map in Hlen. apply Z.ltb_ge in Hlen.
    destruct (splitBy_cons isComma cleaned) as [p [ps Hp]].
    rewrite Hp in Hlen |- *.
    destruct ps as [| q ps]; [| simpl in Hlen; lia].
    apply splitBy_singleton in Hp. subst p. simpl flat_map.
    rewrite app_nil_r. apply splitSpaces_words.
Qed.

(** Names that differ only in where commas stand for white space have the
    same tokens, hence the same normal form. *)
Lemma nameTokens_words (name : string) :
  Spec.nameTokens name
  = Spec.words (filterChars (fun c => negb (isQuote c)) (trim name)).
Proof.
  unfold Spec.nameTokens. apply rawTokens_words.
Qed.

(** *** Idempotence of the normal form on names without punctuation-only
    tokens *)

Lemma cleanChar_facts (c : ascii) :
  Spec.isCleanChar c = true ->
  isSpace c = false /\ isComma c = false /\ isQuote c = false
  /\ isWord c = true /\ lowerChar c = c.
Proof.
  destruct c as [[|] [|] [|] [|] [|] [|] [|] [|]]; vm_compute; intros H;
    try discriminate H; repeat split; reflexivity.
Qed.

Lemma lowerChar_word_clean (c : ascii) :
  isWord (lowerChar c) = true -> Spec.isCleanChar (lowerChar c) = true.
Proof.
  destruct c as [[|] [|] [|] [|] [|] [|] [|] [|]]; vm_compute; intros H;
    try discriminate H; reflexivity.
Qed.

Lemma allChars_impl (p q : ascii -> bool) (s : string) :
  (forall c, p c = true -> q c = true) ->
  Spec.allChars p s = true -> Spec.allChars q s = true.
Proof.
  intros Himp. induction s as [| c s IH]; simpl; [reflexivity |].
  intros H. apply andb_true_iff in H. destruct H as [Hc Hs].
  rewrite (Himp _ Hc), (IH Hs). reflexivity.
Qed.

Lemma allChars_append (p : ascii -> bool) (s t : string) :
  Spec.allChars p (s ++ t)%string
  = Spec.allChars p s && Spec.allChars p t.
Proof.
  induction s as [| c s IH]; simpl; [reflexivity |].
  rewrite IH, andb_assoc. reflexivity.
Qed.

Lemma filterChars_all (keep : ascii -> bool) (s : string) :
  Spec.allChars keep s = true -> filterChars keep s = s.
Proof.
  induction s as [| c s IH]; simpl; [reflexivity |].
  intros H. apply andb_true_iff in H. destruct H as [Hc Hs].
  rewrite Hc, (IH Hs). reflexivity.
Qed.

Lemma cleanToken_allClean (t : string) :
  Spec.allChars Spec.isCleanChar (cleanToken t) = true.
Proof.
  unfold cleanToken. induction t as [| c t IH]; simpl; [reflexivity |].
  destruct (isWord (lowerChar c)) eqn:Hw; [| exact IH].
  simpl. rewrite (lowerChar_word_clean c Hw), IH. reflexivity.
Qed.

Lemma cleanToken_clean (t : string) :
  Spec.allChars Spec.isCleanChar t = true -> cleanToken t = t.
Proof.
  unfold cleanToken. induction t as [| c t IH]; simpl; [reflexivity |].
  intros H. apply andb_true_iff in H. destruct H as [Hc Hs].
  destruct (cleanChar_facts c Hc) as [_ [_ [_ [Hw Hl]]]].
  rewrite Hl, Hw, (IH Hs). reflexivity.
Qed.

Lemma cleanWord_inv (t : string) :
  Spec.cleanWord t = true ->
  exists c t', t = String c t'
               /\ Spec.isCleanChar c = true
               /\ Spec.allChars Spec.isCleanChar t' = true.
Proof.
  unfold Spec.cleanWord. destruct t as [| c t']; simpl; [discriminate |].
  intros H. apply andb_true_iff in H. destruct H as [Hc Ht].
  exists c, t'. auto.
Qed.

Lemma splitBy_clean (t : string) :
  Spec.allChars Spec.isCleanChar t = true ->
  Spec.splitBy Spec.isSeparator t = [t].
Proof.
  induction t as [| c t IH]; simpl; [reflexivity |].
  intros H. apply andb_true_iff in H. destruct H as [Hc Ht].
  destruct (cleanChar_facts c Hc) as [Hs [Hcomma _]].
  unfold Spec.isSeparator at 1. rewrite Hs, Hcomma. simpl.
  rewrite (IH Ht). reflexivity.
Qed.

Lemma splitBy_clean_then_space (t rest : string) :
  Spec.allChars Spec.isCleanChar t = true ->
  Spec.splitBy Spec.isSeparator (t ++ String " " rest)%string
  = t :: Spec.splitBy Spec.isSeparator rest.
Proof.
  induction t as [| c t IH]; simpl; [reflexivity |].
  intros H. apply andb_true_iff in H. destruct H as [Hc Ht].
  destruct (cleanChar_facts c Hc) as [Hs [Hcomma _]].
  unfold Spec.isSeparator at 1. rewrite Hs, Hcomma. simpl.
  rewrite (IH Ht). reflexivity.
Qed.

Lemma joinSpace_cons2 (t u : string) (l : list string) :
  joinSpace (t :: u :: l) = (t ++ String " " (joinSpace (u :: l)))%string.
Proof. reflexivity. Qed.

Lemma words_joinSpace (l : list string) :
  Forall (fun t => Spec.cleanWord t = true) l ->
  Spec.words (joinSpace l) = l.
Proof.
  unfold Spec.words.
  induction 1 as [| t l Ht Hl IH]; [reflexivity |].
  destruct (cleanWord_inv t Ht) as [c [t' [-> [Hc Ht']]]].
  assert (Hall : Spec.allChars Spec.isCleanChar (String c t') = true)
    by (simpl; rewrite Hc, Ht'; reflexivity).
  destruct l as [| u l].
  - unfold joinSpace. simpl String.concat. rewrite (splitBy_clean _ Hall).
    reflexivity.
  - rewrite joinSpace_cons2, (splitBy_clean_then_space _ _ Hall).
    simpl filter. rewrite IH. reflexivity.
Qed.

Lemma trimEnd_cleanWord (t : string) :
  Spec.allChars Spec.isCleanChar t = true -> trimEnd t = t.
Proof.
  induction t as [| c t IH]; simpl; [reflexivity |].
  intros H. apply andb_true_iff in H. destruct H as [Hc Ht].
  destruct (cleanChar_facts c Hc) as [Hs _].
  rewrite (IH Ht). destruct t; [rewrite Hs |]; reflexivity.
Qed.

Lemma trimEnd_append (t c : _) (u : string) :
  trimEnd (String c u) = String c u ->
  trimEnd (t ++ String c u)%string = (t ++ String c u)%string.
Proof.
  intros Hu. induction t as [| d t IH]; [exact Hu |].
  simpl. simpl in IH. rewrite IH.
  destruct t; reflexivity.
Qed.

Lemma joinSpace_head (t : string) (l : list string) :
  Spec.cleanWord t = true ->
  exists c rest, joinSpace (t :: l) = String c rest /\ isSpace c = false.
Proof.
  intros Ht. destruct (cleanWord_inv t Ht) as [c [t' [-> [Hc _]]]].
  destruct (cleanChar_facts c Hc) as [Hs _].
  destruct l as [| u l].
  - exists c, t'. auto.
  - rewrite joinSpace_cons2. simpl. eexists. eexists. split; [reflexivity | exact Hs].
Qed.

Lemma trimEnd_joinSpace (l : list string) :
  Forall (fun t => Spec.cleanWord t = true) l ->
  trimEnd (joinSpace l) = joinSpace l.
Proof.
  induction 1 as [| t l Ht Hl IH]; [reflexivity |].
  destruct l as [| u l].
  - apply trimEnd_cleanWord.
    destruct (cleanWord_inv t Ht) as [c [t' [-> [Hc Ht']]]].
    simpl. rewrite Hc, Ht'. reflexivity.
  - rewrite joinSpace_cons2. apply trimEnd_append.
    inversion Hl as [| ? ? Hu _]; subst.
    destruct (joinSpace_head u l Hu) as [c [rest [Hj _]]].
    simpl trimEnd. rewrite IH, Hj. reflexivity.
Qed.

Lemma trim_joinSpace (l : list string) :
  Forall (fun t => Spec.cleanWord t = true) l ->
  trim (joinSpace l) = joinSpace l.
Proof.
  intros Hl. unfold trim.
  assert (Hstart : trimStart (joinSpace l) = joinSpace l).
  { destruct Hl as [| t l Ht _]; [reflexivity |].
    destruct (joinSpace_head t l Ht) as [c [rest [-> Hs]]].
    simpl. rewrite Hs. reflexivity. }
  rewrite Hstart. apply trimEnd_joinSpace, Hl.
Qed.

Lemma joinSpace_no_quote (l : list string) :
  Forall (fun t => Spec.cleanWord t = true) l ->
  Spec.allChars (fun c => negb (isQuote c)) (joinSpace l) = true.
Proof.
  assert (Htok : forall t, Spec.cleanWord t = true ->
            Spec.allChars (fun c => negb (isQuote c)) t = true).
  { intros t Ht. unfold Spec.cleanWord in Ht.
    apply andb_true_iff in Ht. destruct Ht as [_ Ht].
    eapply allChars_impl; [| exact Ht].
    intros c Hc. destruct (cleanChar_facts c Hc) as [_ [_ [Hq _]]].
    rewrite Hq. reflexivity. }
  induction 1 as [| t l Ht Hl IH]; [reflexivity |].
  destruct l as [| u l].
  - apply Htok, Ht.
  - rewrite joinSpace_cons2, allChars_append. simpl.
    rewrite (Htok t Ht), IH. reflexivity.
Qed.

(** A sorted list of clean words, joined, is its own normal form. *)
Lemma normalizeEmployeeName_joinSpace (l : list string) :
  Forall (fun t => Spec.cleanWord t = true) l ->
  Sorted (fun a b => String.leb a b = true) l ->
  normalizeEmployeeName (joinSpace l) = joinSpace l.
Proof.
  intros Hl Hsorted. unfold normalizeEmployeeName.
  destruct (isEmpty (joinSpace l)) eqn:He.
  - destruct (joinSpace l); [reflexivity | discriminate].
  - rewrite (trim_joinSpace l Hl).
    rewrite (filterChars_all _ _ (joinSpace_no_quote l Hl)).
    rewrite rawTokens_words, (words_joinSpace l Hl).
    assert (Hmap : map cleanToken l = l).
    { clear Hsorted He. induction Hl as [| t l Ht _ IH]; [reflexivity |].
      simpl. rewrite IH. f_equal. apply cleanToken_clean.
      unfold Spec.cleanWord in Ht. apply andb_true_iff in Ht. apply Ht. }
    rewrite Hmap. unfold sortStrings.
    rewrite sortBy_sorted_id by exact Hsorted. reflexivity.
Qed.

(** Normalising twice is normalising once for every name in which each
    token keeps at least one word character. *)
Lemma normalizeEmployeeName_idempotent_on_words (name : string) :
  Forall (fun t => isEmpty (cleanToken t) = false) (Spec.nameTokens name) ->
  normalizeEmployeeName (normalizeEmployeeName name)
  = normalizeEmployeeName name.
Proof.
  intros Htok. destruct (isEmpty name) eqn:He.
  - destruct name; [reflexivity | discriminate].
  - rewrite (normalizeEmployeeName_tokens name He).
    apply normalizeEmployeeName_joinSpace.
    + apply Forall_forall. intros t Ht.
      apply (proj1 (sortBy_In String.leb _ t)) in Ht.
      apply in_map_iff in Ht. destruct Ht as [raw [<- Hraw]].
      rewrite Forall_forall in Htok. specialize (Htok _ Hraw).
      unfold Spec.cleanWord, Spec.nonEmpty.
      rewrite Htok, cleanToken_allClean. reflexivity.
    + apply sortBy_Sorted, String.leb_total.
Qed.

(** *** The arrays as mutable objects: no write reaches an input *)

Section StoreFacts.
Import Store.

Lemma bind_run {A B} (m : M A) (f : A -> M B) (h h' : Heap) (a : A) :
  m h = Some (a, h') -> bind m f h = f a h'.
Proof.
  intros H. unfold bind. rewrite H. reflexivity.
Qed.

Lemma nth_error_update_eq (l : Loc) (c : Cell) (h : Heap) :
  (l < List.length h)%nat -> nth_error (update l c h) l = Some c.
Proof.
  intros Hl. unfold update.
  rewrite nth_error_app2 by (rewrite length_firstn; lia).
  rewrite length_firstn, Nat.min_l by lia.
  rewrite Nat.sub_diag. reflexivity.
Qed.

Lemma nth_error_update_ne (l l' : Loc) (c : Cell) (h : Heap) :
  (l < List.length h)%nat -> l <> l' ->
  nth_error (update l c h) l' = nth_error h l'.
Proof.
  intros Hl Hne. unfold update.
  destruct (Nat.lt_ge_cases l' l) as [Hlt | Hge].
  - rewrite nth_error_app1 by (rewrite length_firstn; lia).
    rewrite nth_error_firstn.
    destruct (Nat.ltb_spec l' l); [reflexivity | lia].
  - rewrite nth_error_app2 by (rewrite length_firstn; lia).
    rewrite length_firstn, Nat.min_l by lia.
    destruct (l' - l)%nat as [| d] eqn:Hd; [lia |].
    rewrite nth_error_cons_succ, nth_error_skipn. f_equal. lia.
Qed.

Lemma update_app_fresh (h0 ext : Heap) (l : Loc) (c : Cell) :
  (List.length h0 <= l)%nat ->
  update l c (h0 ++ ext) = h0 ++ update (l - List.length h0)%nat c ext.
Proof.
  intros Hl. unfold update.
  rewrite firstn_app, firstn_all2 by exact Hl.
  rewrite skipn_app, (skipn_all2 h0) by lia.
  replace (S l - List.length h0)%nat with (S (l - List.length h0)) by lia.
  rewrite <- app_assoc. reflexivity.
Qed.

Lemma update_last (h : Heap) (c c' : Cell) :
  update (List.length h) c' (h ++ [c]) = h ++ [c'].
Proof.
  rewrite update_app_fresh by lia. rewrite Nat.sub_diag. reflexivity.
Qed.

Lemma nth_error_last (h : Heap) (c : Cell) :
  nth_error (h ++ [c]) (List.length h) = Some c.
Proof.
  rewrite nth_error_app2 by lia. rewrite Nat.sub_diag. reflexivity.
Qed.

Lemma nth_error_in_range (h : Heap) (l : Loc) (c : Cell) :
  nth_error h l = Some c -> (l < List.length h)%nat.
Proof.
  intros H. apply (proj1 (nth_error_Some h l)). rewrite H. discriminate.
Qed.

Lemma nth_error_ext (h ext : Heap) (l : Loc) (c : Cell) :
  nth_error h l = Some c -> nth_error (h ++ ext) l = Some c.
Proof.
  intros H. rewrite nth_error_app1; [exact H |].
  apply nth_error_Some. congruence.
Qed.

(** The primitive operations, run on a heap. *)

Lemma timecards_run (h : Heap) (l : Loc) (a : list TimecardEntry) :
  nth_error h l = Some (TimecardArray a) -> timecards l h = Some (a, h).
Proof.
  intros H. unfold timecards, bind, load. rewrite H. reflexivity.
Qed.

Lemma breaks_run (h : Heap) (l : Loc) (a : list BreakSheetEntry) :
  nth_error h l = Some (BreakSheetArray a) -> breaks l h = Some (a, h).
Proof.
  intros H. unfold breaks, bind, load. rewrite H. reflexivity.
Qed.

Lemma strings_run (h : Heap) (l : Loc) (a : list string) :
  nth_error h l = Some (StringArray a) -> strings l h = Some (a, h).
Proof.
  intros H. unfold strings, bind, load. rewrite H. reflexivity.
Qed.

Lemma filterNew_run (h : Heap) (l : Loc) (a : list TimecardEntry)
    (p : TimecardEntry -> bool) :
  nth_error h l = Some (TimecardArray a) ->
  filterNew l p h = Some (List.length h, h ++ [TimecardArray (filter p a)]).
Proof.
  intros H. unfold filterNew.
  rewrite (bind_run _ _ _ _ _ (timecards_run h l a H)). reflexivity.
Qed.

Lemma push_run (h : Heap) (l : Loc) (a : list TimecardEntry) (e : TimecardEntry) :
  nth_error h l = Some (TimecardArray a) ->
  push l e h = Some (tt, update l (TimecardArray (a ++ [e])) h).
Proof.
  intros H. unfold push.
  rewrite (bind_run _ _ _ _ _ (timecards_run h l a H)).
  unfold store. rewrite H. reflexivity.
Qed.

Lemma sortInPlace_run (h : Heap) (l : Loc) (a : list TimecardEntry)
    (le : TimecardEntry -> TimecardEntry -> bool) :
  nth_error h l = Some (TimecardArray a) ->
  sortInPlace l le h = Some (tt, update l (TimecardArray (sortBy le a)) h).
Proof.
  intros H. unfold sortInPlace.
  rewrite (bind_run _ _ _ _ _ (timecards_run h l a H)).
  unfold store. rewrite H. reflexivity.
Qed.

(** A [for ... of] loop whose body keeps the array it walks computes the
    fold of the pure step over that array. *)
Lemma forOf_fold {A S T : Type} (rd : Loc -> M (list A)) (l : Loc)
    (xs : list A) (body : S -> A -> M S) (f : T -> A -> T)
    (R : T -> S -> Heap -> Prop) :
  (forall t s h, R t s h -> rd l h = Some (xs, h)) ->
  (forall t s h x, R t s h ->
     exists s' h', body s x h = Some (s', h') /\ R (f t x) s' h') ->
  forall n i fuel t s h,
    (i + n = List.length xs)%nat -> (n < fuel)%nat -> R t s h ->
    exists s' h',
      forOf rd fuel l i body s h = Some (s', h')
      /\ R (fold_left f (skipn i xs) t) s' h'.
Proof.
  intros Hrd Hbody.
  induction n as [| n IH]; intros i fuel t s h Hlen Hfuel HR;
    (destruct fuel as [| fuel]; [lia |]); simpl.
  - rewrite (bind_run _ _ _ _ _ (Hrd _ _ _ HR)).
    rewrite (proj2 (nth_error_None xs i)) by lia.
    rewrite skipn_all2 by lia.
    exists s, h. split; [reflexivity | exact HR].
  - rewrite (bind_run _ _ _ _ _ (Hrd _ _ _ HR)).
    destruct (nth_error xs i) as [x |] eqn:Hx;
      [| apply nth_error_None in Hx; lia].
    destruct (Hbody _ _ _ x HR) as [s1 [h1 [Hrun HR1]]].
    rewrite (bind_run _ _ _ _ _ Hrun).
    destruct (IH (Datatypes.S i) fuel (f t x) s1 h1) as [s2 [h2 [Hrun2 HR2]]];
      [lia | lia | exact HR1 |].
    exists s2, h2. split; [exact Hrun2 |].
    assert (Hsk : skipn i xs = x :: skipn (Datatypes.S i) xs).
    { clear - Hx. revert i Hx. induction xs as [| y ys IHx]; intros i Hx.
      - destruct i; discriminate.
      - destruct i as [| i]; simpl in *.
        + injection Hx as ->. reflexivity.
        + apply IHx. exact Hx. }
    rewrite Hsk. exact HR2.
Qed.

Lemma represents_ext (h ext : Heap) (m : LocMap) (pm : EmployeeMap) :
  represents h m pm -> represents (h ++ ext) m pm.
Proof.
  unfold represents. intros H.
  eapply Forall2_impl; [| exact H].
  intros kl kv [Hk Hl]. split; [exact Hk | apply nth_error_ext, Hl].
Qed.

Lemma represents_bound (h : Heap) (m : LocMap) (pm : EmployeeMap) :
  represents h m pm -> Forall (fun kl => (snd kl < List.length h)%nat) m.
Proof.
  induction 1 as [| kl kv m pm [_ Hl] _ IH]; constructor; [| exact IH].
  apply (proj1 (nth_error_Some h (snd kl))). rewrite Hl. discriminate.
Qed.

Lemma represents_get (h : Heap) (m : LocMap) (pm : EmployeeMap) (k : string) :
  represents h m pm ->
  match locGet m k with
  | Some l =>
      exists v, mapGet pm k = Some v
                /\ nth_error h l = Some (TimecardArray v)
                /\ In l (map snd m)
  | None => mapGet pm k = None
  end.
Proof.
  induction 1 as [| [k1 l1] [k2 v2] m pm [Hk Hl] _ IH]; simpl in *.
  - reflexivity.
  - subst k2. destruct (String.eqb k1 k).
    + exists v2. auto.
    + destruct (locGet m k) as [l |]; [| exact IH].
      destruct IH as [v [Hv [Hn Hin]]]. exists v. auto.
Qed.

Lemma locSet_present (m : LocMap) (k : string) (l : Loc) :
  locGet m k = Some l -> locSet m k l = m.
Proof.
  induction m as [| [k1 l1] m IH]; simpl; [discriminate |].
  destruct (String.eqb k1 k).
  - intros H. injection H as ->. reflexivity.
  - intros H. rewrite IH by exact H. reflexivity.
Qed.

Lemma locSet_absent (m : LocMap) (k : string) (l : Loc) :
  locGet m k = None -> locSet m k l = m ++ [(k, l)].
Proof.
  induction m as [| [k1 l1] m IH]; simpl; [reflexivity |].
  destruct (String.eqb k1 k); [discriminate |].
  intros H. rewrite IH by exact H. reflexivity.
Qed.

Lemma mapSet_absent (pm : EmployeeMap) (k : string) (v : list TimecardEntry) :
  mapGet pm k = None -> mapSet pm k v = pm ++ [(k, v)].
Proof.
  induction pm as [| [k1 v1] pm IH]; simpl; [reflexivity |].
  destruct (String.eqb k1 k); [discriminate |].
  intros H. rewrite IH by exact H. reflexivity.
Qed.

(** Writing through the reference stored under [k] is [mapSet] at [k]. *)
Lemma represents_write (h : Heap) (m : LocMap) (pm : EmployeeMap)
    (k : string) (l : Loc) (v : list TimecardEntry) :
  represents h m pm -> NoDup (map snd m) -> locGet m k = Some l ->
  represents (update l (TimecardArray v) h) m (mapSet pm k v).
Proof.
  unfold represents.
  induction 1 as [| [k1 l1] [k2 v2] m pm [Hk Hl] Hrest IH];
    intros Hnd Hget; simpl in *; [discriminate |].
  subst k2. inversion Hnd as [| ? ? Hnotin Hnd']; subst.
  assert (Hb : Forall (fun kl => (snd kl < List.length h)%nat) m)
    by (eapply represents_bound; exact Hrest).
  destruct (String.eqb k1 k) eqn:Hk1.
  - injection Hget as ->. constructor.
    + split; [reflexivity |]. simpl.
      apply nth_error_update_eq. eapply nth_error_in_range. exact Hl.
    + eapply Forall2_impl_In_left; [| exact Hrest].
      intros kl kv Hin [Hk Hn]. split; [exact Hk |].
      rewrite nth_error_update_ne; [exact Hn | |].
      * eapply nth_error_in_range. exact Hl.
      * intros ->. apply Hnotin. apply in_map. exact Hin.
  - pose proof (represents_get h m pm k Hrest) as Hg. rewrite Hget in Hg.
    destruct Hg as [v0 [_ [Hn0 Hin0]]].
    constructor.
    + split; [reflexivity |]. simpl.
      rewrite nth_error_update_ne; [exact Hl | |].
      * eapply nth_error_in_range. exact Hn0.
      * intros ->. apply Hnotin. exact Hin0.
    + apply IH; assumption.
Qed.

Lemma groupStepM_inv (hb : Heap) (pm : EmployeeMap) (m : LocMap) (h : Heap)
    (e : TimecardEntry) :
  groupInv hb pm m h ->
  exists m' h',
    groupStepM m e h = Some (m', h') /\ groupInv hb (groupStep pm e) m' h'.
Proof.
  intros [[ext Hext] [Hrep [Hnd Hfresh]]].
  pose proof (represents_get h m pm (fileNumber e) Hrep) as Hg.
  unfold groupStepM, groupStep.
  destruct (locGet m (fileNumber e)) as [l |] eqn:Hget.
  - destruct Hg as [v [Hv [Hn Hin]]]. rewrite Hv.
    exists m, (update l (TimecardArray (v ++ [e])) h). split.
    + unfold bind at 1. unfold ret at 1.
      rewrite (bind_run _ _ _ _ _ (push_run h l v e Hn)).
      rewrite locSet_present by exact Hget. reflexivity.
    + assert (Hl : (List.length hb <= l)%nat).
      { apply in_map_iff in Hin. destruct Hin as [kl [<- Hkl]].
        rewrite Forall_forall in Hfresh. apply Hfresh, Hkl. }
      split; [| split; [| split]].
      * subst h. rewrite update_app_fresh by exact Hl. eexists. reflexivity.
      * apply represents_write; assumption.
      * exact Hnd.
      * exact Hfresh.
  - rewrite Hg.
    exists (m ++ [(fileNumber e, List.length h)]),
           (h ++ [TimecardArray ([] ++ [e])]).
    split.
    + unfold bind at 1. unfold alloc at 1.
      rewrite (bind_run _ _ _ _ _
                 (push_run _ _ [] e (nth_error_last h (TimecardArray [])))).
      rewrite update_last, locSet_absent by exact Hget. reflexivity.
    + split; [| split; [| split]].
      * subst h. rewrite <- app_assoc. eexists. reflexivity.
      * rewrite mapSet_absent by exact Hg.
        apply Forall2_app; [apply represents_ext; exact Hrep |].
        constructor; [| constructor].
        split; [reflexivity | apply nth_error_last].
      * rewrite map_app. simpl. apply NoDup_app.
        -- exact Hnd.
        -- constructor; [intros [] | constructor].
        -- intros l Hl [<- | []].
           apply represents_bound in Hrep. rewrite Forall_forall in Hrep.
           apply in_map_iff in Hl. destruct Hl as [kl [Heq Hkl]].
           specialize (Hrep _ Hkl). unfold Loc in *. simpl in Hrep. lia.
      * apply Forall_app. split; [exact Hfresh |].
        constructor; [| constructor]. simpl. subst h.
        rewrite length_app. lia.
Qed.

(** The grouping loop over the array at [d], which lies in the base heap. *)
Lemma groupLoop_run (fuel : nat) (hb : Heap) (d : Loc)
    (dateEntries : list TimecardEntry) :
  nth_error hb d = Some (TimecardArray dateEntries) ->
  (List.length dateEntries < fuel)%nat ->
  exists m ext,
    forOf timecards fuel d 0%nat groupStepM [] hb = Some (m, hb ++ ext)
    /\ represents (hb ++ ext) m (groupByFileNumber dateEntries).
Proof.
  intros Hd Hfuel.
  destruct (forOf_fold timecards d dateEntries groupStepM groupStep
              (groupInv hb)) with
    (n := List.length dateEntries) (i := 0%nat) (fuel := fuel)
    (t := @nil (string * list TimecardEntry)) (s := @nil (string * Loc))
    (h := hb)
    as [m [h' [Hrun [[ext ->] [Hrep _]]]]].
  - intros t s h [[ext ->] _]. apply timecards_run, nth_error_ext, Hd.
  - intros t s h x Hinv. apply groupStepM_inv. exact Hinv.
  - reflexivity.
  - exact Hfuel.
  - split; [exists []; rewrite app_nil_r; reflexivity |].
    split; [constructor |]. split; constructor.
  - exists m, ext. split; [exact Hrun | exact Hrep].
Qed.

(** The loop that turns each group into its gaps only allocates. *)
Lemma gapsLoop_run (m : LocMap) (pm : EmployeeMap) (h : Heap)
    (acc : list TimecardGap) :
  represents h m pm ->
  exists ext,
    forEntries gapsStepM m acc h
    = Some (fold_left
              (fun gaps '(fileNumber, employeeEntries) =>
                 gaps ++ gapsOfSorted fileNumber (sortedEntries employeeEntries))
              pm acc,
            h ++ ext).
Proof.
  revert pm h acc. induction m as [| [k l] m IH]; intros pm h acc Hrep;
    inversion Hrep as [| ? [k' v] ? pm' [Hk Hl] Hrest]; subst; simpl.
  - exists []. rewrite app_nil_r. reflexivity.
  - simpl in Hk, Hl. subst k'.
    set (sorted := sortBy timeInLe (filter hasTimeIn v)).
    set (h1 := h ++ [TimecardArray (filter hasTimeIn v)]).
    set (h2 := h ++ [TimecardArray sorted]).
    assert (Hstep : gapsStepM acc (k, l) h
                    = Some (acc ++ gapsOfSorted k sorted, h2)).
    { unfold gapsStepM.
      rewrite (bind_run _ _ _ _ _ (filterNew_run h l v hasTimeIn Hl)).
      fold h1.
      rewrite (bind_run _ _ _ _ _
                 (sortInPlace_run h1 (List.length h) _ timeInLe
                    (nth_error_last h _))).
      unfold h1. rewrite update_last. fold sorted. fold h2.
      rewrite (bind_run _ _ _ _ _
                 (timecards_run h2 (List.length h) sorted (nth_error_last h _))).
      reflexivity. }
    rewrite (bind_run _ _ _ _ _ Hstep).
    destruct (IH pm' h2 (acc ++ gapsOfSorted k sorted)) as [ext Hrun].
    + apply represents_ext. exact Hrest.
    + exists (TimecardArray sorted :: ext). rewrite Hrun. unfold h2.
      rewrite <- app_assoc. reflexivity.
Qed.

(** [detectTimecardGaps] on the array at [l]: the result is that of the
    function on the array's content, and the heap only grows. *)
Lemma detectTimecardGapsM_run (fuel : nat) (h : Heap) (l : Loc)
    (entries : list TimecardEntry) (date : string) :
  nth_error h l = Some (TimecardArray entries) ->
  (List.length entries < fuel)%nat ->
  exists ext,
    detectTimecardGapsM fuel l date h
    = Some (detectTimecardGaps entries date, h ++ ext).
Proof.
  intros Hl Hfuel. unfold detectTimecardGapsM.
  rewrite (bind_run _ _ _ _ _ (filterNew_run h l entries _ Hl)).
  fold (onDate date entries).
  set (hb := h ++ [TimecardArray (onDate date entries)]).
  destruct (groupLoop_run fuel hb (List.length h) (onDate date entries))
    as [m [ext1 [Hrun Hrep]]].
  - apply nth_error_last.
  - unfold onDate.
    pose proof (filter_length_le
                  (fun e => String.eqb (payDate e) date) entries).
    lia.
  - rewrite (bind_run _ _ _ _ _ Hrun).
    destruct (gapsLoop_run m _ (hb ++ ext1) [] Hrep) as [ext2 Hgaps].
    rewrite Hgaps. unfold hb.
    exists ([TimecardArray (onDate date entries)] ++ ext1 ++ ext2).
    rewrite <- !app_assoc. reflexivity.
Qed.

Variable score : string -> string -> Z.

(** [matchEmployeeByName] on the array of names at [l] only reads it. *)
Lemma matchEmployeeByNameM_run (fuel : nat) (h : Heap) (l : Loc)
    (names : list string) (candidate : string) (threshold : Z) :
  nth_error h l = Some (StringArray names) ->
  (List.length names < fuel)%nat ->
  matchEmployeeByNameM score fuel candidate l threshold h
  = Some (matchEmployeeByName score candidate names threshold, h).
Proof.
  intros Hl Hfuel. unfold matchEmployeeByNameM, matchEmployeeByName.
  set (normalized := normalizeEmployeeName candidate).
  destruct (forOf_fold strings l names
              (fun best name => ret (matchStep score normalized best name))
              (matchStep score normalized)
              (fun t s h' => s = t /\ h' = h))
    with (n := List.length names) (i := 0%nat) (fuel := fuel)
         (t := (@None string, 0)) (s := (@None string, 0)) (h := h)
    as [best [h' [Hrun [-> ->]]]].
  - intros t s h' [_ ->]. apply strings_run, Hl.
  - intros t s h' x [-> ->]. eexists. eexists. split; [reflexivity | auto].
  - reflexivity.
  - exact Hfuel.
  - auto.
  - rewrite (bind_run _ _ _ _ _ Hrun). simpl skipn.
    destruct (fold_left (matchStep score normalized) names (None, 0))
      as [bestMatch bestScore].
    reflexivity.
Qed.

Lemma findBreakEntryM_run (h : Heap) (l : Loc) (sheet : list BreakSheetEntry)
    (matched : option string) :
  nth_error h l = Some (BreakSheetArray sheet) ->
  findBreakEntryM l matched h = Some (findBreakEntry sheet matched, h).
Proof.
  intros Hl. unfold findBreakEntryM, findBreakEntry.
  destruct matched as [name |]; [| reflexivity].
  destruct (truthy name); [| reflexivity].
  rewrite (bind_run _ _ _ _ _ (breaks_run h l sheet Hl)). reflexivity.
Qed.

(** The loop that builds the result rows leaves the heap as it is. *)
Lemma resultsLoop_run (fuel : nat) (gaps : list TimecardGap)
    (sheetLoc namesLoc : Loc) (sheet : list BreakSheetEntry)
    (names : list string) (tolerance : Z) (h : Heap)
    (m : LocMap) (pm : EmployeeMap) (acc : list EmployeeComparisonResult) :
  nth_error h sheetLoc = Some (BreakSheetArray sheet) ->
  nth_error h namesLoc = Some (StringArray names) ->
  (List.length names < fuel)%nat ->
  represents h m pm -> nonEmptyGroups pm ->
  exists rs,
    forEntries (employeeResultM score fuel gaps sheetLoc namesLoc tolerance)
      m acc h = Some (rs, h)
    /\ fold_left
         (fun acc '(fileNumber, entries) =>
            match acc with
            | None => None
            | Some results =>
                match employeeResult score gaps sheet names tolerance
                        fileNumber entries with
                | None => None
                | Some r => Some (results ++ [r])
                end
            end) pm (Some acc) = Some rs.
Proof.
  intros Hsheet Hnames Hfuel Hrep. revert acc.
  induction Hrep as [| [k l] [k' v] m pm [Hk Hl] Hrest IH];
    intros acc Hne; cbn [forEntries fold_left].
  - exists acc. split; reflexivity.
  - simpl in Hk, Hl. subst k'.
    inversion Hne as [| ? ? Hv Hne']; subst. simpl in Hv.
    destruct v as [| first rest]; [contradiction |].
    destruct (employeeResult_total score gaps sheet names tolerance k
                (first :: rest) Hv) as [r Hr].
    assert (Hstep : employeeResultM score fuel gaps sheetLoc namesLoc tolerance
                      acc (k, l) h = Some (acc ++ [r], h)).
    { unfold employeeResultM.
      rewrite (bind_run _ _ _ _ _ (timecards_run h l _ Hl)).
      rewrite (bind_run _ _ _ _ _
                 (matchEmployeeByNameM_run fuel h namesLoc names
                    (payrollName first) defaultThreshold Hnames Hfuel)).
      rewrite (bind_run _ _ _ _ _
                 (findBreakEntryM_run h sheetLoc sheet _ Hsheet)).
      unfold employeeResult in Hr. injection Hr as <-. reflexivity. }
    rewrite (bind_run _ _ _ _ _ Hstep). rewrite Hr.
    apply IH. exact Hne'.
Qed.

Lemma generateDiscrepancyReportM_run (fuel : nat) (now : Date) (h : Heap)
    (timecardLoc sheetLoc : Loc) (timecard : list TimecardEntry)
    (sheet : list BreakSheetEntry) (date : string) (tolerance : Z) :
  nth_error h timecardLoc = Some (TimecardArray timecard) ->
  nth_error h sheetLoc = Some (BreakSheetArray sheet) ->
  (List.length timecard < fuel)%nat ->
  (List.length sheet < fuel)%nat ->
  exists report ext,
    generateDiscrepancyReportM score fuel now timecardLoc sheetLoc date
      tolerance h = Some (report, h ++ ext)
    /\ generateDiscrepancyReport score now timecard sheet date tolerance
       = Some report.
Proof.
  intros Htc Hsheet Hf1 Hf2.
  unfold generateDiscrepancyReportM, generateDiscrepancyReport, buildResults.
  destruct (detectTimecardGapsM_run fuel h timecardLoc timecard date Htc Hf1)
    as [e1 Hdetect].
  rewrite (bind_run _ _ _ _ _ Hdetect).
  set (ha := h ++ e1).
  rewrite (bind_run _ _ _ _ _
             (filterNew_run ha timecardLoc timecard _ (nth_error_ext _ _ _ _ Htc))).
  fold (onDate date timecard).
  set (hb := ha ++ [TimecardArray (onDate date timecard)]).
  destruct (groupLoop_run fuel hb (List.length ha) (onDate date timecard))
    as [m [e2 [Hgroup Hrep]]].
  { apply nth_error_last. }
  { unfold onDate.
    pose proof (filter_length_le
                  (fun e => String.eqb (payDate e) date) timecard).
    lia. }
  rewrite (bind_run _ _ _ _ _ Hgroup).
  set (hc := hb ++ e2).
  assert (Hsheet_c : nth_error hc sheetLoc = Some (BreakSheetArray sheet)).
  { unfold hc, hb, ha. do 3 apply nth_error_ext. exact Hsheet. }
  rewrite (bind_run _ _ _ _ _ (breaks_run hc sheetLoc sheet Hsheet_c)).
  unfold bind at 1. unfold alloc at 1.
  set (hd := hc ++ [StringArray (map driverName sheet)]).
  destruct (resultsLoop_run fuel (detectTimecardGaps timecard date)
              sheetLoc (List.length hc) sheet (map driverName sheet)
              tolerance hd m (groupByFileNumber (onDate date timecard)) [])
    as [rs [Hloop Hpure]].
  { apply nth_error_ext. exact Hsheet_c. }
  { apply nth_error_last. }
  { rewrite length_map. exact Hf2. }
  { apply represents_ext. exact Hrep. }
  { apply groupByFileNumber_nonEmpty. }
  rewrite (bind_run _ _ _ _ _ Hloop). rewrite Hpure.
  eexists. exists (e1 ++ [TimecardArray (onDate date timecard)] ++ e2
                   ++ [StringArray (map driverName sheet)]).
  split; [| reflexivity].
  unfold ret, hd, hc, hb, ha. rewrite <- !app_assoc. reflexivity.
Qed.


End StoreFacts.


(* ================================================================== *)
(** ** Further properties *)
(* ================================================================== *)

(** *** The matcher's result *)

Section MatcherResult.
Variable score : string -> string -> Z.
Variable candidate : string.

Let sc (x : string) : Z :=
  score (normalizeEmployeeName candidate) (normalizeEmployeeName x).

(** The loop of the matcher: its result, whatever the pool. *)
Lemma matchLoop_cases (pool : list string) :
  (Forall (fun y => sc y <= 0) pool
   /\ fold_left (matchStep score (normalizeEmployeeName candidate)) pool (None, 0)
      = (None, 0))
  \/ exists x,
       In x pool /\ 0 < sc x /\ Forall (fun y => sc y <= sc x) pool
       /\ fold_left (matchStep score (normalizeEmployeeName candidate)) pool
            (None, 0) = (Some x, sc x).
Proof.
  unfold sc.
  destruct (pool_best_exists score candidate pool)
    as [Hall | [pre [x [post [-> [Hpos [Hpre Hpost]]]]]]].
  - left. split; [exact Hall |].
    apply (matchStep_keeps score candidate (None, 0) pool). exact Hall.
  - right. exists x. split; [apply in_elt |]. split; [exact Hpos |]. split.
    + apply Forall_app. split.
      * eapply Forall_impl; [| exact Hpre]. simpl. intros; lia.
      * constructor; [lia | exact Hpost].
    + apply matchStep_first_best; assumption.
Qed.

(** X1: the score returned is never negative and no pool entry scores
    higher; a returned match is an entry of the pool, unchanged, whose
    score is the one returned, above 0 and at least the threshold. *)
Theorem matchEmployeeByName_sound (pool : list string) (threshold : Z) :
  let r := matchEmployeeByName score candidate pool threshold in
  0 <= nm_score r
  /\ Forall (fun y => sc y <= nm_score r) pool
  /\ (forall x, nm_match r = Some x ->
        In x pool /\ sc x = nm_score r /\ 0 < nm_score r
        /\ threshold <= nm_score r).
Proof.
  unfold matchEmployeeByName.
  destruct (matchLoop_cases pool) as [[Hall ->] | [x [Hin [Hpos [Hmax ->]]]]].
  - destruct (threshold <=? 0); simpl;
      (split; [lia |]; split; [exact Hall | intros x Hx; discriminate]).
  - destruct (Z.leb_spec threshold (sc x)) as [Hle | Hgt]; simpl.
    + split; [lia |]. split; [exact Hmax |].
      intros y Hy. injection Hy as <-. auto.
    + split; [lia |]. split; [exact Hmax |]. intros y Hy. discriminate.
Qed.

(** X2: the threshold decides only whether the best entry is returned:
    the score does not depend on it, and a match returned under a
    threshold is returned under every lower one. *)
Theorem matchEmployeeByName_threshold (pool : list string) (low high : Z) :
  nm_score (matchEmployeeByName score candidate pool low)
  = nm_score (matchEmployeeByName score candidate pool high)
  /\ (low <= high ->
      forall x,
        nm_match (matchEmployeeByName score candidate pool high) = Some x ->
        nm_match (matchEmployeeByName score candidate pool low) = Some x).
Proof.
  unfold matchEmployeeByName.
  destruct (fold_left (matchStep score (normalizeEmployeeName candidate)) pool
              (None, 0)) as [bestMatch bestScore].
  destruct (Z.leb_spec low bestScore), (Z.leb_spec high bestScore); simpl;
    split; try reflexivity; intros Hle x Hx; try discriminate; try exact Hx.
  lia.
Qed.

End MatcherResult.

(** *** Batch matching ([batchMatchEmployees]) *)

Section BatchFacts.
Import Batch.
Variable score : string -> string -> Z.

Lemma matchGet_matchSet (m : MatchMap) (k k' : string) (v : NameMatchResult) :
  matchGet (matchSet m k v) k'
  = if String.eqb k k' then Some v else matchGet m k'.
Proof.
  induction m as [| [k0 v0] m IH]; simpl.
  - reflexivity.
  - destruct (String.eqb_spec k0 k) as [-> | Hne]; simpl.
    + destruct (String.eqb k k'); reflexivity.
    + rewrite IH.
      destruct (String.eqb_spec k0 k') as [-> | Hne'].
      * destruct (String.eqb_spec k k'); [congruence | reflexivity].
      * reflexivity.
Qed.

Lemma matchSet_keys (m : MatchMap) (k : string) (v : NameMatchResult) :
  map fst (matchSet m k v)
  = if existsb (String.eqb k) (map fst m) then map fst m
    else map fst m ++ [k].
Proof.
  induction m as [| [k0 v0] m IH]; simpl; [reflexivity |].
  rewrite (String.eqb_sym k k0).
  destruct (String.eqb k0 k); simpl; [reflexivity |].
  rewrite IH. destruct (existsb (String.eqb k) (map fst m)); reflexivity.
Qed.

Lemma matchSet_NoDup (m : MatchMap) (k : string) (v : NameMatchResult) :
  NoDup (map fst m) -> NoDup (map fst (matchSet m k v)).
Proof.
  intros Hnd. rewrite matchSet_keys.
  destruct (existsb (String.eqb k) (map fst m)) eqn:He; [exact Hnd |].
  apply NoDup_app; [exact Hnd | repeat constructor; intros [] |].
  intros a Ha [Heq | []]. subst a.
  assert (Ht : existsb (String.eqb k) (map fst m) = true).
  { apply existsb_exists. exists k. split; [exact Ha | apply String.eqb_refl]. }
  congruence.
Qed.

(** X3: in the map built by [batchMatchEmployees] every timecard name is a
    key once, and looking a name up gives the result of
    [matchEmployeeByName] for it when the name was in the list and nothing
    otherwise. *)
Theorem batchMatchEmployees_lookup (timecardNames breakSheetNames : list string)
    (threshold : Z) (name : string) :
  matchGet (batchMatchEmployees score timecardNames breakSheetNames threshold)
    name
  = (if existsb (String.eqb name) timecardNames
     then Some (matchEmployeeByName score name breakSheetNames threshold)
     else None)
  /\ NoDup (map fst (batchMatchEmployees score timecardNames breakSheetNames
                       threshold)).
Proof.
  unfold batchMatchEmployees.
  set (f := fun (matchMap : MatchMap) (timecardName : string) =>
              matchSet matchMap timecardName
                (matchEmployeeByName score timecardName breakSheetNames
                   threshold)).
  assert (H : forall names m,
            NoDup (map fst m) ->
            matchGet (fold_left f names m) name
            = (if existsb (String.eqb name) names
               then Some (matchEmployeeByName score name breakSheetNames
                            threshold)
               else matchGet m name)
            /\ NoDup (map fst (fold_left f names m))).
  { induction names as [| n names IH]; intros m Hnd; simpl.
    - split; [reflexivity | exact Hnd].
    - destruct (IH (f m n) (matchSet_NoDup m n _ Hnd)) as [Hget Hnd'].
      split; [| exact Hnd'].
      rewrite Hget. unfold f. rewrite matchGet_matchSet.
      rewrite (String.eqb_sym name n).
      destruct (String.eqb_spec n name) as [-> | Hne]; simpl.
      + destruct (existsb (String.eqb name) names); reflexivity.
      + reflexivity. }
  destruct (H timecardNames [] (NoDup_nil _)) as [Hget Hnd].
  split; [| exact Hnd].
  rewrite Hget. destruct (existsb (String.eqb name) timecardNames); reflexivity.
Qed.

End BatchFacts.

(** *** The normal form of a name *)

Lemma filterChars_append (keep : ascii -> bool) (s t : string) :
  filterChars keep (s ++ t)%string
  = (filterChars keep s ++ filterChars keep t)%string.
Proof.
  induction s as [| c s IH]; simpl; [reflexivity |].
  rewrite IH. destruct (keep c); reflexivity.
Qed.

Lemma space_is_separator (c : ascii) :
  isSpace c = true -> Spec.isSeparator c = true /\ isQuote c = false.
Proof.
  destruct c as [[|] [|] [|] [|] [|] [|] [|] [|]]; vm_compute; intros H;
    try discriminate H; split; reflexivity.
Qed.

Lemma trimStart_split (s : string) :
  exists sp, s = (sp ++ trimStart s)%string /\ Spec.allChars isSpace sp = true.
Proof.
  induction s as [| c s [sp [Hs Hsp]]].
  - exists EmptyString. auto.
  - simpl. destruct (isSpace c) eqn:Hc.
    + exists (String c sp). simpl. rewrite Hc, Hsp, <- Hs. auto.
    + exists EmptyString. auto.
Qed.

Lemma trimEnd_split (s : string) :
  exists sp, s = (trimEnd s ++ sp)%string /\ Spec.allChars isSpace sp = true.
Proof.
  induction s as [| c s [sp [Hs Hsp]]].
  - exists EmptyString. auto.
  - simpl. destruct (trimEnd s) as [| c' t] eqn:Ht.
    + simpl in Hs. subst s. destruct (isSpace c) eqn:Hc.
      * exists (String c sp). simpl. rewrite Hc, Hsp. auto.
      * exists sp. auto.
    + exists sp. simpl. rewrite Hs at 1. auto.
Qed.

(** White space in front of a text adds no word. *)
Lemma words_leading_spaces (sp s : string) :
  Spec.allChars isSpace sp = true ->
  Spec.words (sp ++ s)%string = Spec.words s.
Proof.
  unfold Spec.words. induction sp as [| c sp IH]; simpl; [reflexivity |].
  intros H. apply andb_true_iff in H. destruct H as [Hc Hsp].
  rewrite (proj1 (space_is_separator c Hc)). simpl. apply IH, Hsp.
Qed.

Lemma splitBy_spaces (sp : string) :
  Spec.allChars isSpace sp = true ->
  exists ps, Spec.splitBy Spec.isSeparator sp = EmptyString :: ps
             /\ filter Spec.nonEmpty ps = [].
Proof.
  induction sp as [| c sp IH]; simpl.
  - exists []. auto.
  - intros H. apply andb_true_iff in H. destruct H as [Hc Hsp].
    rewrite (proj1 (space_is_separator c Hc)).
    destruct (IH Hsp) as [ps [Hps Hf]].
    exists (Spec.splitBy Spec.isSeparator sp). split; [reflexivity |].
    rewrite Hps. simpl. exact Hf.
Qed.

(** White space behind a text adds no word. *)
Lemma splitBy_trailing_spaces (s sp : string) :
  Spec.allChars isSpace sp = true ->
  exists p ps qs,
    Spec.splitBy Spec.isSeparator (s ++ sp)%string = p :: ps
    /\ Spec.splitBy Spec.isSeparator s = p :: qs
    /\ filter Spec.nonEmpty ps = filter Spec.nonEmpty qs.
Proof.
  intros Hsp. induction s as [| c s [p [ps [qs [H1 [H2 H3]]]]]].
  - destruct (splitBy_spaces sp Hsp) as [ps [Hps Hf]].
    exists EmptyString, ps, []. simpl. auto.
  - simpl. rewrite H1, H2. destruct (Spec.isSeparator c).
    + exists EmptyString, (p :: ps), (p :: qs). simpl. rewrite H3. auto.
    + exists (String c p), ps, qs. auto.
Qed.

Lemma words_trailing_spaces (s sp : string) :
  Spec.allChars isSpace sp = true ->
  Spec.words (s ++ sp)%string = Spec.words s.
Proof.
  intros Hsp. unfold Spec.words.
  destruct (splitBy_trailing_spaces s sp Hsp) as [p [ps [qs [H1 [H2 H3]]]]].
  rewrite H1, H2. simpl. rewrite H3. reflexivity.
Qed.

Lemma spaces_keep_unquoted (sp : string) :
  Spec.allChars isSpace sp = true ->
  filterChars (fun c => negb (isQuote c)) sp = sp.
Proof.
  intros H. apply filterChars_all.
  eapply allChars_impl; [| exact H].
  intros c Hc. rewrite (proj2 (space_is_separator c Hc)). reflexivity.
Qed.

(** Trimming a name does not change its words. *)
Lemma words_unquoted_trim (name : string) :
  Spec.words (filterChars (fun c => negb (isQuote c)) (trim name))
  = Spec.words (filterChars (fun c => negb (isQuote c)) name).
Proof.
  unfold trim.
  destruct (trimStart_split name) as [sp1 [H1 Hsp1]].
  destruct (trimEnd_split (trimStart name)) as [sp2 [H2 Hsp2]].
  rewrite H1 at 2. rewrite H2 at 2.
  rewrite !filterChars_append.
  rewrite (spaces_keep_unquoted sp1 Hsp1), (spaces_keep_unquoted sp2 Hsp2).
  rewrite words_leading_spaces by exact Hsp1.
  rewrite words_trailing_spaces by exact Hsp2.
  reflexivity.
Qed.

(** The normal form of a name is made of its words: the name without its
    double quotes is cut at commas and white space alike, each non-empty
    piece is lower-cased and stripped of non-word characters, and the
    pieces are sorted and joined by single spaces. *)
Lemma normalizeEmployeeName_as_words (name : string) :
  normalizeEmployeeName name
  = joinSpace
      (sortStrings
         (map cleanToken
            (Spec.words (filterChars (fun c => negb (isQuote c)) name)))).
Proof.
  destruct (isEmpty name) eqn:He.
  - destruct name; [reflexivity | discriminate].
  - rewrite (normalizeEmployeeName_tokens name He), nameTokens_words.
    rewrite words_unquoted_trim. reflexivity.
Qed.

Lemma splitBy_at_separator (sep : ascii -> bool) (a b : string) (c : ascii) :
  sep c = true ->
  Spec.splitBy sep (a ++ String c b)
  = Spec.splitBy sep a ++ Spec.splitBy sep b.
Proof.
  intros Hc. induction a as [| x a IH]; simpl.
  - rewrite Hc. reflexivity.
  - rewrite IH. destruct (sep x); [reflexivity |].
    destruct (splitBy_cons sep a) as [p [ps ->]]. reflexivity.
Qed.

Lemma words_at_separator (a b : string) (c : ascii) :
  Spec.isSeparator c = true -> isQuote c = false ->
  Spec.words (filterChars (fun c => negb (isQuote c)) (a ++ String c b))
  = Spec.words (filterChars (fun c => negb (isQuote c)) a)
    ++ Spec.words (filterChars (fun c => negb (isQuote c)) b).
Proof.
  intros Hsep Hq. unfold Spec.words.
  rewrite filterChars_append. simpl. rewrite Hq. simpl.
  rewrite (splitBy_at_separator _ _ _ _ Hsep), filter_app. reflexivity.
Qed.

(** X4: a comma and a space separate the parts of a name alike, and white
    space around a name does not count: a name written with a comma, the
    same name written with a space in its place, and either of them with
    white space in front or behind all have the same normal form. *)
Theorem normalizeEmployeeName_comma_or_space (a b sp1 sp2 : string) :
  normalizeEmployeeName (a ++ "," ++ b) = normalizeEmployeeName (a ++ " " ++ b)
  /\ (Spec.allChars isSpace sp1 = true ->
      Spec.allChars isSpace sp2 = true ->
      normalizeEmployeeName (sp1 ++ a ++ sp2) = normalizeEmployeeName a).
Proof.
  split.
  - rewrite !normalizeEmployeeName_as_words.
    change (a ++ "," ++ b)%string with (a ++ String "," b)%string.
    change (a ++ " " ++ b)%string with (a ++ String " " b)%string.
    rewrite !words_at_separator by reflexivity. reflexivity.
  - intros H1 H2. rewrite !normalizeEmployeeName_as_words.
    rewrite !filterChars_append.
    rewrite (spaces_keep_unquoted sp1 H1), (spaces_keep_unquoted sp2 H2).
    rewrite words_leading_spaces by exact H1.
    rewrite words_trailing_spaces by exact H2.
    reflexivity.
Qed.

Lemma lowerChar_facts (c : ascii) :
  lowerChar (lowerChar c) = lowerChar c
  /\ Spec.isSeparator (lowerChar c) = Spec.isSeparator c
  /\ isQuote (lowerChar c) = isQuote c.
Proof.
  destruct c as [[|] [|] [|] [|] [|] [|] [|] [|]]; vm_compute;
    repeat split; reflexivity.
Qed.

Lemma toLowerCase_idempotent (s : string) :
  toLowerCase (toLowerCase s) = toLowerCase s.
Proof.
  induction s as [| c s IH]; simpl; [reflexivity |].
  rewrite IH, (proj1 (lowerChar_facts c)). reflexivity.
Qed.

Lemma filterChars_toLowerCase (s : string) :
  filterChars (fun c => negb (isQuote c)) (toLowerCase s)
  = toLowerCase (filterChars (fun c => negb (isQuote c)) s).
Proof.
  induction s as [| c s IH]; simpl; [reflexivity |].
  rewrite (proj2 (proj2 (lowerChar_facts c))), IH.
  destruct (isQuote c); reflexivity.
Qed.

Lemma splitBy_toLowerCase (s : string) :
  Spec.splitBy Spec.isSeparator (toLowerCase s)
  = map toLowerCase (Spec.splitBy Spec.isSeparator s).
Proof.
  induction s as [| c s IH]; simpl; [reflexivity |].
  rewrite (proj1 (proj2 (lowerChar_facts c))), IH.
  destruct (Spec.isSeparator c); simpl; [reflexivity |].
  destruct (Spec.splitBy Spec.isSeparator s); reflexivity.
Qed.

Lemma words_toLowerCase (s : string) :
  Spec.words (toLowerCase s) = map toLowerCase (Spec.words s).
Proof.
  unfold Spec.words. rewrite splitBy_toLowerCase.
  induction (Spec.splitBy Spec.isSeparator s) as [| p ps IH]; [reflexivity |].
  simpl. rewrite IH. destruct p; reflexivity.
Qed.

(** X5: the normal form ignores case: a name and its lower-cased form
    normalize identically, so two names that differ only in the case of
    their letters do. *)
Theorem normalizeEmployeeName_ignores_case (name other : string) :
  normalizeEmployeeName (toLowerCase name) = normalizeEmployeeName name
  /\ (toLowerCase name = toLowerCase other ->
      normalizeEmployeeName name = normalizeEmployeeName other).
Proof.
  assert (H : forall n,
            normalizeEmployeeName (toLowerCase n) = normalizeEmployeeName n).
  { intros n. rewrite !normalizeEmployeeName_as_words.
    rewrite filterChars_toLowerCase, words_toLowerCase, map_map.
    do 2 f_equal. apply map_ext. intros t. unfold cleanToken.
    rewrite toLowerCase_idempotent. reflexivity. }
  split; [apply H |].
  intros Heq. rewrite <- (H name), <- (H other), Heq. reflexivity.
Qed.

Lemma allChars_joinSpace (p : ascii -> bool) (l : list string) :
  p " "%char = true ->
  Forall (fun t => Spec.allChars p t = true) l ->
  Spec.allChars p (joinSpace l) = true.
Proof.
  intros Hsp. induction 1 as [| t l Ht Hl IH]; [reflexivity |].
  destruct l as [| u l]; [exact Ht |].
  rewrite joinSpace_cons2, allChars_append. simpl.
  rewrite Ht, Hsp, IH. reflexivity.
Qed.

(** X6: a normal form contains nothing but lower-case letters, digits,
    underscores and spaces: no capital, comma, quote or other
    punctuation survives. *)
Theorem normalizeEmployeeName_alphabet (name : string) :
  Spec.allChars Spec.isNormalChar (normalizeEmployeeName name) = true.
Proof.
  rewrite normalizeEmployeeName_as_words.
  apply allChars_joinSpace; [reflexivity |].
  apply Forall_forall. intros t Ht.
  apply (proj1 (sortBy_In String.leb _ t)) in Ht.
  apply in_map_iff in Ht. destruct Ht as [raw [<- _]].
  eapply allChars_impl; [| apply cleanToken_allClean].
  intros c Hc. unfold Spec.isNormalChar. rewrite Hc. reflexivity.
Qed.

(** *** Numbers *)

Lemma toNumber_safe (z : Z) : z < safeLimit -> toNumber z = z.
Proof.
  intros H. unfold toNumber.
  destruct (Z.ltb_spec z safeLimit); [reflexivity | lia].
Qed.

Lemma infinity_pos : 0 < infinity.
Proof. apply Z.pow_pos_nonneg; lia. Qed.

Lemma toNumber_nonneg (z : Z) : 0 <= z -> 0 <= toNumber z.
Proof.
  intros H. unfold toNumber.
  destruct (z <? safeLimit); [exact H |].
  destruct (infinity <=? roundBinary64 z).
  - pose proof infinity_pos. lia.
  - unfold roundBinary64. apply Z.shiftl_nonneg.
    assert (Hq : 0 <= Z.shiftr z (Z.log2 z - 52))
      by (apply Z.shiftr_nonneg; exact H).
    destruct ((_ <? _) || _); lia.
Qed.

Lemma showZ_safe (z : Z) : 0 <= z < safeLimit -> showZ z = decimal z.
Proof.
  intros [H0 H1]. unfold showZ.
  destruct (Z.ltb_spec z 0); [lia |].
  rewrite toNumber_safe by exact H1. unfold numberToString.
  destruct (Z.ltb_spec z safeLimit); [reflexivity | lia].
Qed.

(** Numbers beyond 2^53: what is read is rounded to binary64, and what
    is written has the shortest digits, in exponent form from 10^21 on. *)
Example toNumber_rounds :
  toNumber 9007199254740993 = 9007199254740992
  /\ toNumber 9007199254740995 = 9007199254740996
  /\ toNumber (10 ^ 400) = infinity.
Proof. vm_compute. repeat split. Qed.

Example showZ_beyond_safe :
  showZ 28 = "28"
  /\ showZ (- 13) = "-13"
  /\ showZ (2 ^ 64) = "18446744073709552000"
  /\ showZ (10 ^ 21) = "1e+21"
  /\ showZ (2 ^ 70) = "1.1805916207174113e+21"
  /\ showZ (10 ^ 400) = "Infinity".
Proof. vm_compute. repeat split. Qed.

(** *** Break durations ([parseBreakDuration]) *)

Section DurationFacts.
Import Regex BreakSheet.

Lemma digit_facts (c : ascii) :
  isDigit c = true ->
  isSpace c = false /\ matchesLetter "m" c = false
  /\ 0 <= Z.of_N (code c - 48) <= 9.
Proof.
  destruct c as [[|] [|] [|] [|] [|] [|] [|] [|]]; vm_compute; intros H;
    try discriminate H; repeat split; discriminate.
Qed.

Lemma letter_m_facts (c : ascii) :
  matchesLetter "m" c = true -> isDigit c = false /\ isSpace c = false.
Proof.
  destruct c as [[|] [|] [|] [|] [|] [|] [|] [|]]; vm_compute; intros H;
    try discriminate H; split; reflexivity.
Qed.

Lemma takeDigits_append (digits rest : string) :
  Spec.allChars isDigit digits = true ->
  match rest with String c _ => isDigit c = false | EmptyString => True end ->
  takeDigits (digits ++ rest) = (digits, rest).
Proof.
  intros Hd Hr. induction digits as [| c digits IH]; simpl.
  - destruct rest as [| c rest]; [reflexivity |]. simpl. rewrite Hr. reflexivity.
  - simpl in Hd. apply andb_true_iff in Hd. destruct Hd as [Hc Hd].
    rewrite Hc, (IH Hd). reflexivity.
Qed.

Lemma skipSpaces_append (sp rest : string) :
  Spec.allChars isSpace sp = true ->
  match rest with String c _ => isSpace c = false | EmptyString => True end ->
  skipSpaces (sp ++ rest) = rest.
Proof.
  intros Hs Hr. induction sp as [| c sp IH]; simpl.
  - destruct rest as [| c rest]; [reflexivity |]. simpl. rewrite Hr. reflexivity.
  - simpl in Hs. apply andb_true_iff in Hs. destruct Hs as [Hc Hs].
    rewrite Hc. apply IH, Hs.
Qed.

Lemma durationSearch_skip (pre s : string) :
  Spec.allChars (fun c => negb (isDigit c)) pre = true ->
  durationSearch (pre ++ s) = durationSearch s.
Proof.
  induction pre as [| c pre IH]; simpl; [reflexivity |].
  intros H. apply andb_true_iff in H. destruct H as [Hc Hpre].
  apply negb_true_iff in Hc.
  unfold durationAt. simpl. rewrite Hc. simpl. apply IH, Hpre.
Qed.

Lemma durationSearch_here (s digits : string) :
  durationAt s = Some digits -> durationSearch s = Some digits.
Proof.
  intros H. destruct s; unfold durationSearch; fold durationSearch;
    rewrite H; reflexivity.
Qed.

(** A text with a character that is not white space is not blank. *)
Lemma not_blank (s : string) :
  Spec.allChars isSpace s = false ->
  isEmpty s || isEmpty (trim s) = false.
Proof.
  intros H.
  destruct (isEmpty s) eqn:He; [destruct s; discriminate |].
  destruct (isEmpty (trim s)) eqn:Ht; [| reflexivity].
  exfalso. unfold trim in Ht.
  destruct (trimStart_split s) as [sp1 [H1 Hsp1]].
  destruct (trimEnd_split (trimStart s)) as [sp2 [H2 Hsp2]].
  destruct (trimEnd (trimStart s)); [| discriminate].
  simpl in H2. rewrite H1, H2, allChars_append, Hsp1, Hsp2 in H. discriminate.
Qed.

Lemma allChars_has_other (p : ascii -> bool) (pre s : string) (c : ascii) :
  p c = false -> Spec.allChars p (pre ++ String c s) = false.
Proof.
  intros Hc. rewrite allChars_append. simpl. rewrite Hc.
  rewrite andb_false_r. reflexivity.
Qed.

Lemma startsWithLetters_min (rest : string) :
  startsWithLetters "min" rest = true ->
  unitAt rest = true
  /\ match rest with
     | String c _ => isDigit c = false /\ isSpace c = false
     | EmptyString => True
     end.
Proof.
  intros H. unfold unitAt. rewrite H, orb_true_r. split; [reflexivity |].
  destruct rest as [| c rest]; [exact I |].
  simpl in H. apply andb_true_iff in H. destruct H as [Hc _].
  apply letter_m_facts, Hc.
Qed.

(** The search finds the first number that is followed by a word that
    begins with "min". *)
Lemma durationSearch_reads_number (pre digits sp rest : string) :
  Spec.allChars (fun c => negb (isDigit c)) pre = true ->
  isEmpty digits = false ->
  Spec.allChars isDigit digits = true ->
  Spec.allChars isSpace sp = true ->
  startsWithLetters "min" rest = true ->
  durationSearch (pre ++ digits ++ sp ++ rest) = Some digits
  /\ isEmpty (pre ++ digits ++ sp ++ rest)
     || isEmpty (trim (pre ++ digits ++ sp ++ rest)) = false.
Proof.
  intros Hpre Hne Hd Hsp Hmin.
  destruct (startsWithLetters_min rest Hmin) as [Hunit Hfirst].
  split.
  - rewrite durationSearch_skip by exact Hpre.
    apply durationSearch_here.
    unfold durationAt. rewrite takeDigits_append.
    + rewrite Hne, skipSpaces_append, Hunit; [reflexivity | exact Hsp |].
      destruct rest; [exact I | apply Hfirst].
    + exact Hd.
    + destruct sp as [| c sp]; simpl.
      * destruct rest; [exact I | apply Hfirst].
      * simpl in Hsp. apply andb_true_iff in Hsp. destruct Hsp as [Hc _].
        destruct (isDigit c) eqn:Hdc; [| reflexivity].
        apply digit_facts in Hdc. destruct Hdc as [Hs _]. congruence.
  - apply not_blank. destruct digits as [| c digits]; [discriminate |].
    simpl in Hd. apply andb_true_iff in Hd. destruct Hd as [Hc _].
    apply allChars_has_other. apply digit_facts, Hc.
Qed.

(** X7: a text made of a part without digits, a number below 2^53,
    optional white space and a word that begins with "min" in any case
    (minute, minutes, min, mins, ...) yields that number, unless the text
    mentions "30 and 15". *)
Theorem parseBreakDuration_minutes (pre digits sp rest : string) :
  Spec.allChars (fun c => negb (isDigit c)) pre = true ->
  isEmpty digits = false ->
  Spec.allChars isDigit digits = true ->
  digitsValue 0 digits < safeLimit ->
  Spec.allChars isSpace sp = true ->
  startsWithLetters "min" rest = true ->
  includes "30 and 15" (pre ++ digits ++ sp ++ rest) = false ->
  parseBreakDuration (pre ++ digits ++ sp ++ rest)
  = Some (digitsValue 0 digits).
Proof.
  intros Hpre Hne Hd Hsafe Hsp Hmin Hno.
  destruct (durationSearch_reads_number pre digits sp rest Hpre Hne Hd Hsp Hmin)
    as [Hsearch Hblank].
  unfold parseBreakDuration. rewrite Hblank, Hno, Hsearch.
  unfold parseInt10. rewrite (toNumber_safe _ Hsafe). reflexivity.
Qed.

Lemma parseBreakDuration_minutes_witness :
  parseBreakDuration "took 15 Minutes" = Some 15.
Proof.
  apply (parseBreakDuration_minutes "took " "15" " " "Minutes"); reflexivity.
Defined.

Lemma startsWith_append (pattern rest : string) :
  startsWith pattern (pattern ++ rest) = true.
Proof.
  induction pattern as [| c pattern IH]; simpl; [reflexivity |].
  rewrite Ascii.eqb_refl. exact IH.
Qed.

Lemma includes_append (pattern pre post : string) :
  includes pattern (pre ++ pattern ++ post) = true.
Proof.
  induction pre as [| c pre IH]; simpl.
  - destruct (pattern ++ post)%string eqn:E; simpl;
      rewrite <- E, startsWith_append; reflexivity.
  - rewrite IH. apply orb_true_r.
Qed.

(** X8: a text that contains "30 and 15" yields 45, whatever surrounds
    it, digits and other durations included. *)
Theorem parseBreakDuration_30_and_15 (pre post : string) :
  parseBreakDuration (pre ++ "30 and 15" ++ post) = Some 45.
Proof.
  unfold parseBreakDuration.
  rewrite not_blank, includes_append; [reflexivity |].
  apply (allChars_has_other isSpace pre ("0 and 15" ++ post) "3"). reflexivity.
Qed.

Lemma digitsValue_nonneg (digits : string) (acc : Z) :
  0 <= acc -> 0 <= digitsValue acc digits.
Proof.
  revert acc. induction digits as [| c digits IH]; intros acc Hacc; simpl.
  - exact Hacc.
  - apply IH. lia.
Qed.

Lemma startsWithLetters_shorter (rest : string) :
  startsWithLetters "minute" rest = true -> startsWithLetters "min" rest = true.
Proof.
  destruct rest as [| a [| b [| c rest]]]; simpl; try discriminate;
    try (rewrite ?andb_false_r; discriminate).
  intros H. apply andb_true_iff in H. destruct H as [Ha H].
  apply andb_true_iff in H. destruct H as [Hb H].
  apply andb_true_iff in H. destruct H as [Hc _].
  rewrite Ha, Hb, Hc. reflexivity.
Qed.

Lemma anySuffix_tail (p : string -> bool) (c : ascii) (s : string) :
  Spec.anySuffix p (String c s) = false -> Spec.anySuffix p s = false.
Proof.
  simpl. intros H. apply orb_false_iff in H. apply H.
Qed.

Lemma anySuffix_here (p : string -> bool) (s : string) :
  Spec.anySuffix p s = false -> p s = false.
Proof.
  destruct s; simpl; intros H; apply orb_false_iff in H; apply H.
Qed.

Lemma takeDigits_suffix (p : string -> bool) (s : string) :
  Spec.anySuffix p s = false -> Spec.anySuffix p (snd (takeDigits s)) = false.
Proof.
  induction s as [| c s IH]; intros H; simpl; [exact H |].
  destruct (isDigit c); [| exact H].
  specialize (IH (anySuffix_tail p c s H)).
  destruct (takeDigits s). exact IH.
Qed.

Lemma skipSpaces_suffix (p : string -> bool) (s : string) :
  Spec.anySuffix p s = false -> Spec.anySuffix p (skipSpaces s) = false.
Proof.
  induction s as [| c s IH]; intros H; simpl; [exact H |].
  destruct (isSpace c); [| exact H].
  apply IH, (anySuffix_tail p c s H).
Qed.

Lemma durationSearch_needs_min (text : string) :
  Spec.anySuffix (startsWithLetters "min") text = false ->
  durationSearch text = None.
Proof.
  induction text as [| c text IH]; intros H.
  - reflexivity.
  - assert (Hat : durationAt (String c text) = None).
    { unfold durationAt.
      pose proof (takeDigits_suffix _ _ H) as Hrest.
      destruct (takeDigits (String c text)) as [digits rest]. simpl in Hrest.
      destruct (isEmpty digits); [reflexivity |].
      assert (Hmin : startsWithLetters "min" (skipSpaces rest) = false)
        by (apply anySuffix_here, skipSpaces_suffix, Hrest).
      unfold unitAt.
      destruct (startsWithLetters "minute" (skipSpaces rest)) eqn:Hm.
      - apply startsWithLetters_shorter in Hm. congruence.
      - rewrite Hmin. reflexivity. }
    simpl durationSearch. rewrite Hat. simpl.
    apply IH, (anySuffix_tail _ c text H).
Qed.

Lemma parseBreakDuration_nonneg (text : string) (minutes : Z) :
  parseBreakDuration text = Some minutes -> 0 <= minutes.
Proof.
  unfold parseBreakDuration.
  destruct (isEmpty text || isEmpty (trim text)); [discriminate |].
  destruct (includes "30 and 15" text); [intros H; injection H as <-; lia |].
  destruct (durationSearch text); [| discriminate].
  intros H. injection H as <-.
  apply toNumber_nonneg, digitsValue_nonneg. lia.
Qed.

(** X9: a duration is never negative, and a text that mentions neither
    "min" (in any case) nor "30 and 15" has no duration, whatever numbers
    it holds. *)
Theorem parseBreakDuration_result (text : string) :
  match parseBreakDuration text with
  | Some minutes => 0 <= minutes
  | None => True
  end
  /\ (Spec.anySuffix (startsWithLetters "min") text = false ->
      includes "30 and 15" text = false ->
      parseBreakDuration text = None).
Proof.
  split.
  - destruct (parseBreakDuration text) as [minutes |] eqn:H; [| exact I].
    apply (parseBreakDuration_nonneg text), H.
  - unfold parseBreakDuration.
    intros Hmin Hno. rewrite Hno, (durationSearch_needs_min text Hmin).
    destruct (isEmpty text || isEmpty (trim text)); reflexivity.
Qed.

End DurationFacts.

(** *** Durations written and read back *)

Section DurationRoundTrip.
Import Regex BreakSheet.

Lemma string_of_uint_digits (d : Decimal.uint) :
  Spec.allChars isDigit (NilEmpty.string_of_uint d) = true.
Proof.
  induction d; simpl; try reflexivity; exact IHd.
Qed.

Lemma digitsValue_uint_acc (d : Decimal.uint) (acc : positive) :
  digitsValue (Z.pos acc) (NilEmpty.string_of_uint d)
  = Z.pos (Pos.of_uint_acc d acc).
Proof.
  revert acc.
  induction d; intros acc;
    cbn [NilEmpty.string_of_uint digitsValue Pos.of_uint_acc];
    try reflexivity;
    rewrite <- IHd; f_equal;
    match goal with |- context [Z.of_N ?n] =>
      let v := eval vm_compute in (Z.of_N n) in change (Z.of_N n) with v
    end; lia.
Qed.

Lemma digitsValue_uint (d : Decimal.uint) :
  digitsValue 0 (NilEmpty.string_of_uint d) = Z.of_N (Pos.of_uint d).
Proof.
  induction d; simpl; try reflexivity; try exact IHd;
    apply digitsValue_uint_acc.
Qed.

(** Reading what a number below 2^53 is written as gives the number
    back. *)
Lemma parseInt10_showZ (n : Z) :
  0 <= n < safeLimit ->
  parseInt10 (showZ n) = n
  /\ Spec.allChars isDigit (showZ n) = true
  /\ isEmpty (showZ n) = false.
Proof.
  intros Hn. rewrite (showZ_safe n Hn).
  assert (Hval : digitsValue 0 (decimal n) = n
                 /\ Spec.allChars isDigit (decimal n) = true
                 /\ isEmpty (decimal n) = false);
    [| destruct Hval as [Hval Hrest]; split; [| exact Hrest];
       unfold parseInt10; rewrite Hval; apply toNumber_safe, Hn].
  destruct Hn as [Hn _]. unfold decimal.
  destruct n as [| p | p]; [repeat split | | lia].
  simpl Z.to_int. unfold NilZero.string_of_int, NilZero.string_of_uint.
  pose proof (DecimalPos.Unsigned.to_uint_nonnil p) as Hnil.
  pose proof (DecimalPos.Unsigned.of_to p) as Hof.
  destruct (Pos.to_uint p) eqn:Hd; [contradiction | ..];
    (split; [rewrite digitsValue_uint, Hof; reflexivity |]);
    (split; [apply string_of_uint_digits | reflexivity]).
Qed.

Lemma digit_is_not_space (c : ascii) :
  isDigit c = true -> Ascii.eqb " " c = false.
Proof.
  destruct c as [[|] [|] [|] [|] [|] [|] [|] [|]]; vm_compute; intros H;
    try discriminate H; reflexivity.
Qed.

Lemma startsWith_cons (p c : ascii) (pattern s : string) :
  startsWith (String p pattern) (String c s)
  = Ascii.eqb p c && startsWith pattern s.
Proof. reflexivity. Qed.

Lemma number_mins_has_no_30_and_15 (digits : string) :
  Spec.allChars isDigit digits = true ->
  includes "30 and 15" (digits ++ " mins") = false.
Proof.
  induction digits as [| c digits IH]; intros Hd; [reflexivity |].
  simpl in Hd. apply andb_true_iff in Hd. destruct Hd as [Hc Hd].
  change (includes "30 and 15" (String c digits ++ " mins"))
    with (startsWith "30 and 15" (String c (digits ++ " mins"))
          || includes "30 and 15" (digits ++ " mins")).
  rewrite (IH Hd), orb_false_r.
  destruct digits as [| c2 [| c3 digits]]; cbn [append].
  - rewrite !startsWith_cons.
    change (Ascii.eqb "0" " ") with false.
    rewrite andb_false_r. reflexivity.
  - rewrite !startsWith_cons.
    change (Ascii.eqb "a" "m") with false.
    rewrite !andb_false_r. reflexivity.
  - simpl in Hd. apply andb_true_iff in Hd. destruct Hd as [_ Hd].
    apply andb_true_iff in Hd. destruct Hd as [Hc3 _].
    rewrite !startsWith_cons, (digit_is_not_space c3 Hc3).
    rewrite !andb_false_r. reflexivity.
Qed.

(** A positive number below 2^53 followed by " mins" reads as that
    number. *)
Lemma number_mins_reads_back (n : Z) :
  0 < n < safeLimit -> parseBreakDuration (showZ n ++ " mins") = Some n.
Proof.
  intros Hn.
  destruct (parseInt10_showZ n ltac:(lia)) as [Hval [Hdigits Hne]].
  destruct (durationSearch_reads_number "" (showZ n) " " "mins")
    as [Hsearch Hblank]; try reflexivity; try assumption.
  unfold parseBreakDuration.
  change (showZ n ++ " mins")%string
    with ("" ++ showZ n ++ " " ++ "mins")%string at 1 2 4.
  rewrite Hblank, Hsearch.
  change ("" ++ showZ n ++ " " ++ "mins")%string
    with (showZ n ++ " mins")%string.
  rewrite (number_mins_has_no_30_and_15 _ Hdigits), Hval. reflexivity.
Qed.

(** X10: the "Break Duration" cell of the Excel export reads back as the
    duration it was written from, for a duration below 2^53: a duration
    above 0 is written as "<n> mins", which [parseBreakDuration] reads as
    [n], and an absent duration or a duration of 0 is written as the
    empty text, which reads as no duration. *)
Theorem breakDurationCell_round_trip (n : Z) :
  0 <= n < safeLimit ->
  parseBreakDuration (Page.breakDurationCell (Some n))
  = (if n =? 0 then None else Some n)
  /\ parseBreakDuration (Page.breakDurationCell None) = None.
Proof.
  intros Hn. split; [| reflexivity]. unfold Page.breakDurationCell.
  destruct (Z.eqb_spec n 0) as [-> | Hnz]; [reflexivity |].
  apply number_mins_reads_back. lia.
Qed.

(** Beyond 2^53 a duration need not read back: 17 digits are rounded
    when they are read, and 10^21 is written as "1e+21 mins", which reads
    as 21. *)
Example parseBreakDuration_beyond_safe :
  parseBreakDuration "9007199254740993 minutes" = Some 9007199254740992
  /\ Page.breakDurationCell (Some (10 ^ 21)) = "1e+21 mins"
  /\ parseBreakDuration (Page.breakDurationCell (Some (10 ^ 21))) = Some 21.
Proof. vm_compute. repeat split. Qed.

Lemma breakDurationCell_round_trip_witness :
  parseBreakDuration (Page.breakDurationCell (Some 28)) = Some 28.
Proof.
  apply (proj1 (breakDurationCell_round_trip 28 ltac:(unfold safeLimit; lia))).
Defined.

End DurationRoundTrip.

(** *** Time ranges ([parseTimeRange]) *)

Section RangeFacts.
Import Regex BreakSheet.
Variable parse : string -> string -> Date -> ParseOutcome.

Lemma string_app_nil_r (s : string) : (s ++ "")%string = s.
Proof.
  induction s as [| c s IH]; simpl; [reflexivity | rewrite IH; reflexivity].
Qed.

Lemma clock_chars (c : ascii) :
  (isDigit c = true \/ (code c =? 58)%N = true
   \/ matchesLetter "a" c = true \/ matchesLetter "p" c = true
   \/ matchesLetter "m" c = true) ->
  Spec.isClockChar c = true.
Proof.
  destruct c as [[|] [|] [|] [|] [|] [|] [|] [|]]; vm_compute;
    intros [H | [H | [H | [H | H]]]]; try discriminate H; reflexivity.
Qed.

Lemma meridiemAt_inv (s t r : string) :
  meridiemAt s = Some (t, r) ->
  s = (t ++ r)%string /\ Spec.allChars Spec.isClockChar t = true.
Proof.
  unfold meridiemAt. destruct s as [| a [| m rest]]; try discriminate.
  destruct (matchesLetter "a" a || matchesLetter "p" a) eqn:Ha; [| discriminate].
  destruct (matchesLetter "m" m) eqn:Hm; [| discriminate].
  simpl. intros H. injection H as <- <-. split; [reflexivity |].
  simpl. rewrite (clock_chars m) by auto.
  apply orb_true_iff in Ha.
  rewrite (clock_chars a) by (destruct Ha; auto). reflexivity.
Qed.

Lemma clockTailAt_inv (s t r : string) :
  clockTailAt s = Some (t, r) ->
  s = (t ++ r)%string /\ Spec.allChars Spec.isClockChar t = true.
Proof.
  unfold clockTailAt. destruct s as [| colon [| d1 [| d2 rest]]]; try discriminate.
  destruct ((code colon =? 58)%N) eqn:Hc; [| discriminate].
  destruct (isDigit d1) eqn:H1; [| discriminate].
  destruct (isDigit d2) eqn:H2; [| discriminate]. simpl.
  destruct (meridiemAt rest) as [[mer rest'] |] eqn:Hm; [| discriminate].
  intros H. injection H as <- <-.
  destruct (meridiemAt_inv _ _ _ Hm) as [-> Hall]. split; [reflexivity |].
  simpl. rewrite (clock_chars colon), (clock_chars d1), (clock_chars d2), Hall
    by auto.
  reflexivity.
Qed.

Lemma clockAt2_inv (s t r : string) :
  clockAt2 s = Some (t, r) ->
  s = (t ++ r)%string /\ Spec.allChars Spec.isClockChar t = true
  /\ exists h1 h2 t', t = String h1 (String h2 t')
                      /\ isDigit h1 = true /\ isDigit h2 = true
                      /\ clockTailAt (t' ++ r) = Some (t', r).
Proof.
  unfold clockAt2. destruct s as [| h1 [| h2 rest]]; try discriminate.
  destruct (isDigit h1) eqn:H1; [| discriminate].
  destruct (isDigit h2) eqn:H2; [| discriminate]. simpl.
  destruct (clockTailAt rest) as [[tail rest'] |] eqn:Ht; [| discriminate].
  intros H. injection H as <- <-.
  destruct (clockTailAt_inv _ _ _ Ht) as [Heq Hall]. subst rest.
  split; [reflexivity |]. split.
  - simpl. rewrite (clock_chars h1), (clock_chars h2), Hall by auto. reflexivity.
  - exists h1, h2, tail. auto.
Qed.

Lemma clockAt1_inv (s t r : string) :
  clockAt1 s = Some (t, r) ->
  s = (t ++ r)%string /\ Spec.allChars Spec.isClockChar t = true
  /\ exists h1 t', t = String h1 t' /\ isDigit h1 = true
                   /\ clockTailAt (t' ++ r) = Some (t', r).
Proof.
  unfold clockAt1. destruct s as [| h1 rest]; try discriminate.
  destruct (isDigit h1) eqn:H1; [| discriminate].
  destruct (clockTailAt rest) as [[tail rest'] |] eqn:Ht; [| discriminate].
  intros H. injection H as <- <-.
  destruct (clockTailAt_inv _ _ _ Ht) as [Heq Hall]. subst rest.
  split; [reflexivity |]. split.
  - simpl. rewrite (clock_chars h1), Hall by auto. reflexivity.
  - exists h1, tail. auto.
Qed.

(** What follows a matched tail does not matter to the match. *)
Lemma clockTailAt_append (t r : string) :
  clockTailAt t = Some (t, EmptyString) -> clockTailAt (t ++ r) = Some (t, r).
Proof.
  unfold clockTailAt, meridiemAt.
  destruct t as [| colon [| d1 [| d2 [| a [| m rest]]]]]; try discriminate;
    simpl.
  - destruct ((code colon =? 58)%N && isDigit d1 && isDigit d2); discriminate.
  - destruct ((code colon =? 58)%N && isDigit d1 && isDigit d2); discriminate.
  - destruct ((code colon =? 58)%N && isDigit d1 && isDigit d2); [| discriminate].
    destruct ((matchesLetter "a" a || matchesLetter "p" a)
              && matchesLetter "m" m); [| discriminate].
    intros H. injection H as <-. reflexivity.
Qed.

Lemma clockText_cases (clock rest : string) :
  Spec.clockText clock ->
  Spec.allChars Spec.isClockChar clock = true
  /\ (exists c tail, clock = String c tail /\ isDigit c = true)
  /\ (clockAt2 (clock ++ rest) = Some (clock, rest)
      \/ (clockAt2 (clock ++ rest) = None
          /\ clockAt1 (clock ++ rest) = Some (clock, rest))).
Proof.
  intros [H | H].
  - destruct (clockAt2_inv _ _ _ H) as [_ [Hall [h1 [h2 [t' [Ht [H1 [H2 Htail]]]]]]]].
    split; [exact Hall |]. split; [exists h1, (String h2 t'); auto |].
    left. subst clock. rewrite string_app_nil_r in Htail.
    unfold clockAt2. simpl. rewrite H1, H2. simpl.
    rewrite (clockTailAt_append t' rest Htail). reflexivity.
  - destruct (clockAt1_inv _ _ _ H) as [_ [Hall [h1 [t' [Ht [H1 Htail]]]]]].
    split; [exact Hall |]. split; [exists h1, t'; auto |].
    right. subst clock. rewrite string_app_nil_r in Htail.
    pose proof (clockTailAt_append t' rest Htail) as Happ.
    split.
    + unfold clockAt2. simpl.
      destruct t' as [| colon t'']; [discriminate Htail |].
      simpl. rewrite H1.
      assert (Hcolon : isDigit colon = false).
      { unfold clockTailAt in Htail.
        destruct t'' as [| d1 [| d2 r]]; try discriminate Htail.
        destruct ((code colon =? 58)%N) eqn:Hc; [| discriminate Htail].
        clear - Hc.
        destruct colon as [[|] [|] [|] [|] [|] [|] [|] [|]];
          vm_compute in Hc; try discriminate Hc; reflexivity. }
      rewrite Hcolon. reflexivity.
    + unfold clockAt1. simpl. rewrite H1, Happ. reflexivity.
Qed.

End RangeFacts.

Section RangeTheorems.
Import Regex BreakSheet.
Variable parse : string -> string -> Date -> ParseOutcome.

Lemma string_app_assoc (a b c : string) :
  ((a ++ b) ++ c)%string = (a ++ b ++ c)%string.
Proof.
  induction a as [| x a IH]; simpl; [reflexivity | rewrite IH; reflexivity].
Qed.

Lemma rangeSearch_here (s : string) (r : string * string) :
  rangeAt s = Some r -> rangeSearch s = Some r.
Proof.
  intros H. destruct s; unfold rangeSearch; fold rangeSearch;
    rewrite H; reflexivity.
Qed.

Lemma annotationSearch_skip (pre s : string) :
  Spec.allChars (fun c => negb (code c =? 40)%N) pre = true ->
  annotationSearch (pre ++ s) = annotationSearch s.
Proof.
  induction pre as [| c pre IH]; simpl; [reflexivity |].
  intros H. apply andb_true_iff in H. destruct H as [Hc Hpre].
  apply negb_true_iff in Hc. rewrite Hc. simpl. apply IH, Hpre.
Qed.

Lemma clockChar_facts (c : ascii) :
  Spec.isClockChar c = true ->
  negb (code c =? 40)%N = true /\ negb (code c =? 45)%N = true.
Proof.
  unfold Spec.isClockChar. intros H.
  apply andb_true_iff in H. destruct H as [H H40].
  apply andb_true_iff in H. destruct H as [_ H45]. auto.
Qed.

Lemma space_char_facts (c : ascii) :
  isSpace c = true ->
  negb (code c =? 40)%N = true /\ (code c =? 45)%N = false.
Proof.
  destruct c as [[|] [|] [|] [|] [|] [|] [|] [|]]; vm_compute; intros H;
    try discriminate H; split; reflexivity.
Qed.

Lemma clockThen_clock {A : Type} (clock rest : string)
    (k : string -> string -> option A) (result : A) :
  Spec.clockText clock ->
  k clock rest = Some result ->
  clockThen (clock ++ rest) k = Some result.
Proof.
  intros Hclock Hk. unfold clockThen.
  destruct (clockText_cases clock rest Hclock) as [_ [_ [H2 | [H2 H1]]]].
  - rewrite H2, Hk. reflexivity.
  - rewrite H2, H1, Hk. reflexivity.
Qed.

Lemma clock_head_not_space (clock rest : string) :
  Spec.clockText clock ->
  match (clock ++ rest)%string with
  | String c _ => isSpace c = false
  | EmptyString => True
  end.
Proof.
  intros Hclock.
  destruct (clockText_cases clock rest Hclock) as [_ [[c [tail [-> Hc]]] _]].
  simpl. apply digit_facts, Hc.
Qed.

(** X11: a text that starts with a clock time, a hyphen and a second
    clock time, with any white space around the hyphen, yields a range
    whose start and end are the two clock times as [parseTimeString] reads
    them, whatever their case and whether the hour has one digit or two;
    the actual minutes are the number written in the first "(<digits>m)"
    that follows, if there is one; that number is taken below 2^53. *)
Theorem parseTimeRange_format (referenceDate : Date)
    (first sp1 sp2 second rest : string) :
  Spec.clockText first ->
  Spec.clockText second ->
  Spec.allChars isSpace sp1 = true ->
  Spec.allChars isSpace sp2 = true ->
  (forall digits,
     annotationSearch rest = Some digits -> digitsValue 0 digits < safeLimit) ->
  parseTimeRange parse (first ++ sp1 ++ "-" ++ sp2 ++ second ++ rest)
    referenceDate
  = Some {| range_start := parseTimeString parse (Some first) referenceDate;
            range_end := parseTimeString parse (Some second) referenceDate;
            actualMinutes :=
              match annotationSearch rest with
              | Some digits => Some (digitsValue 0 digits)
              | None => None
              end |}.
Proof.
  intros H1 H2 Hsp1 Hsp2 Hsafe.
  set (text := (first ++ sp1 ++ "-" ++ sp2 ++ second ++ rest)%string).
  destruct (clockText_cases first EmptyString H1) as [Hall1 [[c [tail [Hc1 Hd]]] _]].
  destruct (clockText_cases second EmptyString H2) as [Hall2 _].
  unfold parseTimeRange.
  assert (Hblank : isEmpty text || isEmpty (trim text) = false).
  { apply not_blank. unfold text. rewrite Hc1. simpl.
    rewrite (proj1 (digit_facts c Hd)). reflexivity. }
  assert (Hrange : rangeSearch text = Some (first, second)).
  { apply rangeSearch_here. unfold rangeAt, text.
    apply clockThen_clock; [exact H1 |].
    assert (Hdash : dashAt (sp1 ++ "-" ++ sp2 ++ second ++ rest)
                    = Some (second ++ rest)%string).
    { unfold dashAt. rewrite skipSpaces_append; [| exact Hsp1 | reflexivity].
      simpl. rewrite skipSpaces_append; [reflexivity | exact Hsp2 |].
      apply clock_head_not_space, H2. }
    rewrite Hdash. apply clockThen_clock; [exact H2 | reflexivity]. }
  assert (Hann : annotationSearch text = annotationSearch rest).
  { unfold text.
    replace (first ++ sp1 ++ "-" ++ sp2 ++ second ++ rest)%string
      with ((first ++ sp1 ++ "-" ++ sp2 ++ second) ++ rest)%string
      by (rewrite !string_app_assoc; reflexivity).
    apply annotationSearch_skip.
    rewrite !allChars_append. simpl.
    rewrite (allChars_impl _ _ first (fun c H => proj1 (clockChar_facts c H)) Hall1).
    rewrite (allChars_impl _ _ second (fun c H => proj1 (clockChar_facts c H)) Hall2).
    rewrite (allChars_impl _ _ sp1 (fun c H => proj1 (space_char_facts c H)) Hsp1).
    rewrite (allChars_impl _ _ sp2 (fun c H => proj1 (space_char_facts c H)) Hsp2).
    reflexivity. }
  rewrite Hblank, Hrange, Hann.
  destruct (annotationSearch rest) as [digits |]; [| reflexivity].
  unfold parseInt10. rewrite (toNumber_safe _ (Hsafe digits eq_refl)).
  reflexivity.
Qed.

Lemma dashAt_needs_hyphen (s : string) :
  Spec.allChars (fun c => negb (code c =? 45)%N) s = true -> dashAt s = None.
Proof.
  unfold dashAt. induction s as [| c s IH]; simpl; [reflexivity |].
  intros H. apply andb_true_iff in H. destruct H as [Hc Hs].
  destruct (isSpace c); [apply IH, Hs |].
  apply negb_true_iff in Hc. rewrite Hc. reflexivity.
Qed.

Lemma rangeAt_needs_hyphen (s : string) :
  Spec.allChars (fun c => negb (code c =? 45)%N) s = true -> rangeAt s = None.
Proof.
  intros H. unfold rangeAt, clockThen.
  assert (Hk : forall t r, s = (t ++ r)%string -> dashAt r = None).
  { intros t r Heq. apply dashAt_needs_hyphen.
    rewrite Heq, allChars_append in H.
    apply andb_true_iff in H. apply H. }
  destruct (clockAt2 s) as [[t r] |] eqn:H2.
  - rewrite (Hk t r (proj1 (clockAt2_inv _ _ _ H2))). simpl.
    destruct (clockAt1 s) as [[t' r'] |] eqn:H1; [| reflexivity].
    rewrite (Hk t' r' (proj1 (clockAt1_inv _ _ _ H1))). reflexivity.
  - simpl. destruct (clockAt1 s) as [[t' r'] |] eqn:H1; [| reflexivity].
    rewrite (Hk t' r' (proj1 (clockAt1_inv _ _ _ H1))). reflexivity.
Qed.

(** X12: a text without a hyphen has no time range, even when it holds
    two clock times and a "(<digits>m)" annotation. *)
Theorem parseTimeRange_needs_hyphen (referenceDate : Date) (text : string) :
  Spec.allChars (fun c => negb (code c =? 45)%N) text = true ->
  parseTimeRange parse text referenceDate = None.
Proof.
  intros H. unfold parseTimeRange.
  assert (Hnone : rangeSearch text = None).
  { induction text as [| c text IH].
    - reflexivity.
    - unfold rangeSearch; fold rangeSearch.
      rewrite (rangeAt_needs_hyphen _ H). simpl.
      simpl in H. apply andb_true_iff in H. apply IH, H. }
  rewrite Hnone. destruct (isEmpty text || isEmpty (trim text)); reflexivity.
Qed.

End RangeTheorems.

Lemma parseTimeRange_format_witness :
  BreakSheet.parseTimeRange (fun _ _ _ => InvalidDate) "12:45PM  -1:13pm (28m)" 0
  = Some (mkTimeRange None None (Some 28)).
Proof.
  apply (parseTimeRange_format (fun _ _ _ => InvalidDate) 0 "12:45PM" "  " "" "1:13pm" " (28m)").
  - left. reflexivity.
  - right. reflexivity.
  - reflexivity.
  - reflexivity.
  - intros digits H. vm_compute in H. injection H as <-. reflexivity.
Defined.

Lemma parseTimeRange_needs_hyphen_witness :
  BreakSheet.parseTimeRange (fun _ _ _ => InvalidDate) "12:45pm to 1:13pm (28m)" 0 = None.
Proof.
  apply (parseTimeRange_needs_hyphen (fun _ _ _ => InvalidDate)). reflexivity.
Defined.

(** *** Trimmed cells *)

Lemma trimEnd_idempotent (s : string) : trimEnd (trimEnd s) = trimEnd s.
Proof.
  induction s as [| c s IH]; [reflexivity |].
  simpl. destruct (trimEnd s) as [| c' t] eqn:Ht.
  - destruct (isSpace c) eqn:Hc; simpl; [reflexivity |].
    rewrite Hc. reflexivity.
  - change (trimEnd (String c (String c' t)))
      with (match trimEnd (String c' t) with
            | EmptyString =>
                if isSpace c then EmptyString else String c EmptyString
            | t0 => String c t0
            end).
    rewrite IH. reflexivity.
Qed.

Lemma trimStart_head (s : string) :
  match trimStart s with
  | String c _ => isSpace c = false
  | EmptyString => True
  end.
Proof.
  induction s as [| c s IH]; simpl; [exact I |].
  destruct (isSpace c) eqn:Hc; [exact IH | exact Hc].
Qed.

Lemma trimEnd_head (c : ascii) (s : string) :
  isSpace c = false -> exists r, trimEnd (String c s) = String c r.
Proof.
  intros Hc. simpl. destruct (trimEnd s); rewrite ?Hc; eexists; reflexivity.
Qed.

Lemma trim_head (s : string) :
  match trim s with
  | String c _ => isSpace c = false
  | EmptyString => True
  end.
Proof.
  unfold trim. pose proof (trimStart_head s) as H.
  destruct (trimStart s) as [| c t]; [exact I |].
  destruct (trimEnd_head c t H) as [r ->]. exact H.
Qed.

(** Trimming a trimmed text changes nothing. *)
Lemma trim_idempotent (s : string) : trim (trim s) = trim s.
Proof.
  pose proof (trim_head s) as H. unfold trim at 1.
  assert (Hstart : trimStart (trim s) = trim s).
  { destruct (trim s) as [| c t]; [reflexivity |]. simpl. rewrite H. reflexivity. }
  rewrite Hstart. unfold trim. apply trimEnd_idempotent.
Qed.

(** *** Break-sheet ingestion ([parseBreakSheetCSV]) *)

Section BreakSheetFacts.
Import Regex BreakSheet.
Variable parse : string -> string -> Date -> ParseOutcome.

Lemma parseTimeRange_minutes_nonneg (text : string) (referenceDate : Date)
    (range : TimeRange) (m : Z) :
  parseTimeRange parse text referenceDate = Some range ->
  actualMinutes range = Some m -> 0 <= m.
Proof.
  unfold parseTimeRange.
  destruct (isEmpty text || isEmpty (trim text)); [discriminate |].
  destruct (rangeSearch text) as [[first second] |]; [| discriminate].
  intros H. injection H as <-. simpl.
  destruct (annotationSearch text); [| discriminate].
  intros H. injection H as <-.
  apply toNumber_nonneg, digitsValue_nonneg. lia.
Qed.

Lemma breakSheetRows_from (now : Date) (rows : list (list string))
    (acc : list BreakSheetEntry) :
  fold_left
    (fun entries row =>
       match breakSheetRow parse now row with
       | None => entries
       | Some e => entries ++ [e]
       end) rows acc
  = acc ++ flat_map
             (fun row =>
                match breakSheetRow parse now row with
                | None => []
                | Some e => [e]
                end) rows.
Proof.
  revert acc. induction rows as [| row rows IH]; intros acc; simpl.
  - rewrite app_nil_r. reflexivity.
  - rewrite IH. destruct (breakSheetRow parse now row); simpl.
    + rewrite <- app_assoc. reflexivity.
    + reflexivity.
Qed.

Lemma flat_map_at_most_one {A B} (f : A -> list B) (l : list A) :
  (forall x, (List.length (f x) <= 1)%nat) ->
  (List.length (flat_map f l) <= List.length l)%nat.
Proof.
  intros Hf. induction l as [| x l IH]; simpl; [lia |].
  rewrite length_app. specialize (Hf x). lia.
Qed.

Lemma parseBreakSheetRows_flat_map (now : Date) (rows : list (list string)) :
  parseBreakSheetRows parse now rows
  = flat_map
      (fun row =>
         match breakSheetRow parse now row with
         | None => []
         | Some e => [e]
         end) (skipn 2 rows).
Proof.
  unfold parseBreakSheetRows. apply (breakSheetRows_from now _ []).
Qed.

(** What holds of every entry read from a break sheet. *)
Lemma parseBreakSheetRows_entry (now : Date) (rows : list (list string))
    (e : BreakSheetEntry) :
  In e (parseBreakSheetRows parse now rows) ->
  isEmpty (driverName e) = false
  /\ trim (driverName e) = driverName e
  /\ (forall d, breakDuration e = Some d -> 0 <= d)
  /\ (forall range m,
        breakTimeRange e = Some range -> actualMinutes range = Some m ->
        0 <= m).
Proof.
  rewrite parseBreakSheetRows_flat_map. intros He.
  apply in_flat_map in He.
  destruct He as [row [_ He]]. unfold breakSheetRow in He.
  destruct (isEmpty (trimmedCell row 0)) eqn:Hname; [destruct He |].
  destruct He as [<- | []]. simpl.
  split; [exact Hname |]. split.
  - unfold trimmedCell. destruct (nth_error row 0); [| reflexivity].
    apply trim_idempotent.
  - split.
    + intros d Hd. apply (parseBreakDuration_nonneg _ _ Hd).
    + intros range m Hr Hm.
      eapply parseTimeRange_minutes_nonneg; eassumption.
Qed.

(** X13: the break-sheet entries are those of the rows after the first
    two, in order; whatever the first two rows hold, they give no entry.
    Every entry has a driver name that is not empty and has no white
    space around it, and its declared duration and its actual minutes,
    when present, are not negative. *)
Theorem parseBreakSheetRows_entries (now : Date) (rows : list (list string)) :
  let entries := parseBreakSheetRows parse now rows in
  entries
  = flat_map
      (fun row =>
         match breakSheetRow parse now row with
         | None => []
         | Some e => [e]
         end) (skipn 2 rows)
  /\ (List.length entries <= List.length rows - 2)%nat
  /\ Forall
       (fun e =>
          isEmpty (driverName e) = false
          /\ trim (driverName e) = driverName e
          /\ (forall d, breakDuration e = Some d -> 0 <= d)
          /\ (forall range m,
                breakTimeRange e = Some range ->
                actualMinutes range = Some m -> 0 <= m))
       entries.
Proof.
  cbv zeta. split; [apply parseBreakSheetRows_flat_map |]. split.
  - rewrite parseBreakSheetRows_flat_map, <- length_skipn.
    apply flat_map_at_most_one.
    intros row. destruct (breakSheetRow parse now row); simpl; lia.
  - apply Forall_forall. intros e. apply parseBreakSheetRows_entry.
Qed.

End BreakSheetFacts.

(** *** The employee map ([groupByFileNumber]), in full *)

Lemma mapGet_mapSet (m : EmployeeMap) (k k' : string) (v : list TimecardEntry) :
  mapGet (mapSet m k v) k'
  = if String.eqb k k' then Some v else mapGet m k'.
Proof.
  induction m as [| [k0 v0] m IH]; simpl; [reflexivity |].
  destruct (String.eqb_spec k0 k) as [-> | Hne]; simpl.
  - destruct (String.eqb k k'); reflexivity.
  - rewrite IH. destruct (String.eqb_spec k0 k') as [-> | Hne'];
      [| reflexivity].
    destruct (String.eqb_spec k k'); [congruence | reflexivity].
Qed.

Lemma mapGet_absent (m : EmployeeMap) (k : string) :
  mapGet m k = None <-> ~ In k (map fst m).
Proof.
  induction m as [| [k0 v0] m IH]; simpl; [tauto |].
  destruct (String.eqb_spec k0 k) as [-> | Hne].
  - split; [discriminate | intros H; exfalso; apply H; left; reflexivity].
  - rewrite IH. tauto.
Qed.

Lemma mapSet_keys (m : EmployeeMap) (k : string) (v : list TimecardEntry) :
  map fst (mapSet m k v)
  = match mapGet m k with
    | Some _ => map fst m
    | None => map fst m ++ [k]
    end.
Proof.
  induction m as [| [k0 v0] m IH]; simpl; [reflexivity |].
  destruct (String.eqb k0 k); simpl; [reflexivity |].
  rewrite IH. destruct (mapGet m k); reflexivity.
Qed.

Lemma mapSet_distinct_keys (m : EmployeeMap) (k : string)
    (v : list TimecardEntry) :
  NoDup (map fst m) -> NoDup (map fst (mapSet m k v)).
Proof.
  intros Hnd. rewrite mapSet_keys.
  destruct (mapGet m k) eqn:Hget; [exact Hnd |].
  apply mapGet_absent in Hget.
  apply NoDup_app; [exact Hnd | repeat constructor; intros [] |].
  intros a Ha [Heq | []]. subst a. contradiction.
Qed.

Lemma mapGet_of_In (m : EmployeeMap) (k : string) (v : list TimecardEntry) :
  NoDup (map fst m) -> In (k, v) m -> mapGet m k = Some v.
Proof.
  induction m as [| [k0 v0] m IH]; simpl; [intros _ [] |].
  intros Hnd Hin. inversion Hnd as [| ? ? Hnot Hnd']; subst.
  destruct Hin as [Heq | Hin].
  - injection Heq as -> ->. rewrite String.eqb_refl. reflexivity.
  - destruct (String.eqb_spec k0 k) as [-> | Hne]; [| apply IH; assumption].
    exfalso. apply Hnot. apply (in_map fst) in Hin. exact Hin.
Qed.

(** The state of the grouping loop after the entries [seen]: the keys are
    distinct and each file number leads to the entries seen that carry
    it, in their order, unless there is none. *)
Lemma fold_groupStep_lookup (rest seen : list TimecardEntry) (m : EmployeeMap) :
  NoDup (map fst m) ->
  (forall k,
     mapGet m k
     = match filter (fun e => String.eqb (fileNumber e) k) seen with
       | [] => None
       | grp => Some grp
       end) ->
  NoDup (map fst (fold_left groupStep rest m))
  /\ (forall k,
        mapGet (fold_left groupStep rest m) k
        = match filter (fun e => String.eqb (fileNumber e) k) (seen ++ rest) with
          | [] => None
          | grp => Some grp
          end).
Proof.
  revert seen m. induction rest as [| e rest IH]; intros seen m Hnd Hget; simpl.
  - rewrite app_nil_r. split; assumption.
  - replace (seen ++ e :: rest) with ((seen ++ [e]) ++ rest)
      by (rewrite <- app_assoc; reflexivity).
    apply IH; [apply mapSet_distinct_keys, Hnd |].
    intros k. unfold groupStep. rewrite mapGet_mapSet, filter_app. simpl.
    destruct (String.eqb_spec (fileNumber e) k) as [<- | Hne].
    + rewrite Hget.
      destruct (filter (fun e0 => String.eqb (fileNumber e0) (fileNumber e)) seen);
        reflexivity.
    + rewrite app_nil_r. apply Hget.
Qed.

Lemma groupByFileNumber_lookup (dateEntries : list TimecardEntry) :
  NoDup (map fst (groupByFileNumber dateEntries))
  /\ (forall k,
        mapGet (groupByFileNumber dateEntries) k
        = match filter (fun e => String.eqb (fileNumber e) k) dateEntries with
          | [] => None
          | grp => Some grp
          end).
Proof.
  apply (fold_groupStep_lookup dateEntries [] []); [constructor | reflexivity].
Qed.

Lemma groupByFileNumber_In (dateEntries : list TimecardEntry) (k : string)
    (grp : list TimecardEntry) :
  In (k, grp) (groupByFileNumber dateEntries)
  <-> grp <> []
      /\ grp = filter (fun e => String.eqb (fileNumber e) k) dateEntries.
Proof.
  destruct (groupByFileNumber_lookup dateEntries) as [Hnd Hget].
  specialize (Hget k). split.
  - intros Hin. apply (mapGet_of_In _ _ _ Hnd) in Hin. rewrite Hin in Hget.
    destruct (filter (fun e => String.eqb (fileNumber e) k) dateEntries);
      [discriminate |].
    injection Hget as ->. split; [discriminate | reflexivity].
  - intros [Hne ->]. apply mapGet_In. rewrite Hget.
    destruct (filter (fun e => String.eqb (fileNumber e) k) dateEntries);
      [contradiction | reflexivity].
Qed.

Lemma groupByFileNumber_covers (dateEntries : list TimecardEntry)
    (e : TimecardEntry) :
  In e dateEntries ->
  exists grp, In (fileNumber e, grp) (groupByFileNumber dateEntries) /\ In e grp.
Proof.
  intros He.
  exists (filter (fun x => String.eqb (fileNumber x) (fileNumber e)) dateEntries).
  assert (Hin : In e (filter (fun x => String.eqb (fileNumber x) (fileNumber e))
                        dateEntries)).
  { apply filter_In. split; [exact He | apply String.eqb_refl]. }
  split; [| exact Hin].
  apply groupByFileNumber_In. split; [| reflexivity].
  intros Hnil. rewrite Hnil in Hin. destruct Hin.
Qed.

(** X14: the employee map has one key per file number that occurs, and
    the group of a file number is made of all the entries that carry it,
    in the order of the input; no group is empty, and every entry is in
    the group of its file number. *)
Theorem groupByFileNumber_groups (dateEntries : list TimecardEntry) :
  let employeeMap := groupByFileNumber dateEntries in
  NoDup (map fst employeeMap)
  /\ (forall k grp,
        In (k, grp) employeeMap
        <-> grp <> []
            /\ grp = filter (fun e => String.eqb (fileNumber e) k) dateEntries)
  /\ (forall e,
        In e dateEntries ->
        exists grp, In (fileNumber e, grp) employeeMap /\ In e grp).
Proof.
  cbv zeta. split; [apply groupByFileNumber_lookup |].
  split; [apply groupByFileNumber_In | apply groupByFileNumber_covers].
Qed.

(** *** The rows of the report *)

Section ReportRows.
Variable score : string -> string -> Z.

Lemma generateDiscrepancyReport_rows now timecard sheet date tolerance :
  exists rs,
    generateDiscrepancyReport score now timecard sheet date tolerance
    = Some (mkReport date now (summarize rs) rs)
    /\ Forall2
         (fun kv r =>
            employeeResult score (detectTimecardGaps timecard date) sheet
              (map driverName sheet) tolerance (fst kv) (snd kv) = Some r)
         (groupByFileNumber (onDate date timecard)) rs.
Proof.
  unfold generateDiscrepancyReport.
  destruct (buildResults_total score (detectTimecardGaps timecard date) sheet
              (map driverName sheet) tolerance
              (groupByFileNumber (onDate date timecard))
              (groupByFileNumber_nonEmpty _)) as [rs [Hrs Hall]].
  exists rs. rewrite Hrs. split; [reflexivity | exact Hall].
Qed.

Lemma Forall2_map_eq {A B C} (f : A -> C) (g : B -> C) (R : A -> B -> Prop)
    (l : list A) (l' : list B) :
  (forall a b, R a b -> f a = g b) -> Forall2 R l l' -> map f l = map g l'.
Proof.
  intros HR H. induction H as [| x y l l' Hxy _ IH]; simpl; [reflexivity |].
  rewrite IH, (HR _ _ Hxy). reflexivity.
Qed.

(** X15: the report has exactly one row per file number that has an entry
    on the target date.  The row's employee name is the payroll name of
    the first such entry in the timecard, and its total shift hours are
    the sum of the hours of all such entries, in the order of the
    timecard. *)
Theorem report_has_one_row_per_employee now timecard sheet date tolerance :
  exists report,
    generateDiscrepancyReport score now timecard sheet date tolerance
    = Some report
    /\ NoDup (map res_fileNumber (results report))
    /\ (forall e,
          In e timecard -> payDate e = date ->
          In (fileNumber e) (map res_fileNumber (results report)))
    /\ Forall
         (fun r =>
            exists first rest,
              filter (fun e => String.eqb (fileNumber e) (res_fileNumber r))
                (onDate date timecard) = first :: rest
              /\ res_employeeName r = payrollName first
              /\ totalShiftHours r = sumHours (first :: rest))
         (results report).
Proof.
  destruct (generateDiscrepancyReport_rows now timecard sheet date tolerance)
    as [rs [Hgen Hrows]].
  assert (Hkeys : map fst (groupByFileNumber (onDate date timecard))
                  = map res_fileNumber rs).
  { eapply Forall2_map_eq; [| exact Hrows].
    intros [k v] r Hr. apply employeeResult_classified in Hr.
    symmetry. apply Hr. }
  eexists. split; [exact Hgen |]. simpl.
  split; [rewrite <- Hkeys; apply groupByFileNumber_lookup |].
  split.
  - intros e He Hd. rewrite <- Hkeys.
    assert (Hon : In e (onDate date timecard)).
    { apply filter_In. split; [exact He | apply String.eqb_eq, Hd]. }
    destruct (groupByFileNumber_covers _ e Hon) as [grp [Hin _]].
    apply (in_map fst) in Hin. exact Hin.
  - apply Forall_forall. intros r Hin.
    destruct (Forall2_In_right _ _ _ _ Hrows Hin) as [[k v] [Hkv Hr]].
    apply groupByFileNumber_In in Hkv. destruct Hkv as [Hne Hv].
    simpl in Hr. unfold employeeResult in Hr.
    destruct v as [| first rest]; [discriminate |].
    injection Hr as <-. simpl. exists first, rest. auto.
Qed.

End ReportRows.

(** *** Gaps between punches *)

Lemma Sorted_adjacent {A} (R : A -> A -> Prop) (pre post : list A) (a b : A) :
  Sorted R (pre ++ a :: b :: post) -> R a b.
Proof.
  induction pre as [| x pre IH]; simpl; intros H.
  - apply Sorted_inv in H. destruct H as [_ Hhd].
    apply HdRel_inv in Hhd. exact Hhd.
  - apply Sorted_inv in H. apply IH, H.
Qed.

(** The minutes of [differenceInMinutes], when positive, are the whole
    minutes of the difference. *)
Lemma differenceInMinutes_whole (later earlier : Date) :
  0 < differenceInMinutes later earlier ->
  60000 * differenceInMinutes later earlier <= later - earlier
  /\ later - earlier < 60000 * (differenceInMinutes later earlier + 1).
Proof.
  unfold differenceInMinutes. intros Hpos.
  destruct (Z.le_gt_cases 0 (later - earlier)) as [Hge | Hlt].
  - rewrite Z.quot_div_nonneg in * by lia.
    pose proof (Z.mul_div_le (later - earlier) 60000 ltac:(lia)).
    pose proof (Z.mul_succ_div_gt (later - earlier) 60000 ltac:(lia)).
    lia.
  - exfalso.
    assert (H : 0 <= Z.quot (- (later - earlier)) 60000)
      by (apply Z.quot_pos; lia).
    rewrite Z.quot_opp_l in H by lia. lia.
Qed.


(** *** The gap of a row *)

Lemma clockInOrder_trans (a b c : TimecardEntry) :
  clockInOrder a b -> clockInOrder b c -> clockInOrder a c.
Proof.
  intros [x [y [Ha [Hb Hxy]]]] [y' [z [Hb' [Hc Hyz]]]].
  rewrite Hb in Hb'. injection Hb' as <-.
  exists x, z. repeat split; try assumption. lia.
Qed.

Lemma Sorted_clockInOrder (l : list TimecardEntry) :
  Forall (fun e => hasTimeIn e = true) l ->
  Sorted (fun a b => timeInLe a b = true) l ->
  StronglySorted clockInOrder l.
Proof.
  intros Hall Hs. apply Sorted_StronglySorted.
  { intros a b c. apply clockInOrder_trans. }
  induction Hs as [| a l Hs IH Hhd]; constructor.
  - apply IH. inversion Hall; assumption.
  - inversion Hall as [| ? ? Ha Hl]; subst.
    destruct Hhd as [| b l Hab]; constructor.
    inversion Hl as [| ? ? Hb _]; subst.
    unfold hasTimeIn in Ha, Hb. unfold timeInLe in Hab.
    destruct (timeIn a) as [x |] eqn:Hx; [| discriminate].
    destruct (timeIn b) as [y |] eqn:Hy; [| discriminate].
    exists x, y. repeat split; try assumption. apply Z.leb_le, Hab.
Qed.

Lemma sortedEntries_strongly (grp : list TimecardEntry) :
  StronglySorted clockInOrder (sortedEntries grp).
Proof.
  apply Sorted_clockInOrder; [| apply sortedEntries_ascending].
  apply Forall_forall. intros e He. apply sortedEntries_In in He.
  destruct He as [_ [t Ht]]. unfold hasTimeIn. rewrite Ht. reflexivity.
Qed.

Lemma gapsOfSorted_fileNumber (fn : string) (sorted : list TimecardEntry)
    (g : TimecardGap) :
  In g (gapsOfSorted fn sorted) -> gap_fileNumber g = fn.
Proof.
  intros Hg. apply gapsOfSorted_In in Hg.
  destruct Hg as [pre [cur [next [post [_ Hp]]]]].
  apply gapOfPair_In in Hp. destruct Hp as [out [nin [_ [_ [_ ->]]]]].
  reflexivity.
Qed.

(** A gap ends at the clock-in of an entry that is not the first. *)
Lemma gapsOfSorted_end (fn : string) (sorted : list TimecardEntry)
    (g : TimecardGap) :
  In g (gapsOfSorted fn sorted) ->
  exists next, In next (tl sorted) /\ timeIn next = Some (gapEnd g).
Proof.
  intros Hg. apply gapsOfSorted_In in Hg.
  destruct Hg as [pre [cur [next [post [-> Hp]]]]].
  apply gapOfPair_In in Hp. destruct Hp as [out [nin [_ [Hn [_ ->]]]]].
  exists next. split; [| exact Hn].
  destruct pre as [| p pre]; simpl.
  - left. reflexivity.
  - apply in_or_app. right. right. left. reflexivity.
Qed.

(** In clock-in order the gaps of an employee come out by the instant
    they end at. *)
Lemma gapsOfSorted_earliest (fn : string) (sorted : list TimecardEntry) :
  StronglySorted clockInOrder sorted ->
  forall g rest g',
    gapsOfSorted fn sorted = g :: rest -> In g' rest ->
    gapEnd g <= gapEnd g'.
Proof.
  induction 1 as [| cur l Hs IH Hall]; [discriminate |].
  intros g rest g' Heq Hin.
  destruct l as [| next l']; [discriminate |].
  change (gapsOfSorted fn (cur :: next :: l'))
    with (gapOfPair fn cur next ++ gapsOfSorted fn (next :: l')) in Heq.
  destruct (gapOfPair fn cur next) as [| g0 more] eqn:Hpair.
  - cbn [app] in Heq. eapply IH; eassumption.
  - assert (Hg0 : In g0 (gapOfPair fn cur next))
      by (rewrite Hpair; left; reflexivity).
    assert (Hone : more = []).
    { revert Hpair. unfold gapOfPair.
      destruct (timeOut cur), (timeIn next); try discriminate.
      destruct (10 <? _); [| discriminate].
      intros H. injection H as _ <-. reflexivity. }
    subst more. cbn [app] in Heq. injection Heq as <- <-.
    apply gapOfPair_In in Hg0.
    destruct Hg0 as [out [nin [_ [Hn [_ ->]]]]]. simpl.
    apply (gapsOfSorted_end fn (next :: l')) in Hin.
    destruct Hin as [n' [Hn' Ht]].
    simpl in Hn'.
    apply StronglySorted_inv in Hs. destruct Hs as [_ Hnext].
    rewrite Forall_forall in Hnext.
    destruct (Hnext _ Hn') as [x [y [Hx [Hy Hle]]]].
    congruence.
Qed.

Lemma gapsOfSorted_other (fn k : string) (sorted : list TimecardEntry) :
  filter (fun g => String.eqb (gap_fileNumber g) k) (gapsOfSorted fn sorted)
  = if String.eqb fn k then gapsOfSorted fn sorted else [].
Proof.
  assert (H : forall l, Forall (fun g => gap_fileNumber g = fn) l ->
             filter (fun g => String.eqb (gap_fileNumber g) k) l
             = if String.eqb fn k then l else []).
  { induction 1 as [| g l Hg _ IH]; simpl.
    - destruct (String.eqb fn k); reflexivity.
    - rewrite IH, Hg. destruct (String.eqb fn k); reflexivity. }
  apply H, Forall_forall. intros g. apply gapsOfSorted_fileNumber.
Qed.

(** The gaps that carry a file number are those of its group. *)
Lemma gaps_of_fileNumber (m : EmployeeMap) (k : string) :
  NoDup (map fst m) ->
  filter (fun g => String.eqb (gap_fileNumber g) k)
    (flat_map (fun kv => gapsOfSorted (fst kv) (sortedEntries (snd kv))) m)
  = match mapGet m k with
    | Some grp => gapsOfSorted k (sortedEntries grp)
    | None => []
    end.
Proof.
  induction m as [| [k0 v0] m IH]; simpl; [reflexivity |].
  intros Hnd. inversion Hnd as [| ? ? Hnot Hnd']; subst.
  rewrite filter_app, gapsOfSorted_other, (IH Hnd').
  destruct (String.eqb_spec k0 k) as [-> | Hne]; [| reflexivity].
  apply mapGet_absent in Hnot. rewrite Hnot. apply app_nil_r.
Qed.

Lemma find_filter {A} (p : A -> bool) (l : list A) :
  find p l = hd_error (filter p l).
Proof.
  induction l as [| x l IH]; simpl; [reflexivity |].
  destruct (p x); [reflexivity | exact IH].
Qed.

(** The gap found for a file number. *)
Lemma findGap_cases (entries : list TimecardEntry) (date k : string) :
  match findGap (detectTimecardGaps entries date) k with
  | Some g =>
      In g (detectTimecardGaps entries date)
      /\ gap_fileNumber g = k
      /\ 10 < gapMinutes g
      /\ (forall g',
            In g' (detectTimecardGaps entries date) ->
            gap_fileNumber g' = k -> gapEnd g <= gapEnd g')
  | None =>
      forall g',
        In g' (detectTimecardGaps entries date) -> gap_fileNumber g' <> k
  end.
Proof.
  unfold findGap.
  destruct (find (fun g => String.eqb (gap_fileNumber g) k)
              (detectTimecardGaps entries date)) as [g |] eqn:Hfind.
  - pose proof (find_some _ _ Hfind) as [Hin Hk].
    apply String.eqb_eq in Hk.
    split; [exact Hin |]. split; [exact Hk |]. split.
    + apply detectTimecardGaps_In in Hin.
      destruct Hin as [fn [grp [pre [c [n [post [_ [_ Hp]]]]]]]].
      apply gapOfPair_In in Hp. destruct Hp as [out [nin [_ [_ [Hlt ->]]]]].
      exact Hlt.
    + intros g' Hin' Hk'.
      rewrite find_filter in Hfind.
      assert (Hf : In g' (filter (fun g => String.eqb (gap_fileNumber g) k)
                            (detectTimecardGaps entries date))).
      { apply filter_In. split; [exact Hin' | apply String.eqb_eq, Hk']. }
      rewrite detectTimecardGaps_flat_map in Hfind, Hf.
      rewrite gaps_of_fileNumber in Hfind, Hf
        by apply groupByFileNumber_lookup.
      destruct (mapGet (groupByFileNumber (onDate date entries)) k) as [grp |];
        [| destruct Hf].
      destruct (gapsOfSorted k (sortedEntries grp)) as [| g0 rest] eqn:Hgaps;
        [discriminate |].
      simpl in Hfind. injection Hfind as ->.
      destruct Hf as [<- | Hrest]; [lia |].
      eapply gapsOfSorted_earliest;
        [apply sortedEntries_strongly | exact Hgaps | exact Hrest].
  - intros g' Hin' Hk'.
    apply (find_none _ _ Hfind) in Hin'.
    apply String.eqb_neq in Hin'. contradiction.
Qed.

Section RowFacts.
Variable score : string -> string -> Z.

(** What a row records, read off the loop body. *)
Lemma employeeResult_fields gaps sheet names tolerance fileNumber entries r :
  employeeResult score gaps sheet names tolerance fileNumber entries = Some r ->
  res_fileNumber r = fileNumber
  /\ timecardGap r = findGap gaps fileNumber
  /\ mkNameMatch (matchedBreakSheetName r) (matchScore r)
     = matchEmployeeByName score (res_employeeName r) names defaultThreshold
  /\ breakSheetDuration r
     = durationOrNull (findBreakEntry sheet (matchedBreakSheetName r))
  /\ breakSheetTimeRange r
     = rangeOrNull (findBreakEntry sheet (matchedBreakSheetName r)).
Proof.
  unfold employeeResult. destruct entries as [| first rest]; [discriminate |].
  intros H. injection H as <-. simpl.
  destruct (matchEmployeeByName score (payrollName first) names
              defaultThreshold); simpl.
  repeat split; reflexivity.
Qed.

Lemma report_rows_Forall now timecard sheet date tolerance
    (P : EmployeeComparisonResult -> Prop) :
  (forall k v r,
     employeeResult score (detectTimecardGaps timecard date) sheet
       (map driverName sheet) tolerance k v = Some r -> P r) ->
  exists report,
    generateDiscrepancyReport score now timecard sheet date tolerance
    = Some report
    /\ Forall P (results report).
Proof.
  intros HP.
  destruct (generateDiscrepancyReport_rows score now timecard sheet date
              tolerance) as [rs [Hgen Hrows]].
  eexists. split; [exact Hgen |]. simpl.
  apply Forall_forall. intros r Hin.
  destruct (Forall2_In_right _ _ _ _ Hrows Hin) as [[k v] [_ Hr]].
  apply (HP _ _ _ Hr).
Qed.

(** X17: the gap of a row is the first gap detected for the row's file
    number: a detected gap of that employee, longer than 10 minutes, and
    the one that ends earliest, so that later gaps of the same employee
    are not compared; a row has no gap only when none was detected for
    its file number. *)
Theorem report_row_gap_is_earliest now timecard sheet date tolerance :
  exists report,
    generateDiscrepancyReport score now timecard sheet date tolerance
    = Some report
    /\ Forall
         (fun r =>
            match timecardGap r with
            | Some g =>
                In g (detectTimecardGaps timecard date)
                /\ gap_fileNumber g = res_fileNumber r
                /\ 10 < gapMinutes g
                /\ (forall g',
                      In g' (detectTimecardGaps timecard date) ->
                      gap_fileNumber g' = res_fileNumber r ->
                      gapEnd g <= gapEnd g')
            | None =>
                forall g',
                  In g' (detectTimecardGaps timecard date) ->
                  gap_fileNumber g' <> res_fileNumber r
            end)
         (results report).
Proof.
  apply report_rows_Forall. intros k v r Hr.
  apply employeeResult_fields in Hr. destruct Hr as [-> [-> _]].
  apply findGap_cases.
Qed.

End RowFacts.

(** *** Status and discrepancy of a row *)

(** The decision of [compareBreakRecords], read from its result. *)
Lemma compareBreakRecords_cases (gap : option TimecardGap)
    (b : option BreakSheetEntry) (tolerance : Z) :
  let c := compareBreakRecords gap b tolerance in
  match cmp_status c with
  | match_ =>
      (gap = None /\ b = None /\ cmp_discrepancyMinutes c = None)
      \/ (exists g e m,
            gap = Some g /\ b = Some e /\ loggedMinutesOf e = Some m
            /\ Z.abs (gapMinutes g - m) <= tolerance
            /\ cmp_discrepancyMinutes c = Some 0)
  | mismatch =>
      exists g e m,
        gap = Some g /\ b = Some e /\ loggedMinutesOf e = Some m
        /\ tolerance < Z.abs (gapMinutes g - m)
        /\ cmp_discrepancyMinutes c = Some (gapMinutes g - m)
  | deletion =>
      exists g,
        gap = Some g /\ b = None
        /\ cmp_discrepancyMinutes c = Some (gapMinutes g)
  | warning =>
      (exists g e,
         gap = Some g /\ b = Some e /\ loggedMinutesOf e = None
         /\ cmp_discrepancyMinutes c = None)
      \/ (exists e,
            gap = None /\ b = Some e
            /\ cmp_discrepancyMinutes c = negatedIfTruthy (loggedMinutesOf e))
  | addition => False
  end.
Proof.
  unfold compareBreakRecords.
  destruct gap as [g |], b as [e |]; cbv zeta.
  - destruct (loggedMinutesOf e) as [m |] eqn:Hm.
    + destruct (Z.leb_spec (Z.abs (gapMinutes g - m)) tolerance); simpl.
      * right. exists g, e, m. auto.
      * exists g, e, m. auto.
    + simpl. left. exists g, e. auto.
  - simpl. exists g. auto.
  - simpl. right. exists e. auto.
  - simpl. left. auto.
Qed.

Section RowStatus.
Variable score : string -> string -> Z.


Lemma find_driverName (sheet : list BreakSheetEntry) (x : string) :
  In x (map driverName sheet) ->
  exists e,
    find (fun e => String.eqb (driverName e) x) sheet = Some e
    /\ In e sheet /\ driverName e = x.
Proof.
  intros Hin.
  destruct (find (fun e => String.eqb (driverName e) x) sheet) as [e |] eqn:Hf.
  - apply find_some in Hf. destruct Hf as [He Hx].
    apply String.eqb_eq in Hx. exists e. auto.
  - apply in_map_iff in Hin. destruct Hin as [e [Hx He]].
    apply (find_none _ _ Hf) in He. rewrite Hx, String.eqb_refl in He.
    discriminate.
Qed.

(** X19: when no driver name of the break sheet is empty, a row with a
    matched name has a score of at least 80, which is the score of that
    name against the employee's name, and the break entry compared is
    the first entry of the sheet with that driver name: the row's break
    time range is that entry's and its status is not [deletion].  A row
    without a matched name has a score below 80, no entry of the sheet
    reaches 80 against the employee's name, the row has no break
    duration and no break time range, and its status is [match] or
    [deletion]. *)
Theorem report_matched_rows now timecard sheet date tolerance :
  Forall (fun e => isEmpty (driverName e) = false) sheet ->
  exists report,
    generateDiscrepancyReport score now timecard sheet date tolerance
    = Some report
    /\ Forall
         (fun r =>
            let sc := fun x =>
              score (normalizeEmployeeName (res_employeeName r))
                (normalizeEmployeeName x) in
            match matchedBreakSheetName r with
            | Some x =>
                defaultThreshold <= matchScore r
                /\ sc x = matchScore r
                /\ exists e,
                     find (fun e => String.eqb (driverName e) x) sheet = Some e
                     /\ findBreakEntry sheet (Some x) = Some e
                     /\ In e sheet /\ driverName e = x
                     /\ breakSheetTimeRange r = breakTimeRange e
                     /\ status r <> deletion
            | None =>
                matchScore r < defaultThreshold
                /\ Forall (fun e => sc (driverName e) < defaultThreshold) sheet
                /\ breakSheetDuration r = None
                /\ breakSheetTimeRange r = None
                /\ (status r = match_ \/ status r = deletion)
            end)
         (results report).
Proof.
  intros Hnames. apply report_rows_Forall. intros k v r Hr.
  pose proof (employeeResult_classified _ _ _ _ _ _ _ _ Hr) as [[Hs _] _].
  apply employeeResult_fields in Hr.
  destruct Hr as [_ [_ [Hmatch [Hdur Hrange]]]].
  cbv zeta.
  unfold matchEmployeeByName in Hmatch.
  pose proof (matchLoop_cases score (res_employeeName r)
                (map driverName sheet)) as Hloop.
  cbv zeta in Hloop.
  assert (Hnone : matchedBreakSheetName r = None ->
            breakSheetDuration r = None /\ breakSheetTimeRange r = None
            /\ (status r = match_ \/ status r = deletion)).
  { intros Hm. rewrite Hm in Hdur, Hrange, Hs. simpl in Hdur, Hrange, Hs.
    split; [exact Hdur |]. split; [exact Hrange |].
    rewrite Hs. destruct (timecardGap r); [right | left]; reflexivity. }
  destruct Hloop as [[Hall Hfold] | [x [Hin [Hpos [Hmax Hfold]]]]];
    rewrite Hfold in Hmatch.
  - assert (Hm : matchedBreakSheetName r = None /\ matchScore r = 0).
    { unfold defaultThreshold in Hmatch. simpl in Hmatch.
      injection Hmatch as -> ->. auto. }
    destruct Hm as [Hm Hscore]. rewrite Hm, Hscore.
    split; [reflexivity |]. split; [| apply Hnone, Hm].
    apply Forall_forall. intros e He.
    rewrite Forall_forall in Hall.
    specialize (Hall (driverName e) (in_map _ _ _ He)).
    unfold defaultThreshold. simpl in Hall. lia.
  - destruct (Z.leb_spec defaultThreshold
                (score (normalizeEmployeeName (res_employeeName r))
                   (normalizeEmployeeName x))) as [Hle | Hgt].
    + injection Hmatch as Hm Hscore. rewrite Hm, Hscore.
      split; [exact Hle |]. split; [reflexivity |].
      destruct (find_driverName sheet x Hin) as [e [Hfind [He Hx]]].
      assert (Hentry : findBreakEntry sheet (Some x) = Some e).
      { unfold findBreakEntry, truthy.
        rewrite Forall_forall in Hnames. specialize (Hnames e He).
        rewrite Hx in Hnames. rewrite Hnames. exact Hfind. }
      exists e. split; [exact Hfind |]. split; [exact Hentry |].
      split; [exact He |]. split; [exact Hx |].
      rewrite Hm, Hentry in Hrange, Hs. split; [exact Hrange |].
      rewrite Hs. unfold compareBreakRecords.
      destruct (timecardGap r) as [g |]; [| discriminate].
      destruct (loggedMinutesOf e) as [m |]; [| discriminate].
      destruct (Z.abs (gapMinutes g - m) <=? tolerance); discriminate.
    + injection Hmatch as Hm Hscore. rewrite Hm, Hscore.
      split; [exact Hgt |]. split; [| apply Hnone, Hm].
      apply Forall_forall. intros e He.
      rewrite Forall_forall in Hmax.
      specialize (Hmax (driverName e) (in_map _ _ _ He)).
      simpl in Hmax. lia.
Qed.

End RowStatus.

Lemma report_matched_rows_witness :
  exists report,
    generateDiscrepancyReport Scorer.ratio 0 Examples.timecard Examples.sheet
      "12/24/2025" 5 = Some report
    /\ Forall
         (fun r =>
            let sc := fun x =>
              Scorer.ratio (normalizeEmployeeName (res_employeeName r))
                (normalizeEmployeeName x) in
            match matchedBreakSheetName r with
            | Some x =>
                defaultThreshold <= matchScore r
                /\ sc x = matchScore r
                /\ exists e,
                     find (fun e => String.eqb (driverName e) x) Examples.sheet
                     = Some e
                     /\ findBreakEntry Examples.sheet (Some x) = Some e
                     /\ In e Examples.sheet /\ driverName e = x
                     /\ breakSheetTimeRange r = breakTimeRange e
                     /\ status r <> deletion
            | None =>
                matchScore r < defaultThreshold
                /\ Forall (fun e => sc (driverName e) < defaultThreshold)
                     Examples.sheet
                /\ breakSheetDuration r = None
                /\ breakSheetTimeRange r = None
                /\ (status r = match_ \/ status r = deletion)
            end)
         (results report).
Proof.
  apply (report_matched_rows Scorer.ratio 0 Examples.timecard Examples.sheet
           "12/24/2025" 5).
  repeat constructor.
Defined.

(** *** Timecard entries ([parseTimecardCSV], [parseTimeString]) *)

Section TimecardEntries.
Variable parse : string -> string -> Date -> ParseOutcome.
Variable parseFloat : option string -> float.

(** A time that was read is what one of the three formats gave for the
    cell. *)
Lemma parseTimeString_parsed (cell : option string) (now t : Date) :
  parseTimeString parse cell now = Some t ->
  exists s fmt,
    cell = Some s /\ isEmpty (trim s) = false
    /\ In fmt ["hh:mm a"; "h:mma"; "h:mmaa"]
    /\ parse s fmt now = Parsed t.
Proof.
  unfold parseTimeString. destruct cell as [s |]; [| discriminate].
  destruct (isEmpty s) eqn:Hs; [discriminate |].
  destruct (isEmpty (trim s)) eqn:Ht; [discriminate |]. simpl.
  intros H. exists s.
  destruct (parse s "hh:mm a" now) as [t1 | |] eqn:H1; try discriminate.
  { injection H as <-. exists "hh:mm a".
    split; [reflexivity |]. split; [exact Ht |].
    split; [left; reflexivity | exact H1]. }
  destruct (parse s "h:mma" now) as [t2 | |] eqn:H2; try discriminate.
  { injection H as <-. exists "h:mma".
    split; [reflexivity |]. split; [exact Ht |].
    split; [right; left; reflexivity | exact H2]. }
  destruct (parse s "h:mmaa" now) as [t3 | |] eqn:H3; try discriminate.
  injection H as <-. exists "h:mmaa".
  split; [reflexivity |]. split; [exact Ht |].
  split; [right; right; left; reflexivity | exact H3].
Qed.

Lemma orZero_number (x : float) : PrimFloat.is_nan (orZero x) = false.
Proof.
  unfold orZero. destruct (PrimFloat.is_nan x) eqn:Hn; simpl.
  - reflexivity.
  - destruct (PrimFloat.is_zero x); [reflexivity | exact Hn].
Qed.

(** X20: reading the timecard always succeeds and gives at most one
    entry per row.  In every entry the payroll name, the file number and
    the pay date have no white space around them, the hours are a number
    (never NaN), and a time-in or time-out that is present is what one of
    the formats [hh:mm a], [h:mma], [h:mmaa] gave for that cell of a
    row. *)
Theorem parseTimecardRows_entries (now : Date) (rows : list Row) :
  exists entries,
    parseTimecardRows parse parseFloat now rows = Some entries
    /\ (List.length entries <= List.length rows)%nat
    /\ Forall
         (fun e =>
            trim (payrollName e) = payrollName e
            /\ trim (fileNumber e) = fileNumber e
            /\ trim (payDate e) = payDate e
            /\ PrimFloat.is_nan (hours e) = false
            /\ (forall t,
                  timeIn e = Some t ->
                  exists row s fmt,
                    In row rows /\ field row "Time In" = Some s
                    /\ In fmt ["hh:mm a"; "h:mma"; "h:mmaa"]
                    /\ parse s fmt now = Parsed t)
            /\ (forall t,
                  timeOut e = Some t ->
                  exists row s fmt,
                    In row rows /\ field row "Time Out" = Some s
                    /\ In fmt ["hh:mm a"; "h:mma"; "h:mmaa"]
                    /\ parse s fmt now = Parsed t))
         entries.
Proof.
  eexists. split; [apply (parseTimecardRows_from parse parseFloat now rows []) |].
  cbn [app]. split.
  - apply flat_map_at_most_one. intros row.
    destruct (timecardRow parse parseFloat now row); simpl; lia.
  - apply Forall_forall. intros e He. apply in_flat_map in He.
    destruct He as [row [Hrow He]].
    destruct (timecardRow parse parseFloat now row) as [| e' |] eqn:Hkept;
      simpl in He; try contradiction.
    destruct He as [Heq | []]. subst e'. unfold timecardRow in Hkept.
    destruct (blank (field row "Payroll Name") || blank (field row "File Number")
              || blank (field row "Pay Date")); [discriminate |].
    destruct (blank (field row "Time In") && blank (field row "Time Out"));
      [discriminate |].
    destruct (field row "Payroll Name") as [name |]; [| discriminate].
    destruct (field row "File Number") as [number |]; [| discriminate].
    destruct (field row "Pay Date") as [day |]; [| discriminate].
    injection Hkept as <-. simpl.
    split; [apply trim_idempotent |]. split; [apply trim_idempotent |].
    split; [apply trim_idempotent |]. split; [apply orZero_number |].
    split; intros t Ht; apply parseTimeString_parsed in Ht;
      destruct Ht as [s [fmt [Hcell [_ [Hfmt Hp]]]]];
      exists row, s, fmt; auto.
Qed.

End TimecardEntries.

(** *** Exports and summary cards ([app/page.tsx], [SummaryStats]) *)

Lemma message_is_no_formula (gap : option TimecardGap)
    (b : option BreakSheetEntry) (tolerance : Z) :
  Page.startsFormula (cmp_message (compareBreakRecords gap b tolerance)) = false
  /\ isEmpty (cmp_message (compareBreakRecords gap b tolerance)) = false.
Proof.
  unfold compareBreakRecords.
  destruct gap as [g |], b as [e |]; cbv zeta.
  - destruct (loggedMinutesOf e) as [m |].
    + destruct (Z.abs (gapMinutes g - m) <=? tolerance); split; reflexivity.
    + split; reflexivity.
  - split; reflexivity.
  - split; reflexivity.
  - split; reflexivity.
Qed.

(** X21: a sanitized field never begins with one of [= + - @ | %]; it is
    the field itself, or the field behind a single quote when the field
    begins with one of these characters; a missing or empty field gives
    the empty text; sanitizing twice is sanitizing once; and the message
    of a comparison is left as it is. *)
Theorem sanitizeCSVField_no_formula (field : option string) :
  let out := Page.sanitizeCSVField field in
  Page.startsFormula out = false
  /\ Page.sanitizeCSVField (Some out) = out
  /\ (field = None \/ field = Some "" -> out = "")
  /\ (forall str,
        field = Some str ->
        out = if Page.startsFormula str then String "'" str else str)
  /\ (forall gap b tolerance,
        Page.sanitizeCSVField
          (Some (cmp_message (compareBreakRecords gap b tolerance)))
        = cmp_message (compareBreakRecords gap b tolerance)).
Proof.
  cbv zeta. unfold Page.sanitizeCSVField.
  split; [| split; [| split; [| split]]].
  - destruct field as [str |]; [| reflexivity].
    destruct str as [| c str]; [reflexivity |]. simpl.
    destruct (Page.isFormulaChar c) eqn:Hc; [reflexivity | exact Hc].
  - destruct field as [str |]; [| reflexivity].
    destruct str as [| c str]; [reflexivity |]. simpl.
    destruct (Page.isFormulaChar c) eqn:Hc; simpl; [reflexivity |].
    rewrite Hc. reflexivity.
  - intros [-> | ->]; reflexivity.
  - intros str ->. destruct str; reflexivity.
  - intros gap b tolerance.
    destruct (message_is_no_formula gap b tolerance) as [-> ->]. reflexivity.
Qed.

(** X22: the name under which a report is exported has no slash: it is
    the target date with a hyphen in the place of every slash, of the
    same length, and the target date itself when that has no slash. *)
Theorem dashedDate_no_slash (targetDate : string) :
  Spec.allChars (fun c => negb (code c =? 47)%N) (Page.dashedDate targetDate)
  = true
  /\ String.length (Page.dashedDate targetDate) = String.length targetDate
  /\ (forall i,
        String.get i (Page.dashedDate targetDate)
        = match String.get i targetDate with
          | Some c => Some (if (code c =? 47)%N then "-"%char else c)
          | None => None
          end)
  /\ (Spec.allChars (fun c => negb (code c =? 47)%N) targetDate = true ->
      Page.dashedDate targetDate = targetDate).
Proof.
  induction targetDate as [| c s [IH1 [IH2 [IH3 IH4]]]]; simpl.
  - repeat split; try reflexivity; intros [| i]; reflexivity.
  - split; [| split; [| split]].
    + rewrite IH1. destruct (code c =? 47)%N eqn:Hc; [reflexivity |].
      rewrite Hc. reflexivity.
    + rewrite IH2. reflexivity.
    + intros [| i]; [reflexivity | apply IH3].
    + intros H. apply andb_true_iff in H. destruct H as [Hc Hs].
      rewrite (IH4 Hs). destruct (code c =? 47)%N; [discriminate | reflexivity].
Qed.

Section Cards.
Variable score : string -> string -> Z.

(** X23: the cards shown above a report account for every employee: the
    values of Matches, Mismatches, Missing Logs and Missing Gaps add up
    to the value of Total, which is the number of rows. *)
Theorem summaryCards_add_up now timecard sheet date tolerance :
  exists report total nMatch nMismatch nLogs nGaps,
    generateDiscrepancyReport score now timecard sheet date tolerance
    = Some report
    /\ Page.summaryCards (summary report)
       = [ ("Total", total); ("Matches", nMatch); ("Mismatches", nMismatch);
           ("Missing Logs", nLogs); ("Missing Gaps", nGaps) ]
    /\ (nMatch + nMismatch + nLogs + nGaps = total)%nat
    /\ total = List.length (results report).
Proof.
  destruct (generateDiscrepancyReport_total score now timecard sheet date
              tolerance) as [rs [Hgen [Hcls _]]].
  assert (Hno : countStatus addition rs = 0%nat).
  { apply countStatus_absent. eapply Forall_impl; [| exact Hcls].
    intros r [Hs _]. rewrite Hs. apply compareBreakRecords_never_addition. }
  pose proof (countStatus_partition rs) as Hsum.
  do 6 eexists. split; [exact Hgen |]. simpl.
  split; [reflexivity |].
  cbn [summarize matches mismatches missingBreakLog missingGap totalEmployees].
  split; [lia | reflexivity].
Qed.

End Cards.

(** *** Either order of the parts of a name *)

(** X24: the order of the parts of a name does not count: "Last, First"
    and "First Last" have the same normal form, whatever the two parts
    are, and so the matcher gives the same result for either form of the
    timecard name. *)
Theorem normalizeEmployeeName_either_order (a b : string) :
  normalizeEmployeeName (a ++ "," ++ b) = normalizeEmployeeName (b ++ " " ++ a)
  /\ normalizeEmployeeName (a ++ ", " ++ b)
     = normalizeEmployeeName (b ++ " " ++ a)
  /\ (forall score pool threshold,
        matchEmployeeByName score (a ++ ", " ++ b) pool threshold
        = matchEmployeeByName score (b ++ " " ++ a) pool threshold).
Proof.
  assert (H1 : normalizeEmployeeName (a ++ "," ++ b)
               = normalizeEmployeeName (b ++ " " ++ a)).
  { rewrite !normalizeEmployeeName_as_words.
    change (a ++ "," ++ b)%string with (a ++ String "," b)%string.
    change (b ++ " " ++ a)%string with (b ++ String " " a)%string.
    rewrite !words_at_separator by reflexivity.
    apply f_equal, sortStrings_Permutation_eq, Permutation_map,
      Permutation_app_comm. }
  assert (H2 : normalizeEmployeeName (a ++ ", " ++ b)
               = normalizeEmployeeName (b ++ " " ++ a)).
  { rewrite <- H1. rewrite !normalizeEmployeeName_as_words.
    change (a ++ ", " ++ b)%string with (a ++ String "," (String " " b))%string.
    change (a ++ "," ++ b)%string with (a ++ String "," b)%string.
    rewrite !words_at_separator by reflexivity.
    change (String " " b) with ("" ++ String " " b)%string.
    rewrite (words_at_separator "" b " ") by reflexivity.
    reflexivity. }
  split; [exact H1 |]. split; [exact H2 |].
  intros score pool threshold. unfold matchEmployeeByName.
  rewrite H2. reflexivity.
Qed.

(** *** From the two files to the report ([handleCompare]) *)

Section CompareFacts.
Import BreakSheet.
Variable parse : string -> string -> Date -> ParseOutcome.
Variable parseFloat : option string -> float.
Variable score : string -> string -> Z.

Lemma matchEmployeeByName_In (candidate : string) (pool : list string)
    (threshold : Z) (x : string) :
  nm_match (matchEmployeeByName score candidate pool threshold) = Some x ->
  In x pool.
Proof.
  unfold matchEmployeeByName.
  pose proof (matchLoop_cases score candidate pool) as Hloop.
  cbv zeta in Hloop.
  destruct Hloop as [[_ ->] | [y [Hin [_ [_ ->]]]]].
  - destruct (threshold <=? 0); discriminate.
  - destruct (threshold <=? _); [| discriminate].
    simpl. intros H. injection H as <-. exact Hin.
Qed.

(** With no empty driver name in the sheet, the break entry of a row
    with a matched name is found. *)
Lemma matched_entry_found gaps sheet tolerance k v r x :
  Forall (fun e => isEmpty (driverName e) = false) sheet ->
  employeeResult score gaps sheet (map driverName sheet) tolerance k v
  = Some r ->
  matchedBreakSheetName r = Some x ->
  exists e,
    findBreakEntry sheet (matchedBreakSheetName r) = Some e /\ In e sheet.
Proof.
  intros Hnames Hr Hx.
  apply employeeResult_fields in Hr. destruct Hr as [_ [_ [Hmatch _]]].
  assert (Hin : In x (map driverName sheet)).
  { apply (matchEmployeeByName_In (res_employeeName r) _ defaultThreshold).
    rewrite <- Hmatch. exact Hx. }
  destruct (find_driverName sheet x Hin) as [e [Hfind [He Hname]]].
  exists e. split; [| exact He].
  rewrite Hx. unfold findBreakEntry, truthy.
  rewrite Forall_forall in Hnames. specialize (Hnames e He).
  rewrite Hname in Hnames. rewrite Hnames. exact Hfind.
Qed.

Lemma findBreakEntry_In (sheet : list BreakSheetEntry) (matched : option string)
    (e : BreakSheetEntry) :
  findBreakEntry sheet matched = Some e -> In e sheet.
Proof.
  unfold findBreakEntry. destruct matched as [x |]; [| discriminate].
  destruct (truthy x); [| discriminate].
  intros H. apply find_some in H. apply H.
Qed.

(** The rows of the report of [handleCompare]: what holds of every row
    built from a break sheet read by [parseBreakSheetRows] holds of every
    row of the report, and there always is a report. *)
Lemma handleCompare_rows (now1 now2 now3 : Date) (timecardRows : list Row)
    (breakSheetRows : list (list string))
    (P : EmployeeComparisonResult -> Prop) :
  (forall timecard k v r,
     employeeResult score (detectTimecardGaps timecard "12/24/2025")
       (parseBreakSheetRows parse now2 breakSheetRows)
       (map driverName (parseBreakSheetRows parse now2 breakSheetRows))
       defaultTolerance k v = Some r ->
     P r) ->
  exists report,
    Page.handleCompare parse parseFloat score now1 now2 now3 timecardRows
      breakSheetRows = Some report
    /\ targetDate report = "12/24/2025"
    /\ Forall P (results report).
Proof.
  intros HP. unfold Page.handleCompare, parseTimecardRows.
  rewrite (parseTimecardRows_from parse parseFloat now1 timecardRows []).
  cbn [app].
  set (timecard := flat_map _ timecardRows).
  set (sheet := parseBreakSheetRows parse now2 breakSheetRows).
  destruct (generateDiscrepancyReport_rows score now3 timecard sheet
              "12/24/2025" defaultTolerance) as [rs [Hgen Hrows]].
  eexists. split; [exact Hgen |]. split; [reflexivity |]. simpl.
  apply Forall_forall. intros r Hin.
  destruct (Forall2_In_right _ _ _ _ Hrows Hin) as [[k v] [_ Hr]].
  apply (HP timecard k v r Hr).
Qed.

(** The minutes logged by an entry of a parsed break sheet are not
    negative. *)
Lemma parsed_entry_logged (now : Date) (rows : list (list string))
    (e : BreakSheetEntry) (m : Z) :
  In e (parseBreakSheetRows parse now rows) ->
  loggedMinutesOf e = Some m -> 0 <= m.
Proof.
  intros He. apply parseBreakSheetRows_entry in He.
  destruct He as [_ [_ [Hd Hm]]].
  unfold loggedMinutesOf.
  destruct (breakTimeRange e) as [range |] eqn:Hr; [| apply Hd].
  destruct (actualMinutes range) as [a |] eqn:Ha; [| apply Hd].
  intros H. injection H as <-. apply (Hm range a eq_refl Ha).
Qed.

(** The break duration of a row built from a parsed break sheet is
    positive. *)
Lemma parsed_row_duration gaps now rows tolerance k v r d :
  employeeResult score gaps (parseBreakSheetRows parse now rows)
    (map driverName (parseBreakSheetRows parse now rows)) tolerance k v
  = Some r ->
  breakSheetDuration r = Some d -> 0 < d.
Proof.
  intros Hr Hsome.
  apply employeeResult_fields in Hr. destruct Hr as [_ [_ [_ [Hdur _]]]].
  rewrite Hsome in Hdur. unfold durationOrNull in Hdur.
  destruct (findBreakEntry _ (matchedBreakSheetName r)) as [e |] eqn:He;
    [| discriminate].
  destruct (breakDuration e) as [d' |] eqn:Hd'; [| discriminate].
  destruct (Z.eqb_spec d' 0) as [| Hnz]; [discriminate |].
  injection Hdur as ->.
  apply findBreakEntry_In, parseBreakSheetRows_entry in He.
  destruct He as [_ [_ [Hpos _]]]. specialize (Hpos d' Hd'). lia.
Qed.

(** X25: comparing two parsed files never fails: whatever rows the two
    files hold, there is a report, for the date 12/24/2025.  In it a row
    is a [deletion] exactly when the employee has a gap and no name of
    the break sheet was matched; a break duration shown in a row is
    positive; and a discrepancy is 0 in a [match], further from 0 than the
    tolerance of 5 in a [mismatch], more than 10 in a [deletion] and
    negative in a [warning]. *)
Theorem handleCompare_report (now1 now2 now3 : Date) (timecardRows : list Row)
    (breakSheetRows : list (list string)) :
  exists report,
    Page.handleCompare parse parseFloat score now1 now2 now3 timecardRows
      breakSheetRows = Some report
    /\ targetDate report = "12/24/2025"
    /\ Forall
         (fun r =>
            (status r = deletion
             <-> timecardGap r <> None /\ matchedBreakSheetName r = None)
            /\ (forall d, breakSheetDuration r = Some d -> 0 < d)
            /\ (forall d,
                  discrepancyMinutes r = Some d ->
                  match status r with
                  | match_ => d = 0
                  | mismatch => defaultTolerance < Z.abs d
                  | deletion => 10 < d
                  | warning => d < 0
                  | addition => False
                  end))
         (results report).
Proof.
  apply handleCompare_rows. intros timecard k v r Hr.
  set (sheet := parseBreakSheetRows parse now2 breakSheetRows) in *.
  assert (Hnames : Forall (fun e => isEmpty (driverName e) = false) sheet).
  { apply Forall_forall. intros e He.
    apply parseBreakSheetRows_entry in He. apply He. }
  pose proof (employeeResult_classified _ _ _ _ _ _ _ _ Hr) as [[Hs [Hd _]] _].
  pose proof (fun x => matched_entry_found _ _ _ _ _ _ x Hnames Hr) as Hfound.
  pose proof (employeeResult_fields _ _ _ _ _ _ _ _ Hr) as [_ [Hgap _]].
  pose proof (compareBreakRecords_cases (timecardGap r)
                (findBreakEntry sheet (matchedBreakSheetName r))
                defaultTolerance) as Hc.
  cbv zeta in Hc. rewrite <- Hs, <- Hd in Hc.
  pose proof (findGap_cases timecard "12/24/2025" k) as Hfind.
  rewrite <- Hgap in Hfind.
  split; [| split].
  - split.
    + intros Hdel. rewrite Hdel in Hc. destruct Hc as [g [Hg [Hb _]]].
      split; [rewrite Hg; discriminate |].
      destruct (matchedBreakSheetName r) as [x |] eqn:Hm; [| reflexivity].
      destruct (Hfound x eq_refl) as [e [He _]]. congruence.
    + intros [Hg Hm]. rewrite Hs, Hm.
      destruct (timecardGap r); [reflexivity | contradiction].
  - intros d. apply (parsed_row_duration _ _ _ _ _ _ _ _ Hr).
  - intros d Hsome. rewrite Hsome in Hc.
    destruct (status r).
    + destruct Hc as [[_ [_ H]] | [g [e [m [_ [_ [_ [_ H]]]]]]]];
        [discriminate | injection H as ->; reflexivity].
    + destruct Hc as [g [e [m [_ [_ [_ [Hlt H]]]]]]].
      injection H as ->. exact Hlt.
    + exact Hc.
    + destruct Hc as [g [Hg [_ H]]]. injection H as ->.
      rewrite Hg in Hfind. apply Hfind.
    + destruct Hc as [[g [e [_ [_ [_ H]]]]] | [e [_ [He H]]]];
        [discriminate |].
      apply findBreakEntry_In in He.
      unfold negatedIfTruthy in H.
      destruct (loggedMinutesOf e) as [m |] eqn:Hm; [| discriminate].
      pose proof (parsed_entry_logged _ _ _ _ He Hm) as Hpos.
      destruct (Z.eqb_spec m 0); [discriminate |].
      injection H as H. lia.
Qed.

(** X26: in the Excel export of such a report the three break cells of a
    row agree with its break duration: "Break Taken" is Yes exactly when
    the row has a break duration and No otherwise, "Lunch Break (30min)"
    is Yes exactly when that duration is 30 minutes or more, and the
    "Break Duration" cell reads back, by [parseBreakDuration], as the
    row's break duration when that is absent or below 2^53. *)
Theorem export_break_cells (now1 now2 now3 : Date) (timecardRows : list Row)
    (breakSheetRows : list (list string)) :
  exists report,
    Page.handleCompare parse parseFloat score now1 now2 now3 timecardRows
      breakSheetRows = Some report
    /\ Forall
         (fun r =>
            let d := breakSheetDuration r in
            (Page.breakTakenCell d = "Yes" <-> d <> None)
            /\ (Page.breakTakenCell d = "No" <-> d = None)
            /\ (Page.lunchBreakCell d = "Yes"
                <-> exists n, d = Some n /\ 30 <= n)
            /\ (Page.lunchBreakCell d = "No"
                <-> d = None \/ exists n, d = Some n /\ n < 30)
            /\ ((forall n, d = Some n -> n < safeLimit) ->
                parseBreakDuration (Page.breakDurationCell d) = d))
         (results report).
Proof.
  destruct (handleCompare_rows now1 now2 now3 timecardRows breakSheetRows
              (fun r =>
                 let d := breakSheetDuration r in
                 (Page.breakTakenCell d = "Yes" <-> d <> None)
                 /\ (Page.breakTakenCell d = "No" <-> d = None)
                 /\ (Page.lunchBreakCell d = "Yes"
                     <-> exists n, d = Some n /\ 30 <= n)
                 /\ (Page.lunchBreakCell d = "No"
                     <-> d = None \/ exists n, d = Some n /\ n < 30)
                 /\ ((forall n, d = Some n -> n < safeLimit) ->
                     parseBreakDuration (Page.breakDurationCell d) = d)))
    as [report [Hgen [_ Hall]]].
  2: { exists report. split; assumption. }
  intros timecard k v r Hr. cbv zeta.
  pose proof (fun d => parsed_row_duration _ _ _ _ _ _ _ d Hr) as Hpos.
  destruct (breakSheetDuration r) as [n |].
  - specialize (Hpos n eq_refl).
    unfold Page.breakTakenCell, Page.lunchBreakCell, Page.breakDurationCell.
    destruct (Z.eqb_spec n 0) as [| _]; [lia |].
    split; [split; [discriminate | reflexivity] |].
    split; [split; discriminate |].
    destruct (Z.leb_spec 30 n) as [Hle | Hlt].
    + split; [split; [intros _; exists n; auto | reflexivity] |].
      split;
        [| intros Hsafe; apply number_mins_reads_back;
           split; [exact Hpos | apply Hsafe; reflexivity]].
      split; [discriminate |].
      intros [H | [n' [H Hlt]]]; [discriminate |]. injection H as <-. lia.
    + split.
      * split; [discriminate |].
        intros [n' [H Hle]]. injection H as <-. lia.
      * split;
          [| intros Hsafe; apply number_mins_reads_back;
             split; [exact Hpos | apply Hsafe; reflexivity]].
        split; [intros _; right; exists n; auto | reflexivity].
  - simpl.
    split; [split; [discriminate | intros H; contradiction H; reflexivity] |].
    split; [split; reflexivity |].
    split; [split; [discriminate | intros [n [H _]]; discriminate] |].
    split; [split; [intros _; left; reflexivity | reflexivity] |].
    intros _. reflexivity.
Qed.

End CompareFacts.

(** *** The CSV export without quotes ([exportToCSV]) *)

Lemma countChar_append (p : ascii -> bool) (a b : string) :
  Spec.countChar p (a ++ b)%string
  = (Spec.countChar p a + Spec.countChar p b)%nat.
Proof.
  induction a as [| c a IH]; simpl; [reflexivity |]. rewrite IH. lia.
Qed.

Lemma countChar_none (p q : ascii -> bool) (s : string) :
  (forall c, q c = true -> p c = false) ->
  Spec.allChars q s = true -> Spec.countChar p s = 0%nat.
Proof.
  intros Hpq. induction s as [| c s IH]; simpl; [reflexivity |].
  intros H. apply andb_true_iff in H. destruct H as [Hc Hs].
  rewrite (Hpq c Hc), (IH Hs). reflexivity.
Qed.

Lemma digit_is_no_comma (c : ascii) : Regex.isDigit c = true -> isComma c = false.
Proof.
  destruct c as [[|] [|] [|] [|] [|] [|] [|] [|]]; vm_compute; congruence.
Qed.

Lemma decimal_no_comma (z : Z) : Spec.countChar isComma (decimal z) = 0%nat.
Proof.
  assert (Huint : forall d,
            Spec.countChar isComma (NilZero.string_of_uint d) = 0%nat).
  { intros d. unfold NilZero.string_of_uint.
    destruct d; try reflexivity;
      apply (countChar_none isComma Regex.isDigit _ digit_is_no_comma);
      apply (string_of_uint_digits (_ d)). }
  unfold decimal. destruct (Z.to_int z) as [d | d]; simpl.
  - apply Huint.
  - apply Huint.
Qed.

Lemma countChar_zero_cons (p : ascii -> bool) (c : ascii) (s : string) :
  Spec.countChar p (String c s) = 0%nat ->
  p c = false /\ Spec.countChar p s = 0%nat.
Proof.
  simpl. destruct (p c); [discriminate | auto].
Qed.

Lemma dropZeros_no_comma (digits : string) :
  Spec.countChar isComma digits = 0%nat ->
  Spec.countChar isComma (dropZeros digits) = 0%nat.
Proof.
  induction digits as [| c digits IH]; [reflexivity |].
  intros H. apply countChar_zero_cons in H. destruct H as [Hc Hs].
  specialize (IH Hs). cbn [dropZeros].
  destruct (dropZeros digits) as [| c' kept].
  - destruct (code c =? 48)%N; simpl; [reflexivity |].
    rewrite Hc. reflexivity.
  - cbn [Spec.countChar] in IH |- *. rewrite Hc. exact IH.
Qed.

Lemma exponentForm_no_comma (significant : string) (e : Z) :
  Spec.countChar isComma significant = 0%nat ->
  Spec.countChar isComma (exponentForm significant e) = 0%nat.
Proof.
  destruct significant as [| d rest]; [reflexivity |].
  intros H. apply countChar_zero_cons in H. destruct H as [Hd Hrest].
  unfold exponentForm. destruct rest as [| d' rest].
  - cbn [Spec.countChar]. rewrite Hd, countChar_append, decimal_no_comma.
    reflexivity.
  - cbn [Spec.countChar]. rewrite Hd, !countChar_append, Hrest,
      decimal_no_comma. reflexivity.
Qed.

Lemma numberToString_no_comma (x : Z) :
  Spec.countChar isComma (numberToString x) = 0%nat.
Proof.
  unfold numberToString.
  destruct (x <? safeLimit); [apply decimal_no_comma |].
  destruct (infinity <=? x); [reflexivity |]. cbv zeta.
  destruct (_ <=? 21); [apply decimal_no_comma |].
  apply exponentForm_no_comma, dropZeros_no_comma, decimal_no_comma.
Qed.

(** A number, as it is written, has no comma. *)
Lemma showZ_no_comma (z : Z) : Spec.countChar isComma (showZ z) = 0%nat.
Proof.
  unfold showZ. destruct (z <? 0).
  - cbn [Spec.countChar]. rewrite numberToString_no_comma. reflexivity.
  - apply numberToString_no_comma.
Qed.

Lemma csvLine_commas (r : EmployeeComparisonResult) :
  Spec.countChar isComma (Page.csvLine (Page.csvRow r))
  = (5 + Spec.countChar isComma (res_employeeName r)
     + Spec.countChar isComma (res_fileNumber r)
     + Spec.countChar isComma (message r))%nat.
Proof.
  unfold Page.csvLine, Page.csvRow. cbn [String.concat].
  rewrite !countChar_append.
  assert (Hgap : Spec.countChar isComma
                   match timecardGap r with
                   | Some g => showZ (gapMinutes g)
                   | None => ""
                   end = 0%nat)
    by (destruct (timecardGap r); [apply showZ_no_comma | reflexivity]).
  assert (Hdur : Spec.countChar isComma
                   match breakSheetDuration r with
                   | Some d => showZ d
                   | None => ""
                   end = 0%nat)
    by (destruct (breakSheetDuration r); [apply showZ_no_comma | reflexivity]).
  assert (Hst : Spec.countChar isComma (Page.statusText (status r)) = 0%nat)
    by (destruct (status r); reflexivity).
  rewrite Hgap, Hdur, Hst.
  change (Spec.countChar isComma ",") with 1%nat. lia.
Qed.

(** The commas of a message of [compareBreakRecords]. *)
Lemma message_commas (gap : option TimecardGap) (b : option BreakSheetEntry)
    (tolerance : Z) :
  let c := compareBreakRecords gap b tolerance in
  Spec.countChar isComma (cmp_message c)
  = match cmp_status c, gap with
    | mismatch, _ => 2%nat
    | match_, Some _ => 1%nat
    | _, _ => 0%nat
    end.
Proof.
  unfold compareBreakRecords.
  destruct gap as [g |], b as [e |]; cbv zeta.
  - destruct (loggedMinutesOf e) as [m |].
    + destruct (Z.abs (gapMinutes g - m) <=? tolerance);
        cbn [cmp_message cmp_status];
        rewrite !countChar_append, !showZ_no_comma; reflexivity.
    + cbn [cmp_message cmp_status].
      rewrite !countChar_append, !showZ_no_comma. reflexivity.
  - cbn [cmp_message cmp_status].
    rewrite !countChar_append, !showZ_no_comma. reflexivity.
  - cbn [cmp_message cmp_status]. rewrite !countChar_append.
    destruct (loggedMinutesOf e) as [m |]; cbn [showNullable];
      rewrite ?showZ_no_comma; reflexivity.
  - reflexivity.
Qed.

Section CsvExport.
Variable score : string -> string -> Z.

(** X27: [exportToCSV] quotes nothing, so commas inside cells become
    separators.  The header line has 5 commas; the line of a row has 5
    commas, plus those of the employee name and of the file number, plus
    those of the message, which are 2 for a [mismatch], 1 for a [match]
    with a gap and 0 otherwise.  The line of a [mismatch] row therefore
    always has more cells than the header, and so has the line of any row
    whose employee name holds a comma. *)
Theorem exportToCSV_quotes_nothing now timecard sheet date tolerance :
  exists report,
    generateDiscrepancyReport score now timecard sheet date tolerance
    = Some report
    /\ Spec.countChar isComma (Page.csvLine Page.csvHeaders) = 5%nat
    /\ Page.exportToCSV report
       = String.concat (String (ascii_of_N 10) EmptyString)
           (Page.csvLine Page.csvHeaders
            :: map (fun r => Page.csvLine (Page.csvRow r)) (results report))
    /\ Forall
         (fun r =>
            Spec.countChar isComma (Page.csvLine (Page.csvRow r))
            = (5 + Spec.countChar isComma (res_employeeName r)
               + Spec.countChar isComma (res_fileNumber r)
               + match status r, timecardGap r with
                 | mismatch, _ => 2
                 | match_, Some _ => 1
                 | _, _ => 0
                 end)%nat
            /\ (status r = mismatch ->
                (5 < Spec.countChar isComma (Page.csvLine (Page.csvRow r)))%nat)
            /\ ((0 < Spec.countChar isComma (res_employeeName r))%nat ->
                (5 < Spec.countChar isComma (Page.csvLine (Page.csvRow r)))%nat))
         (results report).
Proof.
  destruct (generateDiscrepancyReport_total score now timecard sheet date
              tolerance) as [rs [Hgen [Hcls _]]].
  eexists. split; [exact Hgen |]. split; [reflexivity |]. split.
  - unfold Page.exportToCSV. cbn [results map]. rewrite map_map. reflexivity.
  - cbn [results]. eapply Forall_impl; [| exact Hcls].
    intros r [Hs [_ Hm]].
    pose proof (message_commas (timecardGap r)
                  (findBreakEntry sheet (matchedBreakSheetName r)) tolerance)
      as Hc.
    cbv zeta in Hc. rewrite <- Hs, <- Hm in Hc.
    rewrite csvLine_commas, Hc.
    split; [reflexivity |]. split.
    + intros Hmis. rewrite Hmis. lia.
    + intros Hname. lia.
Qed.

End CsvExport.
